(** * npm-chess: a verification development for the rules engine and the search

    The definitions below embed the TypeScript sources
    ([engine/board], [engine/pieces], [engine/moves], [engine/game],
    [engine/fen], [engine/pgn], [ai/evaluation], [ai/opening-book],
    [ai/random], [ai/minimax]) as Rocq functions.
    Objects that the source mutates in place become values that are passed
    and returned; exceptions become the [inl] side of a sum. *)

From Stdlib Require Import ZArith QArith Qround Ascii String DecimalString Lia.
From Stdlib Require DecimalPos.
From stdpp Require Import gmap strings list.

Close Scope Q_scope.
Open Scope Z_scope.

(** ** Types ([types/index.ts]) *)

Inductive Color := white | black.
Inductive PieceType := king | queen | rook | bishop | knight | pawn.

Record Piece := { type : PieceType; color : Color }.

#[global] Instance Color_eq_dec : EqDecision Color.
Proof. solve_decision. Defined.
#[global] Instance PieceType_eq_dec : EqDecision PieceType.
Proof. solve_decision. Defined.
#[global] Instance Piece_eq_dec : EqDecision Piece.
Proof. solve_decision. Defined.

(** [Square] is a string in the source ("e4"); [Coordinates] are JS
    numbers, which may leave the board while a ray is walked. *)
Abbreviation Square := string (only parsing).

Record Coordinates := { row : Z; col : Z }.

Inductive CastleSide := kingside | queenside.

#[global] Instance CastleSide_eq_dec : EqDecision CastleSide.
Proof. solve_decision. Defined.

Record CastlingRights := {
  whiteKingside : bool;
  whiteQueenside : bool;
  blackKingside : bool;
  blackQueenside : bool }.

(** Optional fields of the source's [Move] interface are [option]s; the
    flags [enPassant], [check] and [checkmate] are only ever tested for
    truthiness, so an absent flag is [false]. *)
Record Move := {
  from : Square;
  to : Square;
  piece : Piece;
  captured : option Piece;
  promotion : option PieceType;
  castling : option CastleSide;
  enPassant : bool;
  san : option string;
  check : bool;
  checkmate : bool }.

Record MoveOptions := {
  mo_from : Square;
  mo_to : Square;
  mo_promotion : option PieceType }.

Record MoveValidation := { valid : bool; error : option string }.

Inductive GameStatus :=
| active | check_status | checkmate_status | stalemate | draw
| insufficient_material | threefold_repetition | fifty_move_rule.

#[global] Instance GameStatus_eq_dec : EqDecision GameStatus.
Proof. solve_decision. Defined.

Definition opposite (c : Color) : Color :=
  match c with white => black | black => white end.

(** ** JavaScript primitives used by the engine *)

Infix "+++" := String.append (at level 60, right associativity).

(** *** Characters

    A JS string is a sequence of 16-bit code units.  The model has 256
    characters, one [ascii] each.  The code units U+0000 to U+0089 and
    U+00A0 to U+00FF stand for themselves.  The values 138 to 159 stand for
    the code units beyond U+00FF that a test of the engine tells apart from
    an ordinary character: the white space outside Latin-1 (matched by
    [\s], cut by [trim], skipped by [parseInt]), U+212A KELVIN SIGN, whose
    lower case is the letter k, and U+0178, U+039C and U+03BC, which the
    case mappings of Latin-1 letters lead to. *)
Definition beyondLatin1 : list Z :=
  [0x1680; 0x2000; 0x2001; 0x2002; 0x2003; 0x2004; 0x2005; 0x2006; 0x2007;
   0x2008; 0x2009; 0x200A; 0x2028; 0x2029; 0x202F; 0x205F; 0x3000; 0xFEFF;
   0x212A; 0x0178; 0x039C; 0x03BC].

(** [c.charCodeAt(0)] *)
Definition charCode (c : ascii) : Z :=
  let n := Z.of_nat (nat_of_ascii c) in
  if (138 <=? n) && (n <=? 159)
  then default n (beyondLatin1 !! Z.to_nat (n - 138))
  else n.

Fixpoint indexOf (n : Z) (l : list Z) (i : nat) : option nat :=
  match l with
  | [] => None
  | x :: l' => if x =? n then Some i else indexOf n l' (S i)
  end.

(** [String.fromCharCode(n)], where the code unit is one of the alphabet. *)
Definition fromCharCode (n : Z) : option ascii :=
  let n := n mod 65536 in
  if (n <? 138) || ((160 <=? n) && (n <=? 255))
  then Some (ascii_of_nat (Z.to_nat n))
  else (λ i, ascii_of_nat (138 + i)) <$> indexOf n beyondLatin1 0.

Definition KELVIN : ascii := default "K"%char (fromCharCode 0x212A).
Definition NBSP : ascii := default " "%char (fromCharCode 0xA0).

Definition digitVal (c : ascii) : option Z :=
  let n := charCode c in
  if (48 <=? n) && (n <=? 57) then Some (n - 48) else None.

(** The white space of [\s], [trim] and [parseInt]: TAB, LF, VT, FF, CR,
    SP, NBSP, U+1680, U+2000 to U+200A, U+2028, U+2029, U+202F, U+205F,
    U+3000 and U+FEFF. *)
Definition isSpace (c : ascii) : bool :=
  let n := charCode c in
  ((9 <=? n) && (n <=? 13)) || (n =? 32) || (n =? 0xA0) || (n =? 0x1680)
  || ((0x2000 <=? n) && (n <=? 0x200A)) || (n =? 0x2028) || (n =? 0x2029)
  || (n =? 0x202F) || (n =? 0x205F) || (n =? 0x3000) || (n =? 0xFEFF).

Fixpoint digitsPrefix (s : string) (acc : option Z) : option Z :=
  match s with
  | String c s' =>
      match digitVal c with
      | Some d => digitsPrefix s' (Some (10 * default 0 acc + d))
      | None => acc
      end
  | EmptyString => acc
  end.

Fixpoint dropSpaces (s : string) : string :=
  match s with
  | String c s' => if isSpace c then dropSpaces s' else s
  | EmptyString => EmptyString
  end.

(** *** Numbers

    The numbers of the engine are doubles.  A double that holds an integer
    is modelled by that integer, [INFINITY] stands for [Infinity] (and its
    opposite for [-Infinity]), and [None] stands for [NaN] where a function
    can return it.  The zero with a minus sign is held as zero: the engine
    prints, compares and increments its counters, and none of these tells
    the two zeros apart. *)
Definition INFINITY : Z := 2 ^ 1024.

(** The double nearest to an integer: the 53 leading bits are kept, a tie
    goes to the even significand, and what rounds to 2^1024 is
    [Infinity]. *)
Definition toDouble (n : Z) : Z :=
  let a := Z.abs n in
  let e := Z.log2 a - 52 in
  if e <=? 0 then n
  else
    let q := Z.shiftr a e in
    let r := a - Z.shiftl q e in
    let half := Z.shiftl 1 (e - 1) in
    let q' :=
      if r <? half then q
      else if half <? r then q + 1
      else if Z.even q then q else q + 1 in
    Z.sgn n * Z.min (Z.shiftl q' e) INFINITY.

(** [parseInt(s, 10)]: leading white space, an optional sign, the longest
    run of decimal digits, read as a double; [None] stands for [NaN]. *)
Definition parseInt (s : string) : option Z :=
  toDouble <$>
    match dropSpaces s with
    | String "-"%char s' => Z.opp <$> digitsPrefix s' None
    | String "+"%char s' => digitsPrefix s' None
    | s' => digitsPrefix s' None
    end.

(** The decimal digits of an integer. *)
Definition decimal (n : Z) : string := NilZero.string_of_int (Z.to_int n).

(** [shortest x d k]: the [k]-digit decimal [s] for which [s * 10 ^ (d - k)]
    is nearest to the double [x] of [d] digits and reads back as [x], with
    the number of digits before the decimal point; [None] when [k] digits
    are too few. *)
Definition shortest (x d k : Z) : option (Z * Z) :=
  let p := 10 ^ (d - k) in
  let lo := x / p in
  let hi := lo + 1 in
  let okLo := toDouble (lo * p) =? x in
  let okHi := toDouble (hi * p) =? x in
  let s :=
    if okLo && okHi then
      if x - lo * p <? hi * p - x then lo
      else if hi * p - x <? x - lo * p then hi
      else if Z.even lo then lo else hi
    else if okLo then lo else hi in
  if okLo || okHi then
    if s =? 10 ^ k then Some (10 ^ (k - 1), d + 1) else Some (s, d)
  else None.

Fixpoint shortestFrom (x d k : Z) (tries : nat) : Z * Z * Z :=
  match tries with
  | O => (x, d, d)
  | S tries' =>
      match shortest x d k with
      | Some (s, n) => (s, k, n)
      | None => shortestFrom x d (k + 1) tries'
      end
  end.

(** [n.toString()]: every digit of an integer below 2^53; beyond, the
    fewest digits that read back as the same double, followed by zeros up
    to 21 digits and by an exponent from there on. *)
Definition toString (n : Z) : string :=
  let a := Z.abs n in
  let sign : string := if n <? 0 then "-" else EmptyString in
  if a <? 2 ^ 53 then decimal n
  else if INFINITY <=? a then sign +++ "Infinity"
  else
    let d := Z.of_nat (String.length (decimal a)) in
    let '(s, k, n) := shortestFrom a d 1 17 in
    if n <=? 21 then sign +++ decimal (s * 10 ^ (n - k))
    else
      sign
      +++ match decimal s with
          | String c EmptyString => String c EmptyString
          | String c rest => String c ("." +++ rest)
          | EmptyString => EmptyString
          end
      +++ "e+" +++ decimal (n - 1).

(** [Number.MAX_SAFE_INTEGER]: up to it, every integer is a double and
    is printed with all its digits. *)
Definition MAX_SAFE_INTEGER : Z := 9007199254740991.

Arguments toDouble : simpl never.
Arguments toString : simpl never.
Arguments parseInt : simpl never.
Arguments charCode : simpl never.
Arguments fromCharCode : simpl never.

Definition charAt (s : string) (i : nat) : string :=
  match String.get i s with
  | Some c => String c EmptyString
  | None => EmptyString
  end.

(** ** The board ([engine/board.ts]) *)

Abbreviation Board := (list (list (option Piece))) (only parsing).

Module Board.

Definition createEmptyBoard : Board := replicate 8 (replicate 8 None).

(** A [Board] object is always built by [createEmptyBoard] and then
    updated cell by cell, so its grid is 8 by 8. *)
Definition wf (b : Board) : Prop :=
  length b = 8%nat ∧ Forall (λ r, length r = 8%nat) b.

Definition wfb (b : Board) : bool :=
  (length b =? 8)%nat && forallb (λ r, (length r =? 8)%nat) b.

(** [this.board[row]?.[col]] for array indices. *)
Definition cell (b : Board) (r c : nat) : option Piece :=
  match b !! r with
  | Some line => match line !! c with Some (Some p) => Some p | _ => None end
  | None => None
  end.

Definition isValidCoords (row col : Z) : bool :=
  (0 <=? row) && (row <=? 7) && (0 <=? col) && (col <=? 7).

Definition squareToCoords (square : Square) : option Coordinates :=
  match square with
  | String file (String rank EmptyString) =>
      let col := charCode file - charCode "a"%char in
      match parseInt (String rank EmptyString) with
      | Some n =>
          let row := n - 1 in
          if (col <? 0) || (7 <? col) || (row <? 0) || (7 <? row) then None
          else Some {| row := row; col := col |}
      | None => None
      end
  | _ => None
  end.

Definition coordsToSquare (row col : Z) : option Square :=
  if (row <? 0) || (7 <? row) || (col <? 0) || (7 <? col) then None
  else
    file ← fromCharCode (charCode "a"%char + col);
    Some (String file (toString (row + 1))).

Definition getPieceAt (b : Board) (row col : Z) : option Piece :=
  if (row <? 0) || (7 <? row) || (col <? 0) || (7 <? col) then None
  else cell b (Z.to_nat row) (Z.to_nat col).

Definition getPiece (b : Board) (square : Square) : option Piece :=
  match squareToCoords square with
  | Some c => cell b (Z.to_nat (row c)) (Z.to_nat (col c))
  | None => None
  end.

(** [this.board[row]![col] = piece] *)
Definition put (b : Board) (r c : nat) (p : option Piece) : Board :=
  alter (λ line, <[c := p]> line) r b.

Definition setPieceAt (b : Board) (row col : Z) (p : option Piece) : Board :=
  if (row <? 0) || (7 <? row) || (col <? 0) || (7 <? col) then b
  else put b (Z.to_nat row) (Z.to_nat col) p.

Definition setPiece (b : Board) (square : Square) (p : option Piece) : Board :=
  match squareToCoords square with
  | Some c => put b (Z.to_nat (row c)) (Z.to_nat (col c)) p
  | None => b
  end.

(** The returned captured piece is never used by the callers modelled
    here, so [movePiece] returns the updated board only. *)
Definition movePiece (b : Board) (from to : Square) : Board :=
  match squareToCoords from, squareToCoords to with
  | Some f, Some t =>
      let p := getPieceAt b (row f) (col f) in
      let b1 := setPieceAt b (row t) (col t) p in
      setPieceAt b1 (row f) (col f) None
  | _, _ => b
  end.

Definition isValidSquare (square : Square) : bool :=
  match squareToCoords square with Some _ => true | None => false end.

(** The pairs (row, col) in the order of the two nested [for] loops. *)
Definition scan : list (nat * nat) :=
  r ← seq 0 8; c ← seq 0 8; [(r, c)].

Definition findPieces (b : Board) (color0 : Color) : list (Square * Piece) :=
  rc ← scan;
  match cell b rc.1 rc.2 with
  | Some p =>
      if bool_decide (color p = color0) then
        match coordsToSquare (Z.of_nat rc.1) (Z.of_nat rc.2) with
        | Some sq => [(sq, p)]
        | None => []
        end
      else []
  | None => []
  end.

Definition isKingOf (color0 : Color) (o : option Piece) : bool :=
  match o with
  | Some p => bool_decide (type p = king) && bool_decide (color p = color0)
  | None => false
  end.

Definition findKing (b : Board) (color0 : Color) : option Square :=
  match List.find (λ rc, isKingOf color0 (cell b rc.1 rc.2)) scan with
  | Some rc => coordsToSquare (Z.of_nat rc.1) (Z.of_nat rc.2)
  | None => None
  end.

(** [clone] copies every cell; values are immutable here, so the copy is
    the grid itself. *)
Definition clone (b : Board) : Board := b.

Definition isEmpty (b : Board) (square : Square) : bool :=
  match getPiece b square with None => true | Some _ => false end.

Definition backRankPieces : list PieceType :=
  [rook; knight; bishop; queen; king; bishop; knight; rook].

(** The three [for (col = 0; col < 8; col+++)] loops of the source. *)
Definition setupStartingPosition : Board :=
  let b0 := createEmptyBoard in
  let b1 :=
    foldl (λ b c,
             put (put b 1 c (Some {| type := pawn; color := white |}))
                 6 c (Some {| type := pawn; color := black |}))
          b0 (seq 0 8) in
  let b2 :=
    foldl (λ b c,
             match backRankPieces !! c with
             | Some t => put b 0 c (Some {| type := t; color := white |})
             | None => b
             end) b1 (seq 0 8) in
  foldl (λ b c,
           match backRankPieces !! c with
           | Some t => put b 7 c (Some {| type := t; color := black |})
           | None => b
           end) b2 (seq 0 8).

End Board.

(** ** Piece movement ([engine/pieces.ts]) *)

Module DIRECTIONS.
Definition ORTHOGONAL : list (Z * Z) := [(-1, 0); (1, 0); (0, -1); (0, 1)].
Definition DIAGONAL : list (Z * Z) := [(-1, -1); (-1, 1); (1, -1); (1, 1)].
Definition KNIGHT : list (Z * Z) :=
  [(-2, -1); (-2, 1); (-1, -2); (-1, 2); (1, -2); (1, 2); (2, -1); (2, 1)].
Definition ALL : list (Z * Z) :=
  [(-1, 0); (1, 0); (0, -1); (0, 1); (-1, -1); (-1, 1); (1, -1); (1, 1)].
End DIRECTIONS.

Definition pawnDirection (c : Color) : Z :=
  match c with white => 1 | black => -1 end.

Definition getPawnMoves (b : Board) (from : Coordinates) (color0 : Color)
  : list Coordinates :=
  let direction := pawnDirection color0 in
  let startRank := match color0 with white => 1 | black => 6 end in
  let '{| row := row; col := col |} := from in
  let forward :=
    if Board.isValidCoords (row + direction) col
       && bool_decide (Board.getPieceAt b (row + direction) col = None)
    then
      {| row := row + direction; col := col |} ::
      (if (row =? startRank)
          && Board.isValidCoords (row + direction * 2) col
          && bool_decide (Board.getPieceAt b (row + direction * 2) col = None)
       then [{| row := row + direction * 2; col := col |}]
       else [])
    else [] in
  let captures :=
    offset ← [-1; 1];
    if Board.isValidCoords (row + direction) (col + offset) then
      match Board.getPieceAt b (row + direction) (col + offset) with
      | Some target =>
          if bool_decide (color target ≠ color0)
          then [{| row := row + direction; col := col + offset |}]
          else []
      | None => []
      end
    else [] in
  forward ++ captures.

(** One direction of [getSlidingMoves]: the [while] loop, which leaves
    the board after at most seven squares. *)
Fixpoint slide (steps : nat) (b : Board) (color0 : Color)
  (currentRow currentCol dRow dCol : Z) : list Coordinates :=
  match steps with
  | O => []
  | S n =>
      if Board.isValidCoords currentRow currentCol then
        match Board.getPieceAt b currentRow currentCol with
        | None =>
            {| row := currentRow; col := currentCol |} ::
            slide n b color0 (currentRow + dRow) (currentCol + dCol) dRow dCol
        | Some target =>
            if bool_decide (color target ≠ color0)
            then [{| row := currentRow; col := currentCol |}]
            else []
        end
      else []
  end.

Definition getSlidingMoves (b : Board) (from : Coordinates) (color0 : Color)
  (directions : list (Z * Z)) : list Coordinates :=
  d ← directions;
  slide 8 b color0 (row from + d.1) (col from + d.2) d.1 d.2.

Definition getJumpMoves (b : Board) (from : Coordinates) (color0 : Color)
  (directions : list (Z * Z)) : list Coordinates :=
  d ← directions;
  let targetRow := row from + d.1 in
  let targetCol := col from + d.2 in
  if Board.isValidCoords targetRow targetCol then
    match Board.getPieceAt b targetRow targetCol with
    | None => [{| row := targetRow; col := targetCol |}]
    | Some target =>
        if bool_decide (color target ≠ color0)
        then [{| row := targetRow; col := targetCol |}]
        else []
    end
  else [].

Definition getKnightMoves b from color0 := getJumpMoves b from color0 DIRECTIONS.KNIGHT.
Definition getBishopMoves b from color0 := getSlidingMoves b from color0 DIRECTIONS.DIAGONAL.
Definition getRookMoves b from color0 := getSlidingMoves b from color0 DIRECTIONS.ORTHOGONAL.
Definition getQueenMoves b from color0 := getSlidingMoves b from color0 DIRECTIONS.ALL.
Definition getKingMoves b from color0 := getJumpMoves b from color0 DIRECTIONS.ALL.

Definition getPseudoLegalMoves (b : Board) (from : Coordinates)
  (pieceType : PieceType) (color0 : Color) : list Coordinates :=
  match pieceType with
  | pawn => getPawnMoves b from color0
  | knight => getKnightMoves b from color0
  | bishop => getBishopMoves b from color0
  | rook => getRookMoves b from color0
  | queen => getQueenMoves b from color0
  | king => getKingMoves b from color0
  end.

Definition isPiece (t : PieceType) (c : Color) (o : option Piece) : bool :=
  match o with
  | Some p => bool_decide (type p = t) && bool_decide (color p = c)
  | None => false
  end.

(** A stepping attacker (pawn, knight, king) on one fixed square. *)
Definition stepAttack (b : Board) (t : PieceType) (attackingColor : Color)
  (r c : Z) : bool :=
  Board.isValidCoords r c && isPiece t attackingColor (Board.getPieceAt b r c).

(** One ray of the sliding-attack loops; [t] is [bishop] or [rook], and a
    queen attacks along either. *)
Fixpoint rayAttack (steps : nat) (b : Board) (t : PieceType)
  (attackingColor : Color) (currentRow currentCol dRow dCol : Z) : bool :=
  match steps with
  | O => false
  | S n =>
      if Board.isValidCoords currentRow currentCol then
        match Board.getPieceAt b currentRow currentCol with
        | Some p =>
            bool_decide (color p = attackingColor)
            && (bool_decide (type p = t) || bool_decide (type p = queen))
        | None =>
            rayAttack n b t attackingColor
              (currentRow + dRow) (currentCol + dCol) dRow dCol
        end
      else false
  end.

Definition isSquareUnderAttack (b : Board) (square : Coordinates)
  (attackingColor : Color) : bool :=
  let '{| row := row; col := col |} := square in
  let pawnDir := pawnDirection attackingColor in
  existsb (λ offset, stepAttack b pawn attackingColor (row - pawnDir) (col + offset))
          [-1; 1]
  || existsb (λ d : Z * Z, stepAttack b knight attackingColor (row + d.1) (col + d.2))
             DIRECTIONS.KNIGHT
  || existsb (λ d : Z * Z, stepAttack b king attackingColor (row + d.1) (col + d.2))
             DIRECTIONS.ALL
  || existsb (λ d : Z * Z,
                rayAttack 8 b bishop attackingColor (row + d.1) (col + d.2) d.1 d.2)
             DIRECTIONS.DIAGONAL
  || existsb (λ d : Z * Z,
                rayAttack 8 b rook attackingColor (row + d.1) (col + d.2) d.1 d.2)
             DIRECTIONS.ORTHOGONAL.

Definition isKingInCheck (b : Board) (kingColor : Color) : bool :=
  match Board.findKing b kingColor with
  | None => false
  | Some kingSquare =>
      match Board.squareToCoords kingSquare with
      | None => false
      | Some kingCoords =>
          isSquareUnderAttack b kingCoords (opposite kingColor)
      end
  end.

(** ** Move generation ([engine/moves.ts]) *)

Definition truthy (s : option string) : bool :=
  match s with
  | Some (String _ _) => true
  | _ => false
  end.

Definition homeRank (c : Color) : string :=
  match c with white => "1" | black => "8" end.

Definition plainMove (from to : Square) (p : Piece) (cap : option Piece) : Move :=
  {| from := from; to := to; piece := p; captured := cap;
     promotion := None; castling := None; enPassant := false;
     san := None; check := false; checkmate := false |}.

Definition withPromotion (m : Move) (p : PieceType) : Move :=
  {| from := from m; to := to m; piece := piece m; captured := captured m;
     promotion := Some p; castling := castling m; enPassant := enPassant m;
     san := san m; check := check m; checkmate := checkmate m |}.

Module MoveGenerator.

(** The generator keeps references to the game's board and castling
    rights and a copy of the en-passant square. *)
Record t := {
  board : Board;
  castlingRights : CastlingRights;
  enPassantSquare : option Square }.

Definition isMoveLegal (this : t) (from to : Square) (color0 : Color) : bool :=
  let clonedBoard := Board.movePiece (Board.clone (board this)) from to in
  negb (isKingInCheck clonedBoard color0).

Definition isPawnPromotionRank (rank : Z) (color0 : Color) : bool :=
  (bool_decide (color0 = white) && (rank =? 7))
  || (bool_decide (color0 = black) && (rank =? 0)).

Definition isPawnPromotionRequired (this : t) (from to : Square)
  (color0 : Color) : bool :=
  match Board.getPiece (board this) from with
  | None => false
  | Some p =>
      if bool_decide (type p ≠ pawn) then false
      else match Board.squareToCoords to with
           | None => false
           | Some toCoords => isPawnPromotionRank (row toCoords) color0
           end
  end.

Definition getEnPassantMove (this : t) (from : Square) (color0 : Color)
  : option Move :=
  match enPassantSquare this with
  | Some epSquare =>
      if negb (truthy (Some epSquare)) then None else
      match Board.squareToCoords from, Board.squareToCoords epSquare with
      | Some fromCoords, Some enPassantCoords =>
          let direction := pawnDirection color0 in
          let canCapture :=
            (row enPassantCoords =? row fromCoords + direction)
            && (Z.abs (col enPassantCoords - col fromCoords) =? 1) in
          if negb canCapture then None
          else if negb (isMoveLegal this from epSquare color0) then None
          else
            let capturedPawnRank :=
              match color0 with
              | white => row enPassantCoords - 1
              | black => row enPassantCoords + 1
              end in
            let capturedPawn :=
              match Board.coordsToSquare capturedPawnRank (col enPassantCoords) with
              | Some capturedPawnSquare =>
                  Board.getPiece (board this) capturedPawnSquare
              | None => None
              end in
            Some {| from := from; to := epSquare;
                    piece := {| type := pawn; color := color0 |};
                    captured := capturedPawn; promotion := None;
                    castling := None; enPassant := true;
                    san := None; check := false; checkmate := false |}
      | _, _ => None
      end
  | None => None
  end.

Definition hasKingsideRights (this : t) (color0 : Color) : bool :=
  match color0 with
  | white => whiteKingside (castlingRights this)
  | black => blackKingside (castlingRights this)
  end.

Definition hasQueensideRights (this : t) (color0 : Color) : bool :=
  match color0 with
  | white => whiteQueenside (castlingRights this)
  | black => blackQueenside (castlingRights this)
  end.

Definition canCastleKingside (this : t) (color0 : Color) : bool :=
  if negb (hasKingsideRights this color0) then false else
  let rank := homeRank color0 in
  let b := board this in
  if negb (isPiece king color0 (Board.getPiece b ("e" +++ rank))) then false
  else if negb (isPiece rook color0 (Board.getPiece b ("h" +++ rank))) then false
  else if negb (Board.isEmpty b ("f" +++ rank)) || negb (Board.isEmpty b ("g" +++ rank))
  then false
  else if isKingInCheck b color0 then false
  else
    match Board.squareToCoords ("f" +++ rank), Board.squareToCoords ("g" +++ rank) with
    | Some f, Some g =>
        if isSquareUnderAttack b f (opposite color0)
           || isSquareUnderAttack b g (opposite color0)
        then false else true
    | _, _ => false
    end.

Definition canCastleQueenside (this : t) (color0 : Color) : bool :=
  if negb (hasQueensideRights this color0) then false else
  let rank := homeRank color0 in
  let b := board this in
  if negb (isPiece king color0 (Board.getPiece b ("e" +++ rank))) then false
  else if negb (isPiece rook color0 (Board.getPiece b ("a" +++ rank))) then false
  else if negb (Board.isEmpty b ("b" +++ rank))
          || negb (Board.isEmpty b ("c" +++ rank))
          || negb (Board.isEmpty b ("d" +++ rank))
  then false
  else if isKingInCheck b color0 then false
  else
    match Board.squareToCoords ("c" +++ rank), Board.squareToCoords ("d" +++ rank) with
    | Some c, Some d =>
        if isSquareUnderAttack b c (opposite color0)
           || isSquareUnderAttack b d (opposite color0)
        then false else true
    | _, _ => false
    end.

Definition castlingMove (color0 : Color) (side : CastleSide) : Move :=
  {| from := "e" +++ homeRank color0;
     to := (match side with kingside => "g" | queenside => "c" end)
             +++ homeRank color0;
     piece := {| type := king; color := color0 |};
     captured := None; promotion := None; castling := Some side;
     enPassant := false; san := None; check := false; checkmate := false |}.

Definition getCastlingMoves (this : t) (color0 : Color) : list Move :=
  (if canCastleKingside this color0 then [castlingMove color0 kingside] else [])
  ++ (if canCastleQueenside this color0 then [castlingMove color0 queenside] else []).

Definition promotionPieces : list PieceType := [queen; rook; bishop; knight].

(** The body of the loop over the pseudo-legal targets. *)
Definition movesTo (this : t) (from : Square) (p : Piece) (color0 : Color)
  (toCoords : Coordinates) : list Move :=
  match Board.coordsToSquare (row toCoords) (col toCoords) with
  | None => []
  | Some to =>
      if isMoveLegal this from to color0 then
        let move := plainMove from to p (Board.getPiece (board this) to) in
        if bool_decide (type p = pawn)
           && isPawnPromotionRank (row toCoords) color0
        then withPromotion move <$> promotionPieces
        else [move]
      else []
  end.

Definition generateLegalMovesFrom (this : t) (from : Square) (color0 : Color)
  : list Move :=
  match Board.getPiece (board this) from with
  | None => []
  | Some p =>
      if bool_decide (color p ≠ color0) then [] else
      match Board.squareToCoords from with
      | None => []
      | Some fromCoords =>
          let pseudoLegalMoves :=
            getPseudoLegalMoves (board this) fromCoords (type p) color0 in
          let legalMoves := pseudoLegalMoves ≫= movesTo this from p color0 in
          let enPassantMoves :=
            if bool_decide (type p = pawn) && truthy (enPassantSquare this) then
              match getEnPassantMove this from color0 with
              | Some m => [m]
              | None => []
              end
            else [] in
          let castlingMoves :=
            if bool_decide (type p = king) then getCastlingMoves this color0
            else [] in
          legalMoves ++ enPassantMoves ++ castlingMoves
      end
  end.

Definition generateLegalMoves (this : t) (color0 : Color) : list Move :=
  sp ← Board.findPieces (board this) color0;
  generateLegalMovesFrom this sp.1 color0.

Definition matches (o : MoveOptions) (m : Move) : bool :=
  if negb (String.eqb (from m) (mo_from o) && String.eqb (to m) (mo_to o))
  then false
  else match mo_promotion o with
       | Some p => bool_decide (promotion m = Some p)
       | None => true
       end.

Definition rejected (reason : string) : MoveValidation :=
  {| valid := false; error := Some reason |}.

Definition validateMove (this : t) (move : MoveOptions) (color0 : Color)
  : MoveValidation :=
  let from := mo_from move in
  let to := mo_to move in
  if negb (Board.isValidSquare from) || negb (Board.isValidSquare to)
  then rejected "Invalid square"
  else match Board.getPiece (board this) from with
  | None => rejected "No piece at starting square"
  | Some p =>
      if bool_decide (color p ≠ color0) then rejected "Not your piece"
      else if String.eqb from to then rejected "Cannot move to the same square"
      else
        let legalMoves := generateLegalMovesFrom this from color0 in
        match List.find (matches move) legalMoves with
        | None => rejected "Illegal move"
        | Some _ =>
            if bool_decide (type p = pawn)
               && isPawnPromotionRequired this from to color0
               && negb (bool_decide (is_Some (mo_promotion move)))
            then rejected "Pawn promotion required"
            else {| valid := true; error := None |}
        end
  end.

Definition isCheckmate (this : t) (color0 : Color) : bool :=
  if negb (isKingInCheck (board this) color0) then false
  else (length (generateLegalMoves this color0) =? 0)%nat.

Definition isStalemate (this : t) (color0 : Color) : bool :=
  if isKingInCheck (board this) color0 then false
  else (length (generateLegalMoves this color0) =? 0)%nat.

End MoveGenerator.

(** ** FEN import and export ([engine/fen.ts]) *)

(** A computation that may throw [new Error(message)]. *)
Inductive Result (A : Type) : Type :=
| Ok (value : A)
| Throw (message : string).
Arguments Ok {A} value.
Arguments Throw {A} message.

#[global] Instance Result_bind : MBind Result :=
  λ A B k e, match e with Ok x => k x | Throw msg => Throw msg end.

Fixpoint trimEnd (s : string) : string :=
  match s with
  | EmptyString => EmptyString
  | String c s' =>
      match trimEnd s' with
      | EmptyString => if isSpace c then EmptyString else String c EmptyString
      | r => String c r
      end
  end.

Definition trim (s : string) : string := trimEnd (dropSpaces s).

(** [s.split(/\s+/)]; [inGap] tells that the previous character was a blank. *)
Fixpoint splitBlanks (s : string) (inGap : bool) : list string :=
  match s with
  | EmptyString => [EmptyString]
  | String c s' =>
      if isSpace c then
        if inGap then splitBlanks s' true
        else EmptyString :: splitBlanks s' true
      else
        match splitBlanks s' false with
        | h :: t => String c h :: t
        | [] => [String c EmptyString]
        end
  end.

(** [s.split(sep)] for a one-character separator. *)
Fixpoint splitOn (sep : ascii) (s : string) : list string :=
  match s with
  | EmptyString => [EmptyString]
  | String c s' =>
      if Ascii.eqb c sep then EmptyString :: splitOn sep s'
      else
        match splitOn sep s' with
        | h :: t => String c h :: t
        | [] => [String c EmptyString]
        end
  end.

Definition str (c : ascii) : string := String c EmptyString.

(** [c.toLowerCase()] and [c.toUpperCase()] on the code units of the
    alphabet: the letters of ASCII and of Latin-1, where the multiplication
    and division signs have no other case, the sharp s becomes two letters,
    and the micro sign and the y with diaeresis have their capitals beyond
    U+00FF; the Kelvin sign is the other capital of k. *)
Definition lowerUnit (n : Z) : Z :=
  if ((65 <=? n) && (n <=? 90))
     || ((0xC0 <=? n) && (n <=? 0xDE) && negb (n =? 0xD7)) then n + 32
  else if n =? 0x212A then 107
  else if n =? 0x0178 then 0xFF
  else if n =? 0x039C then 0x03BC
  else n.

Definition upperUnit (n : Z) : Z :=
  if ((97 <=? n) && (n <=? 122))
     || ((0xE0 <=? n) && (n <=? 0xFE) && negb (n =? 0xF7)) then n - 32
  else if n =? 0xB5 then 0x039C
  else if n =? 0xFF then 0x0178
  else if n =? 0x03BC then 0x039C
  else n.

Definition toLowerCase (c : ascii) : ascii :=
  default c (fromCharCode (lowerUnit (charCode c))).

Definition toUpperCase (c : ascii) : string :=
  if charCode c =? 0xDF then "SS"
  else str (default c (fromCharCode (upperUnit (charCode c)))).

Record FenData := {
  fen_board : Board;
  fen_turn : Color;
  fen_castlingRights : CastlingRights;
  fen_enPassantSquare : option Square;
  fen_halfMoveClock : Z;
  fen_fullMoveNumber : Z }.

Module FenParser.

Definition STARTING_POSITION : string :=
  "rnbqkbnr/pppppppp/8/8/8/8/PPPPPPPP/RNBQKBNR w KQkq - 0 1".

Definition typeMap (lowerChar : ascii) : option PieceType :=
  if Ascii.eqb lowerChar "p" then Some pawn
  else if Ascii.eqb lowerChar "n" then Some knight
  else if Ascii.eqb lowerChar "b" then Some bishop
  else if Ascii.eqb lowerChar "r" then Some rook
  else if Ascii.eqb lowerChar "q" then Some queen
  else if Ascii.eqb lowerChar "k" then Some king
  else None.

Definition charToPiece (char : ascii) : option Piece :=
  let isUpper := String.eqb (str char) (toUpperCase char) in
  let color0 := if isUpper then white else black in
  match typeMap (toLowerCase char) with
  | Some t => Some {| type := t; color := color0 |}
  | None => None
  end.

Definition charMap (t : PieceType) : ascii :=
  match t with
  | pawn => "p" | knight => "n" | bishop => "b"
  | rook => "r" | queen => "q" | king => "k"
  end%char.

Definition pieceToChar (p : Piece) : string :=
  match color p with
  | white => toUpperCase (charMap (type p))
  | black => str (charMap (type p))
  end.

(** The loop over the characters of one rank; [fileIndex] is threaded. *)
Fixpoint parseRank (chars : string) (rankIndex fileIndex : Z) (b : Board)
  : Result (Board * Z) :=
  match chars with
  | EmptyString => Ok (b, fileIndex)
  | String char rest =>
      if 8 <=? fileIndex then
        Throw ("Invalid FEN: too many squares in rank " +++ toString (8 - rankIndex))
      else
        match digitVal char with
        | Some emptySquares =>
            if (emptySquares <? 1) || (8 <? emptySquares) then
              Throw ("Invalid FEN: invalid empty square count '" +++ str char +++ "'")
            else parseRank rest rankIndex (fileIndex + emptySquares) b
        | None =>
            match charToPiece char with
            | None =>
                Throw ("Invalid FEN: unknown piece character '" +++ str char +++ "'")
            | Some p =>
                parseRank rest rankIndex (fileIndex + 1)
                  (Board.setPieceAt b (7 - rankIndex) fileIndex (Some p))
            end
        end
  end.

Fixpoint parseRanks (ranks : list string) (rankIndex : Z) (b : Board)
  : Result Board :=
  match ranks with
  | [] => Ok b
  | rank :: rest =>
      '(b', fileIndex) ← parseRank rank rankIndex 0 b;
      if negb (fileIndex =? 8) then
        Throw ("Invalid FEN: incomplete rank " +++ toString (8 - rankIndex))
      else parseRanks rest (rankIndex + 1) b'
  end.

Definition parsePiecePlacement (placement : string) : Result Board :=
  let ranks := splitOn "/" placement in
  if negb (length ranks =? 8)%nat then
    Throw ("Invalid FEN: expected 8 ranks, got "
             +++ toString (Z.of_nat (length ranks)))
  else parseRanks ranks 0 Board.createEmptyBoard.

Definition parseActiveColor (color0 : string) : Result Color :=
  if String.eqb color0 "w" then Ok white
  else if String.eqb color0 "b" then Ok black
  else Throw ("Invalid FEN: invalid active color '" +++ color0 +++ "'").

Fixpoint parseCastlingChars (chars : string) (rights : CastlingRights)
  : Result CastlingRights :=
  match chars with
  | EmptyString => Ok rights
  | String char rest =>
      let '{| whiteKingside := wk; whiteQueenside := wq;
              blackKingside := bk; blackQueenside := bq |} := rights in
      if Ascii.eqb char "K" then
        parseCastlingChars rest (Build_CastlingRights true wq bk bq)
      else if Ascii.eqb char "Q" then
        parseCastlingChars rest (Build_CastlingRights wk true bk bq)
      else if Ascii.eqb char "k" then
        parseCastlingChars rest (Build_CastlingRights wk wq true bq)
      else if Ascii.eqb char "q" then
        parseCastlingChars rest (Build_CastlingRights wk wq bk true)
      else Throw ("Invalid FEN: invalid castling character '" +++ str char +++ "'")
  end.

Definition parseCastlingRights (castling0 : string) : Result CastlingRights :=
  let rights := Build_CastlingRights false false false false in
  if String.eqb castling0 "-" then Ok rights
  else parseCastlingChars castling0 rights.

(** The test [/^[a-h][36]$/]. *)
Definition isEnPassantLabel (s : string) : bool :=
  match s with
  | String f (String r EmptyString) =>
      (97 <=? charCode f) && (charCode f <=? 104)
      && (Ascii.eqb r "3" || Ascii.eqb r "6")
  | _ => false
  end.

Definition parseEnPassant (enPassant0 : string) : Result (option Square) :=
  if String.eqb enPassant0 "-" then Ok None
  else if negb (isEnPassantLabel enPassant0) then
    Throw ("Invalid FEN: invalid en passant square '" +++ enPassant0 +++ "'")
  else Ok (Some enPassant0).

Definition parseHalfMoveClock (halfMove : string) : Result Z :=
  match parseInt halfMove with
  | Some clock =>
      if clock <? 0 then
        Throw ("Invalid FEN: invalid halfmove clock '" +++ halfMove +++ "'")
      else Ok clock
  | None => Throw ("Invalid FEN: invalid halfmove clock '" +++ halfMove +++ "'")
  end.

Definition parseFullMoveNumber (fullMove : string) : Result Z :=
  match parseInt fullMove with
  | Some number =>
      if number <? 1 then
        Throw ("Invalid FEN: invalid fullmove number '" +++ fullMove +++ "'")
      else Ok number
  | None => Throw ("Invalid FEN: invalid fullmove number '" +++ fullMove +++ "'")
  end.

Definition parse (fen : string) : Result FenData :=
  let parts := splitBlanks (trim fen) false in
  match parts with
  | [piecePlacement; activeColor; castling0; enPassant0; halfMove; fullMove] =>
      b ← parsePiecePlacement piecePlacement;
      turn ← parseActiveColor activeColor;
      rights ← parseCastlingRights castling0;
      ep ← parseEnPassant enPassant0;
      halfMoveClock ← parseHalfMoveClock halfMove;
      fullMoveNumber ← parseFullMoveNumber fullMove;
      Ok {| fen_board := b; fen_turn := turn; fen_castlingRights := rights;
            fen_enPassantSquare := ep; fen_halfMoveClock := halfMoveClock;
            fen_fullMoveNumber := fullMoveNumber |}
  | _ =>
      Throw ("Invalid FEN: expected 6 parts, got "
               +++ toString (Z.of_nat (length parts)))
  end.

(** One rank of [generatePiecePlacement]: the inner loop over the
    columns, with [emptyCount] threaded. *)
Fixpoint generateRank (cells : list (option Piece)) (emptyCount : Z) : string :=
  match cells with
  | [] => if 0 <? emptyCount then toString emptyCount else EmptyString
  | Some p :: rest =>
      (if 0 <? emptyCount then toString emptyCount else EmptyString)
        +++ pieceToChar p +++ generateRank rest 0
  | None :: rest => generateRank rest (emptyCount + 1)
  end.

Definition generatePiecePlacement (b : Board) : string :=
  String.concat "/"
    ((λ r : nat,
        generateRank ((λ c : nat, Board.getPieceAt b (Z.of_nat r) (Z.of_nat c))
                        <$> seq 0 8) 0)
       <$> [7; 6; 5; 4; 3; 2; 1; 0]%nat).

Definition generateCastlingRights (rights : CastlingRights) : string :=
  let s : string :=
    ((if whiteKingside rights then "K" else EmptyString)
       +++ (if whiteQueenside rights then "Q" else EmptyString)
       +++ (if blackKingside rights then "k" else EmptyString)
       +++ (if blackQueenside rights then "q" else EmptyString))%string in
  match s with EmptyString => "-"%string | _ => s end.

Definition generate (b : Board) (turn : Color) (rights : CastlingRights)
  (ep : option Square) (halfMoveClock fullMoveNumber : Z) : string :=
  String.concat " "
    [generatePiecePlacement b;
     match turn with white => "w" | black => "b" end;
     generateCastlingRights rights;
     default "-" ep;
     toString halfMoveClock;
     toString fullMoveNumber].

(** [FenParser.validate]: the text parses without an error. *)
Definition validate (fen : string) : bool :=
  match parse fen with Ok _ => true | Throw _ => false end.

End FenParser.

(** ** The game ([engine/game.ts]) *)

Definition typeName (t : PieceType) : string :=
  match t with
  | king => "king" | queen => "queen" | rook => "rook"
  | bishop => "bishop" | knight => "knight" | pawn => "pawn"
  end.

Definition colorName (c : Color) : string :=
  match c with white => "white" | black => "black" end.

(** The double-quote character of JSON texts. *)
Definition dq : string := str (ascii_of_nat 34).

(** [JSON.stringify] on the values the position key is built from. *)
Definition jsonString (s : string) : string := dq +++ s +++ dq.

Definition jsonBool (b : bool) : string := if b then "true" else "false".

Definition jsonPiece (o : option Piece) : string :=
  match o with
  | None => "null"
  | Some p =>
      "{" +++ jsonString "type" +++ ":" +++ jsonString (typeName (type p)) +++ ","
          +++ jsonString "color" +++ ":" +++ jsonString (colorName (color p)) +++ "}"
  end.

Definition jsonArray (items : list string) : string :=
  "[" +++ String.concat "," items +++ "]".

Definition jsonBoard (b : Board) : string :=
  jsonArray ((λ line, jsonArray (jsonPiece <$> line)) <$> b).

Definition jsonCastlingRights (r : CastlingRights) : string :=
  "{" +++ jsonString "whiteKingside" +++ ":" +++ jsonBool (whiteKingside r) +++ ","
      +++ jsonString "whiteQueenside" +++ ":" +++ jsonBool (whiteQueenside r) +++ ","
      +++ jsonString "blackKingside" +++ ":" +++ jsonBool (blackKingside r) +++ ","
      +++ jsonString "blackQueenside" +++ ":" +++ jsonBool (blackQueenside r) +++ "}".

Definition allCastlingRights : CastlingRights :=
  {| whiteKingside := true; whiteQueenside := true;
     blackKingside := true; blackQueenside := true |}.

Record GameConfig := { fen : option string; validateMoves : option bool }.

Module Game.

(** The [moveGenerator] field is not stored: the source rebuilds it
    after every assignment to [enPassantSquare], and it shares the board
    and the castling rights with the game, so at every call it is the
    generator of the current fields ([moveGenerator] below). *)
Record t := {
  board : Board;
  currentTurn : Color;
  moveHistory : list Move;
  castlingRights : CastlingRights;
  enPassantSquare : option Square;
  halfMoveClock : Z;
  fullMoveNumber : Z;
  gameStatus : GameStatus;
  positionHistory : gmap string nat }.

Definition moveGenerator (g : t) : MoveGenerator.t :=
  {| MoveGenerator.board := board g;
     MoveGenerator.castlingRights := castlingRights g;
     MoveGenerator.enPassantSquare := enPassantSquare g |}.

Definition withStatus (g : t) (s : GameStatus) : t :=
  {| board := board g; currentTurn := currentTurn g;
     moveHistory := moveHistory g; castlingRights := castlingRights g;
     enPassantSquare := enPassantSquare g; halfMoveClock := halfMoveClock g;
     fullMoveNumber := fullMoveNumber g; gameStatus := s;
     positionHistory := positionHistory g |}.

Definition withBoard (g : t) (b : Board) : t :=
  {| board := b; currentTurn := currentTurn g;
     moveHistory := moveHistory g; castlingRights := castlingRights g;
     enPassantSquare := enPassantSquare g; halfMoveClock := halfMoveClock g;
     fullMoveNumber := fullMoveNumber g; gameStatus := gameStatus g;
     positionHistory := positionHistory g |}.

Definition withHistory (g : t) (h : list Move) : t :=
  {| board := board g; currentTurn := currentTurn g;
     moveHistory := h; castlingRights := castlingRights g;
     enPassantSquare := enPassantSquare g; halfMoveClock := halfMoveClock g;
     fullMoveNumber := fullMoveNumber g; gameStatus := gameStatus g;
     positionHistory := positionHistory g |}.

Definition withCastlingRights (g : t) (r : CastlingRights) : t :=
  {| board := board g; currentTurn := currentTurn g;
     moveHistory := moveHistory g; castlingRights := r;
     enPassantSquare := enPassantSquare g; halfMoveClock := halfMoveClock g;
     fullMoveNumber := fullMoveNumber g; gameStatus := gameStatus g;
     positionHistory := positionHistory g |}.

Definition withTurn (g : t) (c : Color) : t :=
  {| board := board g; currentTurn := c;
     moveHistory := moveHistory g; castlingRights := castlingRights g;
     enPassantSquare := enPassantSquare g; halfMoveClock := halfMoveClock g;
     fullMoveNumber := fullMoveNumber g; gameStatus := gameStatus g;
     positionHistory := positionHistory g |}.

Definition getPositionKey (g : t) : string :=
  jsonBoard (board g) +++ "|" +++ colorName (currentTurn g) +++ "|"
    +++ jsonCastlingRights (castlingRights g) +++ "|"
    +++ default "null" (enPassantSquare g).

Definition recordPosition (g : t) : t :=
  let key := getPositionKey g in
  let count := default 0%nat (positionHistory g !! key) in
  {| board := board g; currentTurn := currentTurn g;
     moveHistory := moveHistory g; castlingRights := castlingRights g;
     enPassantSquare := enPassantSquare g; halfMoveClock := halfMoveClock g;
     fullMoveNumber := fullMoveNumber g; gameStatus := gameStatus g;
     positionHistory := <[key := (count + 1)%nat]> (positionHistory g) |}.

Definition isInCheck (g : t) : bool := isKingInCheck (board g) (currentTurn g).

Definition isInsufficientMaterial (g : t) : bool :=
  let pieces :=
    Board.findPieces (board g) white ++ Board.findPieces (board g) black in
  if (length pieces =? 2)%nat then true
  else
    let minorAlone :=
      if (length pieces =? 3)%nat then
        match filter (λ sp, type sp.2 ≠ king) pieces with
        | [sp] =>
            Some (bool_decide (type sp.2 = bishop)
                  || bool_decide (type sp.2 = knight))
        | _ => None
        end
      else None in
    match minorAlone with
    | Some answer => answer
    | None =>
        if (length pieces =? 4)%nat then
          match filter (λ sp, type sp.2 = bishop) pieces with
          | [b1; b2] =>
              match Board.squareToCoords b1.1, Board.squareToCoords b2.1 with
              | Some coords1, Some coords2 =>
                  (row coords1 + col coords1) `rem` 2
                  =? (row coords2 + col coords2) `rem` 2
              | _, _ => false
              end
          | _ => false
          end
        else false
    end.

Definition updateGameStatus (g : t) : t :=
  if MoveGenerator.isCheckmate (moveGenerator g) (currentTurn g)
  then withStatus g checkmate_status
  else if MoveGenerator.isStalemate (moveGenerator g) (currentTurn g)
  then withStatus g stalemate
  else if 100 <=? halfMoveClock g
  then withStatus g fifty_move_rule
  else
    let repetitions := default 0%nat (positionHistory g !! getPositionKey g) in
    if (3 <=? repetitions)%nat then withStatus g threefold_repetition
    else if isInsufficientMaterial g then withStatus g insufficient_material
    else if isInCheck g then withStatus g check_status
    else withStatus g active.

Definition isEnPassantCapture (g : t) (from to : Square) : bool :=
  match Board.getPiece (board g) from with
  | Some p =>
      bool_decide (type p = pawn)
      && match enPassantSquare g with
         | Some ep => String.eqb to ep
         | None => false
         end
  | None => false
  end.

Definition isCastlingMove (g : t) (from to : Square) : option CastleSide :=
  match Board.getPiece (board g) from with
  | Some p =>
      if bool_decide (type p ≠ king) then None
      else
        let fromFile := charAt from 0 in
        let toFile := charAt to 0 in
        if String.eqb fromFile "e" && String.eqb toFile "g" then Some kingside
        else if String.eqb fromFile "e" && String.eqb toFile "c" then Some queenside
        else None
  | None => None
  end.

Definition capturedPawnRank (c : Color) : string :=
  match c with white => "5" | black => "4" end.

Definition executeCastling (b : Board) (move : Move) : Board :=
  let b1 := Board.movePiece b (from move) (to move) in
  let rank := homeRank (color (piece move)) in
  if bool_decide (castling move = Some kingside)
  then Board.movePiece b1 ("h" +++ rank) ("f" +++ rank)
  else Board.movePiece b1 ("a" +++ rank) ("d" +++ rank).

Definition executeMove (b : Board) (move : Move) : Board :=
  let b1 :=
    if enPassant move then
      Board.setPiece b
        (charAt (to move) 0 +++ capturedPawnRank (color (piece move))) None
    else b in
  match castling move with
  | Some _ => executeCastling b1 move
  | None =>
      match promotion move with
      | Some p =>
          let b2 :=
            Board.setPiece b1 (to move)
              (Some {| type := p; color := color (piece move) |}) in
          Board.setPiece b2 (from move) None
      | None => Board.movePiece b1 (from move) (to move)
      end
  end.

Definition undoCastling (b : Board) (move : Move) : Board :=
  let rank := homeRank (color (piece move)) in
  if bool_decide (castling move = Some kingside)
  then Board.movePiece b ("f" +++ rank) ("h" +++ rank)
  else Board.movePiece b ("d" +++ rank) ("a" +++ rank).

Definition updateCastlingRights (r : CastlingRights) (move : Move)
  : CastlingRights :=
  let r1 :=
    if bool_decide (type (piece move) = king) then
      match color (piece move) with
      | white => Build_CastlingRights false false (blackKingside r) (blackQueenside r)
      | black => Build_CastlingRights (whiteKingside r) (whiteQueenside r) false false
      end
    else r in
  let lose (square : Square) (r : CastlingRights) : CastlingRights :=
    {| whiteQueenside := if String.eqb square "a1" then false else whiteQueenside r;
       whiteKingside := if String.eqb square "h1" then false else whiteKingside r;
       blackQueenside := if String.eqb square "a8" then false else blackQueenside r;
       blackKingside := if String.eqb square "h8" then false else blackKingside r |} in
  let r2 :=
    if bool_decide (type (piece move) = rook) then lose (from move) r1 else r1 in
  match captured move with
  | Some cap =>
      if bool_decide (type cap = rook) then lose (to move) r2 else r2
  | None => r2
  end.

(** [updateGameState]: clocks, en-passant square, castling rights, turn. *)
Definition updateGameState (g : t) (move : Move) : t :=
  let halfMoveClock' :=
    if bool_decide (type (piece move) = pawn)
       || bool_decide (is_Some (captured move))
    then 0 else toDouble (halfMoveClock g + 1) in
  let enPassantSquare' :=
    if bool_decide (type (piece move) = pawn) then
      match parseInt (charAt (from move) 1), parseInt (charAt (to move) 1) with
      | Some fromRank, Some toRank =>
          if Z.abs (toRank - fromRank) =? 2 then
            let targetRank :=
              match color (piece move) with
              | white => fromRank + 1
              | black => fromRank - 1
              end in
            Some (charAt (from move) 0 +++ toString targetRank)
          else None
      | _, _ => None
      end
    else None in
  let castlingRights' := updateCastlingRights (castlingRights g) move in
  let currentTurn' := opposite (currentTurn g) in
  let fullMoveNumber' :=
    if bool_decide (currentTurn' = white) then toDouble (fullMoveNumber g + 1)
    else fullMoveNumber g in
  {| board := board g; currentTurn := currentTurn';
     moveHistory := moveHistory g; castlingRights := castlingRights';
     enPassantSquare := enPassantSquare'; halfMoveClock := halfMoveClock';
     fullMoveNumber := fullMoveNumber'; gameStatus := gameStatus g;
     positionHistory := positionHistory g |}.

Definition pieceMap (t : PieceType) : string :=
  match t with
  | king => "K" | queen => "Q" | rook => "R" | bishop => "B" | knight => "N"
  | pawn => EmptyString
  end.

Definition getDisambiguation (g : t) (move : Move) : string :=
  if bool_decide (type (piece move) = pawn) || bool_decide (type (piece move) = king)
  then EmptyString
  else
    let legalMoves :=
      MoveGenerator.generateLegalMoves (moveGenerator g) (color (piece move)) in
    let ambiguousMoves :=
      List.filter
        (λ m, String.eqb (to m) (to move)
              && bool_decide (type (piece m) = type (piece move))
              && negb (String.eqb (from m) (from move)))
        legalMoves in
    match ambiguousMoves with
    | [] => EmptyString
    | _ =>
        let fromFile := charAt (from move) 0 in
        if negb (existsb (λ m, String.eqb (charAt (from m) 0) fromFile) ambiguousMoves)
        then fromFile
        else
          let fromRank := charAt (from move) 1 in
          if negb (existsb (λ m, String.eqb (charAt (from m) 1) fromRank) ambiguousMoves)
          then fromRank
          else from move
    end.

Definition upperInitial (s : string) : string :=
  match s with
  | String c _ => toUpperCase c
  | EmptyString => EmptyString
  end.

Definition generateSan (g : t) (move : Move) : string :=
  match castling move with
  | Some kingside => "O-O"
  | Some queenside => "O-O-O"
  | None =>
      (if bool_decide (type (piece move) ≠ pawn) then pieceMap (type (piece move))
       else EmptyString)
      +++ getDisambiguation g move
      +++ (if bool_decide (is_Some (captured move)) || enPassant move then
            (if bool_decide (type (piece move) = pawn) then charAt (from move) 0
             else EmptyString) +++ "x"
          else EmptyString)
      +++ to move
      +++ match promotion move with
         | Some p => "=" +++ upperInitial (typeName p)
         | None => EmptyString
         end
  end.

Definition move (g : t) (moveOptions : MoveOptions) : option Move * t :=
  let validation :=
    MoveGenerator.validateMove (moveGenerator g) moveOptions (currentTurn g) in
  if negb (valid validation) then (None, g) else
  let from := mo_from moveOptions in
  let to := mo_to moveOptions in
  match Board.getPiece (board g) from with
  | None => (None, g)
  | Some p =>
      let move0 :=
        {| from := from; to := to; piece := p;
           captured := Board.getPiece (board g) to;
           promotion := mo_promotion moveOptions;
           castling := isCastlingMove g from to;
           enPassant := isEnPassantCapture g from to;
           san := None; check := false; checkmate := false |} in
      let san0 := generateSan g move0 in
      let g1 := withBoard g (executeMove (board g) move0) in
      let g2 := updateGameState g1 move0 in
      let g3 := recordPosition g2 in
      let g4 := updateGameStatus g3 in
      let opponent := currentTurn g4 in
      let isCheck := isKingInCheck (board g4) opponent in
      let isCheckmate := bool_decide (gameStatus g4 = checkmate_status) in
      let move1 :=
        {| from := from; to := to; piece := p;
           captured := captured move0; promotion := promotion move0;
           castling := castling move0; enPassant := enPassant move0;
           san := Some (san0 +++ (if isCheckmate then "#"
                                 else if isCheck then "+" else EmptyString));
           check := negb isCheckmate && isCheck;
           checkmate := isCheckmate |} in
      (Some move1, withHistory g4 (moveHistory g4 ++ [move1]))
  end.

Definition getLegalMoves (g : t) : list Move :=
  MoveGenerator.generateLegalMoves (moveGenerator g) (currentTurn g).

Definition getLegalMovesFrom (g : t) (square : Square) : list Move :=
  MoveGenerator.generateLegalMovesFrom (moveGenerator g) square (currentTurn g).

Definition restoreGameStateFromMove (g : t) (move : Move) : t :=
  withCastlingRights g (updateCastlingRights (castlingRights g) move).

Definition restoreInitialGameState (g : t) : t :=
  {| board := board g; currentTurn := currentTurn g;
     moveHistory := moveHistory g; castlingRights := allCastlingRights;
     enPassantSquare := None; halfMoveClock := 0;
     fullMoveNumber := 1; gameStatus := gameStatus g;
     positionHistory := positionHistory g |}.

(** The board part of [undo]. *)
Definition undoBoard (b : Board) (move : Move) : Board :=
  let b1 := Board.setPiece b (from move) (Some (piece move)) in
  let b2 :=
    match captured move with
    | Some cap =>
        if enPassant move then
          let b' :=
            Board.setPiece b1
              (charAt (to move) 0 +++ capturedPawnRank (color (piece move)))
              (Some cap) in
          Board.setPiece b' (to move) None
        else Board.setPiece b1 (to move) (Some cap)
    | None => Board.setPiece b1 (to move) None
    end in
  match castling move with
  | Some _ => undoCastling b2 move
  | None => b2
  end.

Definition undo (g : t) : option Move * t :=
  match last (moveHistory g) with
  | None => (None, g)
  | Some move =>
      let history := removelast (moveHistory g) in
      let g1 := withHistory (withBoard g (undoBoard (board g) move)) history in
      let g2 :=
        match last history with
        | Some previousMove => restoreGameStateFromMove g1 previousMove
        | None => restoreInitialGameState g1
        end in
      let g3 := withTurn g2 (opposite (currentTurn g2)) in
      (Some move, updateGameStatus g3)
  end.

Definition getStatus (g : t) : GameStatus := gameStatus g.
Definition getTurn (g : t) : Color := currentTurn g.
Definition getHistory (g : t) : list Move := moveHistory g.
Definition getBoard (g : t) : Board := board g.

Definition isGameOver (g : t) : bool :=
  bool_decide (gameStatus g ≠ active) && bool_decide (gameStatus g ≠ check_status).

Definition reset (g : t) : t :=
  recordPosition
    {| board := Board.setupStartingPosition; currentTurn := white;
       moveHistory := []; castlingRights := allCastlingRights;
       enPassantSquare := None; halfMoveClock := 0; fullMoveNumber := 1;
       gameStatus := active; positionHistory := ∅ |}.

Definition loadFen (g : t) (fen : string) : Result unit * t :=
  match FenParser.parse fen with
  | Throw msg => (Throw msg, g)
  | Ok data =>
      let g1 :=
        {| board := fen_board data; currentTurn := fen_turn data;
           moveHistory := []; castlingRights := fen_castlingRights data;
           enPassantSquare := fen_enPassantSquare data;
           halfMoveClock := fen_halfMoveClock data;
           fullMoveNumber := fen_fullMoveNumber data;
           gameStatus := active; positionHistory := ∅ |} in
      (Ok (), updateGameStatus (recordPosition g1))
  end.

Definition getFen (g : t) : string :=
  FenParser.generate (board g) (currentTurn g) (castlingRights g)
    (enPassantSquare g) (halfMoveClock g) (fullMoveNumber g).

(** [new Game(config)]: the starting position is set up and recorded
    unless the configuration carries a FEN text. *)
Definition new (config : option GameConfig) : t :=
  let g0 :=
    {| board := Board.createEmptyBoard; currentTurn := white;
       moveHistory := []; castlingRights := allCastlingRights;
       enPassantSquare := None; halfMoveClock := 0; fullMoveNumber := 1;
       gameStatus := active; positionHistory := ∅ |} in
  if truthy (config ≫= fen) then g0
  else recordPosition (withBoard g0 Board.setupStartingPosition).

End Game.

(** ** Position evaluation ([ai/evaluation.ts]) *)

Definition PIECE_VALUES (t : PieceType) : Z :=
  match t with
  | pawn => 100 | knight => 320 | bishop => 330
  | rook => 500 | queen => 900 | king => 20000
  end.

Definition PAWN_TABLE : list (list Z) :=
  [[0; 0; 0; 0; 0; 0; 0; 0];
   [50; 50; 50; 50; 50; 50; 50; 50];
   [10; 10; 20; 30; 30; 20; 10; 10];
   [5; 5; 10; 25; 25; 10; 5; 5];
   [0; 0; 0; 20; 20; 0; 0; 0];
   [5; -5; -10; 0; 0; -10; -5; 5];
   [5; 10; 10; -20; -20; 10; 10; 5];
   [0; 0; 0; 0; 0; 0; 0; 0]].

Definition KNIGHT_TABLE : list (list Z) :=
  [[-50; -40; -30; -30; -30; -30; -40; -50];
   [-40; -20; 0; 0; 0; 0; -20; -40];
   [-30; 0; 10; 15; 15; 10; 0; -30];
   [-30; 5; 15; 20; 20; 15; 5; -30];
   [-30; 0; 15; 20; 20; 15; 0; -30];
   [-30; 5; 10; 15; 15; 10; 5; -30];
   [-40; -20; 0; 5; 5; 0; -20; -40];
   [-50; -40; -30; -30; -30; -30; -40; -50]].

Definition BISHOP_TABLE : list (list Z) :=
  [[-20; -10; -10; -10; -10; -10; -10; -20];
   [-10; 0; 0; 0; 0; 0; 0; -10];
   [-10; 0; 5; 10; 10; 5; 0; -10];
   [-10; 5; 5; 10; 10; 5; 5; -10];
   [-10; 0; 10; 10; 10; 10; 0; -10];
   [-10; 10; 10; 10; 10; 10; 10; -10];
   [-10; 5; 0; 0; 0; 0; 5; -10];
   [-20; -10; -10; -10; -10; -10; -10; -20]].

Definition ROOK_TABLE : list (list Z) :=
  [[0; 0; 0; 0; 0; 0; 0; 0];
   [5; 10; 10; 10; 10; 10; 10; 5];
   [-5; 0; 0; 0; 0; 0; 0; -5];
   [-5; 0; 0; 0; 0; 0; 0; -5];
   [-5; 0; 0; 0; 0; 0; 0; -5];
   [-5; 0; 0; 0; 0; 0; 0; -5];
   [-5; 0; 0; 0; 0; 0; 0; -5];
   [0; 0; 0; 5; 5; 0; 0; 0]].

Definition QUEEN_TABLE : list (list Z) :=
  [[-20; -10; -10; -5; -5; -10; -10; -20];
   [-10; 0; 0; 0; 0; 0; 0; -10];
   [-10; 0; 5; 5; 5; 5; 0; -10];
   [-5; 0; 5; 5; 5; 5; 0; -5];
   [0; 0; 5; 5; 5; 5; 0; -5];
   [-10; 5; 5; 5; 5; 5; 0; -10];
   [-10; 0; 5; 0; 0; 0; 0; -10];
   [-20; -10; -10; -5; -5; -10; -10; -20]].

Definition KING_MIDDLE_TABLE : list (list Z) :=
  [[-30; -40; -40; -50; -50; -40; -40; -30];
   [-30; -40; -40; -50; -50; -40; -40; -30];
   [-30; -40; -40; -50; -50; -40; -40; -30];
   [-30; -40; -40; -50; -50; -40; -40; -30];
   [-20; -30; -30; -40; -40; -30; -30; -20];
   [-10; -20; -20; -20; -20; -20; -20; -10];
   [20; 20; 0; 0; 0; 0; 20; 20];
   [20; 30; 10; 0; 0; 10; 30; 20]].

Definition KING_END_TABLE : list (list Z) :=
  [[-50; -40; -30; -20; -20; -30; -40; -50];
   [-30; -20; -10; 0; 0; -10; -20; -30];
   [-30; -10; 20; 30; 30; 20; -10; -30];
   [-30; -10; 30; 40; 40; 30; -10; -30];
   [-30; -10; 30; 40; 40; 30; -10; -30];
   [-30; -10; 20; 30; 30; 20; -10; -30];
   [-30; -30; 0; 0; 0; 0; -30; -30];
   [-50; -30; -30; -30; -30; -30; -30; -50]].

Definition PIECE_TABLES (t : PieceType) : list (list Z) :=
  match t with
  | pawn => PAWN_TABLE | knight => KNIGHT_TABLE | bishop => BISHOP_TABLE
  | rook => ROOK_TABLE | queen => QUEEN_TABLE | king => KING_MIDDLE_TABLE
  end.

Definition sumValues (pieces : list (Square * Piece)) : Z :=
  foldl (λ score sp, score + PIECE_VALUES (type sp.2)) 0 pieces.

Definition evaluateMaterial (b : Board) (color0 : Color) : Z :=
  sumValues (Board.findPieces b color0)
  - sumValues (Board.findPieces b (opposite color0)).

(** [ai/evaluation.ts] has its own copies of [squareToCoords] and
    [coordsToSquare], with the bodies of the board's. *)
Definition getPieceSquareValue (p : Piece) (square : Square) (isEndgame : bool) : Z :=
  match Board.squareToCoords square with
  | None => 0
  | Some coords =>
      let row := match color p with black => 7 - row coords | white => row coords end in
      let table :=
        if bool_decide (type p = king) && isEndgame then KING_END_TABLE
        else PIECE_TABLES (type p) in
      let value := default 0 (table !! Z.to_nat row ≫= (.!! Z.to_nat (col coords))) in
      match color p with white => value | black => - value end
  end.

Definition evaluatePosition (b : Board) (isEndgame : bool) : Z :=
  foldl (λ score (rc : nat * nat),
           match Board.coordsToSquare (Z.of_nat rc.1) (Z.of_nat rc.2) with
           | None => score
           | Some square =>
               match Board.getPiece b square with
               | Some p => score + getPieceSquareValue p square isEndgame
               | None => score
               end
           end) 0 Board.scan.

(** The counting loop of [isEndgame]: (queens, minor pieces, rooks). *)
Definition tally (pieces : list (Square * Piece)) : Z * Z * Z :=
  foldl (λ '(queens, minor, rooks) (sp : Square * Piece),
           if bool_decide (type sp.2 = queen) then (queens + 1, minor, rooks)
           else if bool_decide (type sp.2 = knight) || bool_decide (type sp.2 = bishop)
           then (queens, minor + 1, rooks)
           else if bool_decide (type sp.2 = rook) then (queens, minor, rooks + 1)
           else (queens, minor, rooks))
        (0, 0, 0) pieces.

Definition isEndgame (b : Board) : bool :=
  let '(whiteQueens, whiteMinor, whiteRooks) := tally (Board.findPieces b white) in
  let '(blackQueens, blackMinor, blackRooks) := tally (Board.findPieces b black) in
  if (whiteQueens =? 0) && (blackQueens =? 0) then true
  else if (0 <? whiteQueens) && (whiteMinor + whiteRooks <=? 1)
          && (0 <? blackQueens) && (blackMinor + blackRooks <=? 1)
  then true
  else false.

(** Scores are JS numbers; they are modelled as exact rationals, so
    [positionScore * 0.1] is a tenth, without binary rounding. *)
Definition evaluateBoard (b : Board) (color0 : Color) : Q :=
  let endgame := isEndgame b in
  let materialScore := evaluateMaterial b color0 in
  let positionScore := evaluatePosition b endgame in
  (inject_Z materialScore + inject_Z positionScore * (1 # 10))%Q.

(** ** Time and randomness

    [Date.now()] and [Math.random()] are read from an environment: the
    k-th call returns the k-th value of a fixed sequence, and the number
    of calls made so far is part of the state. *)

Record Env := { now : nat → Z; random : nat → Q }.

Record World := { timeReads : nat; randomDraws : nat }.

Definition dateNow (env : Env) (w : World) : Z * World :=
  (now env (timeReads w),
   {| timeReads := S (timeReads w); randomDraws := randomDraws w |}).

Definition mathRandom (env : Env) (w : World) : Q * World :=
  (random env (randomDraws w),
   {| timeReads := timeReads w; randomDraws := S (randomDraws w) |}).

(** ** The opening book ([ai/opening-book.ts]) *)

Record OpeningMove := {
  om_move : string;
  om_weight : Q;
  om_eco : option string;
  om_name : option string;
  om_variation : option string }.

Record OpeningBookConfig := {
  ob_enabled : bool;
  ob_maxDepth : Z;
  ob_randomize : bool;
  ob_minWeight : Q }.

(** The remaining operations of the book ([ai/opening-book.ts]).  A
    [Record<string, OpeningMove[]>] is a finite map from texts to lists. *)
Record OpeningBookData := {
  obd_version : string;
  obd_maxDepth : Z;
  obd_positions : gmap string (list OpeningMove) }.

Record PartialBookConfig := {
  pc_enabled : option bool;
  pc_maxDepth : option Z;
  pc_randomize : option bool;
  pc_minWeight : option Q }.

Record BookStats := {
  bs_version : string;
  bs_maxDepth : Z;
  bs_positionCount : Z;
  bs_totalMoves : Z }.

Module OpeningBook.

Record t := {
  positions : gmap string (list OpeningMove);
  config : OpeningBookConfig;
  maxDepth : Z;
  version : string }.

Definition normalizeFEN (fen : string) : string :=
  String.concat " " (take 4 (splitOn " " fen)).

(** The loop of the weighted selection. *)
Fixpoint pick (moves : list OpeningMove) (random : Q) : option OpeningMove :=
  match moves with
  | [] => None
  | move :: rest =>
      let random' := (random - om_weight move)%Q in
      if Qle_bool random' 0 then Some move else pick rest random'
  end.

Definition selectMove (env : Env) (this : t) (moves : list OpeningMove)
  (w : World) : Result OpeningMove * World :=
  if negb (ob_randomize (config this)) then
    match moves with
    | first :: rest =>
        (Ok (foldl (λ best current,
                      if Qle_bool (om_weight current) (om_weight best)
                      then best else current) first rest), w)
    | [] => (Throw "Reduce of empty array with no initial value", w)
    end
  else
    let totalWeight := foldl (λ sum m, (sum + om_weight m)%Q) 0%Q moves in
    let '(r, w') := mathRandom env w in
    match pick moves (r * totalWeight)%Q with
    | Some move => (Ok move, w')
    | None =>
        match moves with
        | firstMove :: _ => (Ok firstMove, w')
        | [] => (Throw "No moves available for selection", w')
        end
    end.

Definition getMove (env : Env) (this : t) (game : Game.t) (w : World)
  : Result (option OpeningMove) * World :=
  if negb (ob_enabled (config this)) then (Ok None, w)
  else
    let ply := Z.of_nat (length (Game.getHistory game)) in
    if ob_maxDepth (config this) <=? ply then (Ok None, w)
    else
      let fen := normalizeFEN (Game.getFen game) in
      match positions this !! fen with
      | None | Some [] => (Ok None, w)
      | Some moves =>
          let validMoves :=
            List.filter (λ m, Qle_bool (ob_minWeight (config this)) (om_weight m))
                        moves in
          match validMoves with
          | [] => (Ok None, w)
          | _ =>
              let '(r, w') := selectMove env this validMoves w in
              (match r with Ok m => Ok (Some m) | Throw msg => Throw msg end, w')
          end
      end.

Definition new (options : PartialBookConfig) : t :=
  {| positions := ∅;
     config :=
       {| ob_enabled := default true (pc_enabled options);
          ob_maxDepth := default 12 (pc_maxDepth options);
          ob_randomize := default true (pc_randomize options);
          ob_minWeight := default 5%Q (pc_minWeight options) |};
     maxDepth := 12;
     version := "1.0.0" |}.

Definition loadData (this : t) (data : OpeningBookData)
  : t :=
  {| positions := obd_positions data;
     config := config this;
     maxDepth := obd_maxDepth data;
     version := obd_version data |}.

Definition hasPosition (this : t) (fen : string) : bool :=
  bool_decide (is_Some (positions this !! normalizeFEN fen)).

Definition getMoves (this : t) (fen : string) : list OpeningMove :=
  default [] (positions this !! normalizeFEN fen).

Definition getStats (this : t) : BookStats :=
  {| bs_version := version this;
     bs_maxDepth := maxDepth this;
     bs_positionCount := Z.of_nat (size (positions this));
     bs_totalMoves :=
       map_fold (λ _ moves total, total + Z.of_nat (length moves)) 0
         (positions this) |}.

Definition clear (this : t) : t :=
  {| positions := ∅;
     config := config this;
     maxDepth := maxDepth this;
     version := version this |}.

Definition configure (this : t) (options : PartialBookConfig)
  : t :=
  {| positions := positions this;
     config :=
       {| ob_enabled := default (ob_enabled (config this)) (pc_enabled options);
          ob_maxDepth := default (ob_maxDepth (config this)) (pc_maxDepth options);
          ob_randomize :=
            default (ob_randomize (config this)) (pc_randomize options);
          ob_minWeight :=
            default (ob_minWeight (config this)) (pc_minWeight options) |};
     maxDepth := maxDepth this;
     version := version this |}.

End OpeningBook.

(** ** Engine configuration ([ai/engine.ts]) *)

Inductive AIDifficulty := harmless | easy | medium | hard | expert | godlike.

Record AIConfig := {
  difficulty : option AIDifficulty;
  maxThinkingTime : option Z;
  maxDepth : option Z;
  randomness : option Q }.

Record RequiredAIConfig := {
  cfg_difficulty : AIDifficulty;
  cfg_maxThinkingTime : Z;
  cfg_maxDepth : Z;
  cfg_randomness : Q }.

Definition DIFFICULTY_CONFIGS (d : AIDifficulty) : Z * Q :=
  match d with
  | harmless => (1, (5 # 10)%Q)
  | easy => (2, (3 # 10)%Q)
  | medium => (3, (1 # 10)%Q)
  | hard => (4, (5 # 100)%Q)
  | expert => (5, 0%Q)
  | godlike => (6, 0%Q)
  end.

Definition mergeConfig (userConfig : option AIConfig) : RequiredAIConfig :=
  let difficulty0 := default medium (userConfig ≫= difficulty) in
  let defaults := DIFFICULTY_CONFIGS difficulty0 in
  {| cfg_difficulty := difficulty0;
     cfg_maxDepth := default defaults.1 (userConfig ≫= maxDepth);
     cfg_randomness := default defaults.2 (userConfig ≫= randomness);
     cfg_maxThinkingTime := default 30000 (userConfig ≫= maxThinkingTime) |}.

(** A score is a JS number: a rational or one of the two infinities. *)
Inductive Score := NegInfinity | Finite (q : Q) | PosInfinity.

Definition Score_leb (a b : Score) : bool :=
  match a, b with
  | NegInfinity, _ => true
  | _, PosInfinity => true
  | Finite x, Finite y => Qle_bool x y
  | _, _ => false
  end.

Definition Score_ltb (a b : Score) : bool := negb (Score_leb b a).

(** [Math.max] and [Math.min]. *)
Definition Score_max (a b : Score) : Score := if Score_leb a b then b else a.
Definition Score_min (a b : Score) : Score := if Score_leb a b then a else b.

Record MoveEvaluation := {
  me_move : Move;
  me_score : Score;
  me_depth : Z;
  me_nodesEvaluated : option Z }.

Record AIAnalysis := {
  bestMove : Move;
  score : Score;
  thinkingTime : Z;
  depth : Z;
  nodesEvaluated : Z;
  openingName : option string;
  eco : option string;
  topMoves : option (list MoveEvaluation) }.

Record SearchStats := {
  stat_nodesEvaluated : Z;
  stat_pruneCount : Z;
  stat_maxDepthReached : Z }.

(** A run of the search ends with a value, with a thrown error, or it is
    cut by the step budget of the model ([OutOfFuel]).  The statistics
    gathered before an error is thrown are not tracked. *)
Inductive Outcome (A : Type) : Type :=
| Returns (value : A)
| Throws (message : string)
| OutOfFuel.
Arguments Returns {A} value.
Arguments Throws {A} message.
Arguments OutOfFuel {A}.

Definition toOptions (m : Move) : MoveOptions :=
  {| mo_from := from m; mo_to := to m; mo_promotion := promotion m |}.

(** [Array.prototype.sort] is stable.  The elements are inserted from
    the last to the first, each one behind the elements that the comparator
    puts strictly before it and in front of the others, so that elements
    which compare as equal keep their order. *)
Fixpoint insertSorted {A} (before : A → A → bool) (x : A) (l : list A) : list A :=
  match l with
  | [] => [x]
  | y :: l' => if before y x then y :: insertSorted before x l' else x :: l
  end.

Definition stableSort {A} (before : A → A → bool) (l : list A) : list A :=
  foldr (insertSorted before) [] l.

Module MinimaxAI.

Record t := {
  config : RequiredAIConfig;
  openingBook : option OpeningBook.t;
  stats : SearchStats }.

Definition new (config : option AIConfig) (openingBook : option OpeningBook.t) : t :=
  {| config := mergeConfig config; openingBook := openingBook;
     stats := {| stat_nodesEvaluated := 0; stat_pruneCount := 0;
                 stat_maxDepthReached := 0 |} |}.

Definition setOpeningBook (this : t) (book : option OpeningBook.t) : t :=
  {| config := config this; openingBook := book; stats := stats this |}.

Definition withStats (this : t) (s : SearchStats) : t :=
  {| config := config this; openingBook := openingBook this; stats := s |}.

(** [cloneGame]: a new game that loads the FEN text of the given one. *)
Definition cloneGame (game : Game.t) : Result Game.t :=
  let fen := Game.getFen game in
  let cloned := Game.new None in
  match Game.loadFen cloned fen with
  | (Ok _, cloned') => Ok cloned'
  | (Throw msg, _) => Throw msg
  end.

Definition visit (cfg : RequiredAIConfig) (depth : Z) (s : SearchStats) : SearchStats :=
  {| stat_nodesEvaluated := toDouble (stat_nodesEvaluated s + 1);
     stat_pruneCount := stat_pruneCount s;
     stat_maxDepthReached :=
       Z.max (stat_maxDepthReached s) (cfg_maxDepth cfg - depth) |}.

Definition pruned (s : SearchStats) : SearchStats :=
  {| stat_nodesEvaluated := stat_nodesEvaluated s;
     stat_pruneCount := toDouble (stat_pruneCount s + 1);
     stat_maxDepthReached := stat_maxDepthReached s |}.

(** [minimax]; the state threaded through the calls is the statistics
    and the environment's counters.  The two loops of the source (one
    for each player) are one loop here, [maximizingPlayer] choosing
    between [Math.max] on [alpha] and [Math.min] on [beta]. *)
Fixpoint minimax (fuel : nat) (env : Env) (cfg : RequiredAIConfig)
  (game : Game.t) (depth : Z) (alpha beta : Score) (maximizingPlayer : bool)
  (startTime : Z) (s : SearchStats) (w : World)
  : Outcome (Score * SearchStats * World) :=
  match fuel with
  | O => OutOfFuel
  | S fuel' =>
      let s := visit cfg depth s in
      let status := Game.getStatus game in
      if bool_decide (status = checkmate_status) then
        Returns
          (Finite (inject_Z
                     (if maximizingPlayer
                      then -10000 + (cfg_maxDepth cfg - depth)
                      else 10000 - (cfg_maxDepth cfg - depth))), s, w)
      else if bool_decide (status = stalemate) || bool_decide (status = draw) then
        Returns (Finite 0, s, w)
      else
        let '(timeUp, w) :=
          if depth =? 0 then (true, w)
          else
            let '(t, w') := dateNow env w in
            (cfg_maxThinkingTime cfg <? t - startTime, w') in
        if timeUp then
          Returns (Finite (evaluateBoard (Game.getBoard game) white), s, w)
        else
          let legalMoves := Game.getLegalMoves game in
          match legalMoves with
          | [] => Returns (Finite 0, s, w)
          | _ =>
              (fix loop (moves : list Move) (best alpha beta : Score)
                   (s : SearchStats) (w : World) {struct moves}
                 : Outcome (Score * SearchStats * World) :=
                 match moves with
                 | [] => Returns (best, s, w)
                 | move :: rest =>
                     match cloneGame game with
                     | Throw msg => Throws msg
                     | Ok gameCopy0 =>
                         let gameCopy := (Game.move gameCopy0 (toOptions move)).2 in
                         match minimax fuel' env cfg gameCopy (depth - 1) alpha beta
                                 (negb maximizingPlayer) startTime s w with
                         | Returns (evaluation, s, w) =>
                             let best :=
                               if maximizingPlayer then Score_max best evaluation
                               else Score_min best evaluation in
                             let alpha :=
                               if maximizingPlayer then Score_max alpha evaluation
                               else alpha in
                             let beta :=
                               if maximizingPlayer then beta
                               else Score_min beta evaluation in
                             if Score_leb beta alpha then Returns (best, pruned s, w)
                             else
                               let '(t, w) := dateNow env w in
                               if cfg_maxThinkingTime cfg <? t - startTime
                               then Returns (best, s, w)
                               else loop rest best alpha beta s w
                         | Throws msg => Throws msg
                         | OutOfFuel => OutOfFuel
                         end
                     end
                 end)
                legalMoves
                (if maximizingPlayer then NegInfinity else PosInfinity)
                alpha beta s w
          end
  end.

(** The loop of [analyze] over the legal moves of the root. *)
Fixpoint evaluateRoot (fuel : nat) (env : Env) (cfg : RequiredAIConfig)
  (game : Game.t) (maximizingPlayer : bool) (startTime : Z)
  (moves : list Move) (evaluations : list MoveEvaluation)
  (s : SearchStats) (w : World)
  : Outcome (list MoveEvaluation * SearchStats * World) :=
  match moves with
  | [] => Returns (evaluations, s, w)
  | move :: rest =>
      match cloneGame game with
      | Throw msg => Throws msg
      | Ok gameCopy0 =>
          let gameCopy := (Game.move gameCopy0 (toOptions move)).2 in
          match minimax fuel env cfg gameCopy (cfg_maxDepth cfg - 1)
                  NegInfinity PosInfinity (negb maximizingPlayer) startTime s w with
          | Returns (score0, s, w) =>
              let evaluations :=
                evaluations ++
                  [{| me_move := move; me_score := score0;
                      me_depth := cfg_maxDepth cfg;
                      me_nodesEvaluated := Some (stat_nodesEvaluated s) |}] in
              let '(t, w) := dateNow env w in
              if cfg_maxThinkingTime cfg <? t - startTime
              then Returns (evaluations, s, w)
              else evaluateRoot fuel env cfg game maximizingPlayer startTime
                     rest evaluations s w
          | Throws msg => Throws msg
          | OutOfFuel => OutOfFuel
          end
      end
  end.

(** The comparator of the final sort: higher scores first for white,
    lower scores first for black. *)
Definition better (maximizingPlayer : bool) (a b : MoveEvaluation) : bool :=
  if maximizingPlayer then Score_ltb (me_score b) (me_score a)
  else Score_ltb (me_score a) (me_score b).

Definition zeroStats : SearchStats :=
  {| stat_nodesEvaluated := 0; stat_pruneCount := 0; stat_maxDepthReached := 0 |}.

(** The opening-book probe at the head of [analyze]. *)
Definition probeBook (env : Env) (this : t) (game : Game.t) (startTime : Z)
  (w : World) : Result (option AIAnalysis) * World :=
  match openingBook this with
  | None => (Ok None, w)
  | Some book =>
      match OpeningBook.getMove env book game w with
      | (Throw msg, w) => (Throw msg, w)
      | (Ok None, w) => (Ok None, w)
      | (Ok (Some bookMove), w) =>
          let legalMoves := Game.getLegalMoves game in
          match List.find (λ m, bool_decide (san m = Some (om_move bookMove)))
                  legalMoves with
          | Some matchingMove =>
              let '(t, w) := dateNow env w in
              (Ok (Some {| bestMove := matchingMove; score := Finite 0;
                           thinkingTime := t - startTime; depth := 0;
                           nodesEvaluated := 1;
                           openingName := om_name bookMove;
                           eco := om_eco bookMove; topMoves := None |}), w)
          | None => (Ok None, w)
          end
      end
  end.

Definition analyze (fuel : nat) (env : Env) (this : t) (game : Game.t)
  (w : World) : Outcome AIAnalysis * t * World :=
  let '(startTime, w) := dateNow env w in
  match probeBook env this game startTime w with
  | (Throw msg, w) => (Throws msg, this, w)
  | (Ok (Some analysis), w) => (Returns analysis, this, w)
  | (Ok None, w) =>
      let this := withStats this zeroStats in
      let legalMoves := Game.getLegalMoves game in
      match legalMoves with
      | [] => (Throws "No legal moves available", this, w)
      | [onlyMove] =>
          let '(t, w) := dateNow env w in
          (Returns {| bestMove := onlyMove; score := Finite 0;
                      thinkingTime := t - startTime; depth := 0;
                      nodesEvaluated := 1; openingName := None;
                      eco := None; topMoves := None |}, this, w)
      | _ =>
          let maximizingPlayer := bool_decide (Game.getTurn game = white) in
          match evaluateRoot fuel env (config this) game maximizingPlayer
                  startTime legalMoves [] (stats this) w with
          | Throws msg => (Throws msg, this, w)
          | OutOfFuel => (OutOfFuel, this, w)
          | Returns (evaluations, s, w) =>
              let this := withStats this s in
              let evaluations := stableSort (better maximizingPlayer) evaluations in
              let '(chosen, w) :=
                if Qle_bool (cfg_randomness (config this)) 0 then (0%nat, w)
                else
                  let '(r, w) := mathRandom env w in
                  if Qle_bool (cfg_randomness (config this)) r then (0%nat, w)
                  else
                    let topCount := Z.min 3 (Z.of_nat (length evaluations)) in
                    let '(r', w) := mathRandom env w in
                    (Z.to_nat (Qfloor (r' * inject_Z topCount)), w) in
              match evaluations !! chosen, evaluations !! 0%nat with
              | Some pick, Some first =>
                  let '(t, w) := dateNow env w in
                  (Returns {| bestMove := me_move pick; score := me_score first;
                              thinkingTime := t - startTime;
                              depth := stat_maxDepthReached s;
                              nodesEvaluated := stat_nodesEvaluated s;
                              openingName := None; eco := None;
                              topMoves := Some (take 5 evaluations) |}, this, w)
              | _, _ =>
                  (Throws "Cannot read properties of undefined (reading 'move')",
                   this, w)
              end
          end
      end
  end.

Definition getBestMove (fuel : nat) (env : Env) (this : t) (game : Game.t)
  (w : World) : Outcome Move * t * World :=
  match analyze fuel env this game w with
  | (Returns analysis, this, w) => (Returns (bestMove analysis), this, w)
  | (Throws msg, this, w) => (Throws msg, this, w)
  | (OutOfFuel, this, w) => (OutOfFuel, this, w)
  end.

End MinimaxAI.

(** [array[index]] for a JS number that is an integer: [undefined] outside
    the array. *)
Definition elementAt {A} (l : list A) (index : Z) : option A :=
  if index <? 0 then None else l !! Z.to_nat index.

(** ** The random engine ([ai/random.ts]) *)

Record RandomAnalysis := {
  ra_bestMove : option Move;
  ra_score : Z;
  ra_thinkingTime : Z;
  ra_depth : Z;
  ra_nodesEvaluated : Z }.

Module RandomAI.

Record t := { config : RequiredAIConfig }.

Definition new (config : option AIConfig) : t := {| config := mergeConfig config |}.

(** The pause that [getBestMove] adds changes no value; the two readings
    of the clock are kept. *)
Definition getBestMove (env : Env) (this : t) (game : Game.t) (w : World)
  : Result (option Move) * World :=
  let '(startTime, w) := dateNow env w in
  let legalMoves := Game.getLegalMoves game in
  match legalMoves with
  | [] => (Throw "No legal moves available", w)
  | _ =>
      let '(r, w) := mathRandom env w in
      let randomIndex := Qfloor (r * inject_Z (Z.of_nat (length legalMoves))) in
      let move := elementAt legalMoves randomIndex in
      let '(t, w) := dateNow env w in
      (Ok move, w)
  end.

Definition analyze (env : Env) (this : t) (game : Game.t) (w : World)
  : Result RandomAnalysis * World :=
  let '(startTime, w) := dateNow env w in
  let legalMoves := Game.getLegalMoves game in
  match legalMoves with
  | [] => (Throw "No legal moves available", w)
  | _ =>
      let '(r, w) := mathRandom env w in
      let randomIndex := Qfloor (r * inject_Z (Z.of_nat (length legalMoves))) in
      let bestMove := elementAt legalMoves randomIndex in
      let '(t, w) := dateNow env w in
      (Ok {| ra_bestMove := bestMove; ra_score := 0;
             ra_thinkingTime := t - startTime; ra_depth := 0;
             ra_nodesEvaluated := Z.of_nat (length legalMoves) |}, w)
  end.

Definition evaluateMove (env : Env) (this : t) (game : Game.t) (move : Move)
  (w : World) : MoveEvaluation * World :=
  let '(r, w) := mathRandom env w in
  ({| me_move := move; me_score := Finite (r * 200 - 100)%Q; me_depth := 0;
      me_nodesEvaluated := Some 1 |}, w).

End RandomAI.

(** Regular expressions: the patterns of the PGN reader are built from
    character classes, sequences and options, and are anchored at both
    ends. *)
Inductive Regex :=
| Class (P : ascii → bool)
| Seq (a b : Regex)
| Opt (a : Regex).

(** [accept r s k]: a prefix of [s] matches [r], and [k] accepts the rest. *)
Fixpoint accept (r : Regex) (s : string) (k : string → bool) : bool :=
  match r with
  | Class P =>
      match s with
      | String c s' => P c && k s'
      | EmptyString => false
      end
  | Seq a b => accept a s (λ s', accept b s' k)
  | Opt a => accept a s k || k s
  end.

(** [/^r$/.test(s)] *)
Definition test (r : Regex) (s : string) : bool :=
  accept r s (String.eqb EmptyString).

(** The class [[cs]] of the listed characters, and the class [[lo-hi]]. *)
Definition oneOf (cs : string) (c : ascii) : bool :=
  existsb (Ascii.eqb c) (list_ascii_of_string cs).

Definition between (lo hi c : ascii) : bool :=
  (charCode lo <=? charCode c) && (charCode c <=? charCode hi).

(** ** PGN ([engine/pgn.ts]) *)

Module PgnParser.

(** The loop of [removeVariations], from a nesting depth and the text kept
    so far. *)
Fixpoint removeVariationsFrom (text : string) (depth : Z) (cleaned : string)
  : string :=
  match text with
  | EmptyString => cleaned
  | String char rest =>
      if Ascii.eqb char "(" then removeVariationsFrom rest (depth + 1) cleaned
      else if Ascii.eqb char ")" then removeVariationsFrom rest (depth - 1) cleaned
      else if depth =? 0 then removeVariationsFrom rest depth (cleaned +++ str char)
      else removeVariationsFrom rest depth cleaned
  end.

Definition removeVariations (text : string) : string :=
  removeVariationsFrom text 0 EmptyString.

(** [token.replace(/[+#]$/, '')] *)
Fixpoint dropCheckMark (token : string) : string :=
  match token with
  | EmptyString => EmptyString
  | String c EmptyString => if oneOf "+#" c then EmptyString else token
  | String c rest => String c (dropCheckMark rest)
  end.

(** [/^O-O(-O)?$/] *)
Definition castlingPattern : Regex :=
  Seq (Class (Ascii.eqb "O"))
 (Seq (Class (Ascii.eqb "-"))
 (Seq (Class (Ascii.eqb "O"))
      (Opt (Seq (Class (Ascii.eqb "-")) (Class (Ascii.eqb "O")))))).

(** [/^[NBRQK]?[a-h]?[1-8]?x?[a-h][1-8](=[NBRQ])?$/] *)
Definition movePattern : Regex :=
  Seq (Opt (Class (oneOf "NBRQK")))
 (Seq (Opt (Class (between "a" "h")))
 (Seq (Opt (Class (between "1" "8")))
 (Seq (Opt (Class (Ascii.eqb "x")))
 (Seq (Class (between "a" "h"))
 (Seq (Class (between "1" "8"))
      (Opt (Seq (Class (Ascii.eqb "=")) (Class (oneOf "NBRQ"))))))))).

Definition isValidSanMove (token : string) : bool :=
  let move := dropCheckMark token in
  if test castlingPattern move then true
  else if test movePattern move then true
  else false.

Definition getResultString (game : Game.t) : string :=
  let status := Game.getStatus game in
  if bool_decide (status = checkmate_status) then
    if bool_decide (Game.getTurn game = white) then "0-1" else "1-0"
  else if bool_decide (status = stalemate) || bool_decide (status = draw)
          || bool_decide (status = insufficient_material)
          || bool_decide (status = threefold_repetition)
          || bool_decide (status = fifty_move_rule)
  then "1/2-1/2"
  else "*".

End PgnParser.

(** ** Runs, requests and the vocabulary of the specification *)

Definition request (from to : Square) : MoveOptions :=
  {| mo_from := from; mo_to := to; mo_promotion := None |}.

(** [playAll g requests]: every request is passed to [Game.move] in turn;
    [None] as soon as one of them is refused. *)
Fixpoint playAll (g : Game.t) (requests : list MoveOptions) : option Game.t :=
  match requests with
  | [] => Some g
  | o :: rest =>
      match Game.move g o with
      | (Some _, g') => playAll g' rest
      | (None, _) => None
      end
  end.

Fixpoint undoTimes (n : nat) (g : Game.t) : Game.t :=
  match n with
  | O => g
  | S k => undoTimes k (Game.undo g).2
  end.

(** A new game on which [loadFen] has been called. *)
Definition loaded (fen : string) : Game.t := (Game.loadFen (Game.new None) fen).2.

Definition isTerminal (s : GameStatus) : bool :=
  bool_decide (s = checkmate_status) || bool_decide (s = stalemate)
  || bool_decide (s = fifty_move_rule) || bool_decide (s = threefold_repetition)
  || bool_decide (s = insufficient_material).

Definition isDrawStatus (s : GameStatus) : bool :=
  bool_decide (s = stalemate) || bool_decide (s = fifty_move_rule)
  || bool_decide (s = threefold_repetition)
  || bool_decide (s = insufficient_material).

(** The six reasons a request is rejected with. *)
Definition stableReasons : list string :=
  ["Invalid square"; "No piece at starting square"; "Not your piece";
   "Cannot move to the same square"; "Illegal move"; "Pawn promotion required"].

(** The knight manoeuvre Ng1-f3, Ng8-f6, Nf3-g1, Nf6-g8. *)
Definition knightCycle : list MoveOptions :=
  [request "g1" "f3"; request "g8" "f6"; request "f3" "g1"; request "f6" "g8"].

Definition afterPlies (n : nat) : option Game.t :=
  playAll (Game.new None) (take n (knightCycle ++ knightCycle)).

Definition startKey : string := Game.getPositionKey (Game.new None).

(** Endgame as the specification words it: no queens remain on either
    side, or every side that holds a queen has at most one other rook or
    minor piece. *)
Definition endgameAsSpecified (b : Board) : bool :=
  let '(whiteQueens, whiteMinor, whiteRooks) := tally (Board.findPieces b white) in
  let '(blackQueens, blackMinor, blackRooks) := tally (Board.findPieces b black) in
  ((whiteQueens =? 0) && (blackQueens =? 0))
  || (((whiteQueens =? 0) || (whiteMinor + whiteRooks <=? 1))
      && ((blackQueens =? 0) || (blackMinor + blackRooks <=? 1))).

(** Structural well-formedness of a FEN text, in the terms of the
    format: six fields with white space between them, eight ranks, and
    every rank made of piece letters and empty-square counts 1-8 that add
    up to eight squares.  A piece letter is one of p, n, b, r, q, k in
    either case; the Kelvin sign is a capital of k and counts as one. *)
Definition isPieceLetter (c : ascii) : bool :=
  existsb (Ascii.eqb (toLowerCase c)) (list_ascii_of_string "pnbrqk").

Definition emptyCount (c : ascii) : option Z :=
  if existsb (Ascii.eqb c) (list_ascii_of_string "12345678")
  then Some (charCode c - 48) else None.

Fixpoint rankWidth (rank : string) : option Z :=
  match rank with
  | EmptyString => Some 0
  | String c rest =>
      w ← rankWidth rest;
      if isPieceLetter c then Some (1 + w)
      else n ← emptyCount c; Some (n + w)
  end.

Definition rankWellFormed (rank : string) : bool :=
  bool_decide (rankWidth rank = Some 8).

Definition structurallyMalformed (fen : string) : Prop :=
  match splitBlanks (trim fen) false with
  | [placement; _; _; _; _; _] =>
      let ranks := splitOn "/" placement in
      length ranks ≠ 8%nat ∨ ∃ rank, rank ∈ ranks ∧ rankWellFormed rank = false
  | _ => True
  end.

(** The whole observable state of a search after the single-move exit. *)
Definition searchNodes (this : MinimaxAI.t) : Z :=
  stat_nodesEvaluated (MinimaxAI.stats this).

(** What one character adds to [fileIndex] in [parseRank], or [None] when
    the character makes it throw. *)
Definition fileStep (c : ascii) : option Z :=
  match digitVal c with
  | Some n => if (n <? 1) || (8 <? n) then None else Some n
  | None => match FenParser.charToPiece c with Some _ => Some 1 | None => None end
  end.

(** A request names a move of the legal set. *)
Definition legalRequest (g : Game.t) (o : MoveOptions) : Prop :=
  ∃ m, m ∈ Game.getLegalMovesFrom g (mo_from o)
       ∧ from m = mo_from o ∧ to m = mo_to o
       ∧ ∀ p, mo_promotion o = Some p → promotion m = Some p.

(** The six ways a request can be invalid. *)
Inductive InvalidRequest (g : Game.t) (o : MoveOptions) : Prop :=
| invalid_square :
    Board.squareToCoords (mo_from o) = None ∨ Board.squareToCoords (mo_to o) = None →
    InvalidRequest g o
| empty_origin :
    Board.getPiece (Game.board g) (mo_from o) = None → InvalidRequest g o
| wrong_side p :
    Board.getPiece (Game.board g) (mo_from o) = Some p →
    color p ≠ Game.currentTurn g → InvalidRequest g o
| null_move : mo_from o = mo_to o → InvalidRequest g o
| illegal_move : ¬ legalRequest g o → InvalidRequest g o
| promotion_required p toCoords :
    Board.getPiece (Game.board g) (mo_from o) = Some p →
    type p = pawn →
    Board.squareToCoords (mo_to o) = Some toCoords →
    MoveGenerator.isPawnPromotionRank (row toCoords) (Game.currentTurn g) = true →
    mo_promotion o = None →
    InvalidRequest g o.

(** Coordinates of a valid square as array indices. *)
Definition indices (co : Coordinates) : nat * nat :=
  (Z.to_nat (row co), Z.to_nat (col co)).


(** The three kinds of moves [generateLegalMovesFrom] produces. *)
Inductive LegalKind (this : MoveGenerator.t) (sq : string) (c : Color)
  (p : Piece) (fc : Coordinates) (m : Move) : Prop :=
| kind_ordinary tc target :
    tc ∈ getPseudoLegalMoves (MoveGenerator.board this) fc (type p) c →
    Board.coordsToSquare (row tc) (col tc) = Some target →
    MoveGenerator.isMoveLegal this sq target c = true →
    (m = plainMove sq target p (Board.getPiece (MoveGenerator.board this) target)
     ∧ (bool_decide (type p = pawn)
        && MoveGenerator.isPawnPromotionRank (row tc) c = false)
     ∨ ((bool_decide (type p = pawn)
         && MoveGenerator.isPawnPromotionRank (row tc) c = true)
        ∧ ∃ pp, pp ∈ MoveGenerator.promotionPieces
                ∧ m = withPromotion
                        (plainMove sq target p
                           (Board.getPiece (MoveGenerator.board this) target)) pp)) →
    LegalKind this sq c p fc m
| kind_enPassant :
    type p = pawn →
    MoveGenerator.getEnPassantMove this sq c = Some m →
    LegalKind this sq c p fc m
| kind_castling side :
    type p = king →
    m = MoveGenerator.castlingMove c side →
    match side with
    | kingside => MoveGenerator.canCastleKingside this c
    | queenside => MoveGenerator.canCastleQueenside this c
    end = true →
    LegalKind this sq c p fc m.


(** Two cells look alike to the king of colour [c] when they are equal or
    hold two pieces of that colour, none of them a king. *)
Definition alike (c : Color) (o1 o2 : option Piece) : Prop :=
  o1 = o2
  ∨ ∃ p1 p2, o1 = Some p1 ∧ o2 = Some p2 ∧ color p1 = c ∧ color p2 = c
             ∧ type p1 ≠ king ∧ type p2 ≠ king.

Definition boardsAlike (c : Color) (b1 b2 : Board) : Prop :=
  ∀ r k, (r < 8)%nat → (k < 8)%nat → alike c (Board.cell b1 r k) (Board.cell b2 r k).


(** The line 1.d4 a5 2.d5 a4 3.Kd2 Ra5 4.Ke3 h6 5.Kf4 h5 6.Kf5 e5, after
    which White may capture en passant on e6. *)
Definition enPassantLine : list MoveOptions :=
  [request "d2" "d4"; request "a7" "a5"; request "d4" "d5"; request "a5" "a4";
   request "e1" "d2"; request "a8" "a5"; request "d2" "e3"; request "h7" "h6";
   request "e3" "f4"; request "h6" "h5"; request "f4" "f5"; request "e7" "e5"].

Definition afterEnPassantLine : option Game.t :=
  playAll (Game.new None) enPassantLine.


Definition enPassantCapture : Move :=
  {| from := "d5"; to := "e6"; piece := {| type := pawn; color := white |};
     captured := Some {| type := pawn; color := black |};
     promotion := None; castling := None; enPassant := true;
     san := None; check := false; checkmate := false |}.

(** A target is acceptable for colour [c]: on the board, and not on a
    piece of that colour. *)
Definition freeFor (b : list (list (option Piece))) (c : Color) (tc : Coordinates) : Prop :=
  Board.isValidCoords (row tc) (col tc) = true
  ∧ ∀ p, Board.getPieceAt b (row tc) (col tc) = Some p → color p ≠ c.

(** The target of a move lies on the last rank of the mover. *)
Definition reachesLastRank (m : Move) : bool :=
  match Board.squareToCoords (to m) with
  | Some tc => MoveGenerator.isPawnPromotionRank (row tc) (color (piece m))
  | None => false
  end.

(** Every character of a text passes a test. *)
Fixpoint allChars (P : ascii → bool) (s : string) : bool :=
  match s with
  | EmptyString => true
  | String c s' => P c && allChars P s'
  end.

Definition isDigit (c : ascii) : bool := (48 <=? charCode c) && (charCode c <=? 57).

(** A field of a FEN text: not empty, and free of blanks. *)
Definition isField (s : string) : bool :=
  negb (String.eqb s EmptyString) && allChars (λ c, negb (isSpace c)) s.

(** The en-passant field of a position: absent, or a square of the third
    or sixth rank. *)
Definition validEnPassant (ep : option string) : bool :=
  match ep with
  | None => true
  | Some s => FenParser.isEnPassantLabel s
  end.

(** The characters of a piece-placement field. *)
Definition isPlacementChar (c : ascii) : bool :=
  isDigit c || isPieceLetter c || Ascii.eqb c "/".

(** The text that [FenParser.generate] writes for a parsed position. *)
Definition regenerate (d : FenData) : string :=
  FenParser.generate (fen_board d) (fen_turn d) (fen_castlingRights d)
    (fen_enPassantSquare d) (fen_halfMoveClock d) (fen_fullMoveNumber d).

(** Every right of [r1] is a right of [r2]. *)
Definition rightsWithin (r1 r2 : CastlingRights) : bool :=
  implb (whiteKingside r1) (whiteKingside r2)
  && implb (whiteQueenside r1) (whiteQueenside r2)
  && implb (blackKingside r1) (blackKingside r2)
  && implb (blackQueenside r1) (blackQueenside r2).

(** The games that the public operations of [Game] can produce. *)
Inductive reachable : Game.t → Prop :=
| reach_new config : reachable (Game.new config)
| reach_move g o : reachable g → reachable (Game.move g o).2
| reach_undo g : reachable g → reachable (Game.undo g).2
| reach_loadFen g fen : reachable g → reachable (Game.loadFen g fen).2
| reach_reset g : reachable g → reachable (Game.reset g).

(** The counters of a game stay at or below [Number.MAX_SAFE_INTEGER] for
    [n] more moves. *)
Definition countersBelow (g : Game.t) (n : Z) : Prop :=
  Game.halfMoveClock g + n ≤ MAX_SAFE_INTEGER
  ∧ Game.fullMoveNumber g + n ≤ MAX_SAFE_INTEGER.

(** What every such game satisfies. *)
Definition sound (g : Game.t) : Prop :=
  Board.wf (Game.board g)
  ∧ validEnPassant (Game.enPassantSquare g) = true
  ∧ 0 ≤ Game.halfMoveClock g
  ∧ 1 ≤ Game.fullMoveNumber g
  ∧ Game.gameStatus g ≠ draw.

(** The square of the pawn that an en-passant capture removes. *)
Definition capturedPawnSquare (m : Move) : string :=
  charAt (to m) 0 +++ Game.capturedPawnRank (color (piece m)).

(** The capture d5xe6 as [move] records it there. *)
Definition enPassantPlayed : Move :=
  {| from := "d5"; to := "e6"; piece := {| type := pawn; color := white |};
     captured := None; promotion := None; castling := None; enPassant := true;
     san := Some "dxe6"%string; check := false; checkmate := false |}.

(** [Math.random()] answers in the interval from 0 (included) to 1
    (excluded). *)
Definition fairEnv (env : Env) : Prop :=
  ∀ k, (0 <= random env k)%Q ∧ (random env k < 1)%Q.

(** The texts that match a pattern. *)
Fixpoint inLang (r : Regex) (s : string) : Prop :=
  match r with
  | Class P => ∃ c, s = str c ∧ P c = true
  | Seq a b => ∃ s1 s2, s = s1 +++ s2 ∧ inLang a s1 ∧ inLang b s2
  | Opt a => s = EmptyString ∨ inLang a s
  end.

Fixpoint lastChar (s : string) : option ascii :=
  match s with
  | EmptyString => None
  | String c EmptyString => Some c
  | String _ s' => lastChar s'
  end.

(** Neither an opening nor a closing parenthesis. *)
Definition notParenthesis (c : ascii) : bool :=
  negb (Ascii.eqb c "(") && negb (Ascii.eqb c ")").

(** The text that [generateSan] appends for a promotion. *)
Definition promotionMark (promotion : option PieceType) : string :=
  match promotion with
  | Some p => "=" +++ Game.upperInitial (typeName p)
  | None => EmptyString
  end.

(** Fixed inputs used by the examples below. *)
Definition anyEnv : Env := {| now := λ _, 0; random := λ _, 0%Q |}.
Definition startWorld : World := {| timeReads := 0; randomDraws := 0 |}.

(** King and bishop against king, Black to move. *)
Definition bishopEnding : Game.t := loaded "4k3/8/8/8/8/8/8/4KB2 b - - 0 1".

(** King and queen against king. *)
Definition queenEnding : Game.t := loaded "4k3/8/8/8/8/8/8/4KQ2 b - - 0 1".

(** King a1 against king b3 and queen c2, White to move: stalemate. *)
Definition stalemated : Game.t := loaded "8/8/8/8/8/1k6/2q5/K7 w - - 0 1".

(** King h8 against king h6, White to move: only Kg8 is legal. *)
Definition cornered : Game.t := loaded "7K/8/7k/8/8/8/8/8 w - - 0 1".

(** Two bare kings, White to move. *)
Definition bareKings : Game.t := loaded "4k3/8/8/8/8/8/8/4K3 w - - 0 1".

(** White pawn d5, black pawn e5, and e6 as the en-passant square. *)
Definition enPassantReady : Game.t := loaded "4k3/8/8/3Pp3/8/8/8/4K3 w - e6 0 1".

(** A white pawn on a7 that is free to promote. *)
Definition promotionReady : Game.t := loaded "4k3/P7/8/8/8/8/8/4K3 w - - 0 1".

(** Black to move and mate with the queen from d8 to h4. *)
Definition mateReady : Game.t :=
  loaded "rnbqkbnr/pppp1ppp/8/4p3/6P1/5P2/PPPPP2P/RNBQKBNR b KQkq g3 0 2".

(** * Properties *)

(** ** Squares and coordinates *)

Lemma parseInt_rank_char (rk : ascii) (n : Z) :
  parseInt (String rk EmptyString) = Some n → 1 ≤ n ≤ 8 →
  toString n = String rk EmptyString.
Proof.
  intros Hn Hr.
  destruct rk as [[] [] [] [] [] [] [] []]; vm_compute in Hn;
    try discriminate Hn; injection Hn as <-; try reflexivity; lia.
Qed.

Lemma fromCharCode_charCode (f : ascii) (k : Z) :
  k = charCode f - 97 → 0 ≤ k ≤ 7 → fromCharCode (97 + k) = Some f.
Proof.
  intros -> Hk.
  destruct f as [[] [] [] [] [] [] [] []]; vm_compute in Hk;
    try (exfalso; destruct Hk as [H1 H2]; (by apply H1) || (by apply H2));
    reflexivity.
Qed.

Lemma squareToCoords_Some (sq : string) (co : Coordinates) :
  Board.squareToCoords sq = Some co →
  (0 ≤ row co ≤ 7) ∧ (0 ≤ col co ≤ 7)
  ∧ Board.coordsToSquare (row co) (col co) = Some sq.
Proof.
  unfold Board.squareToCoords.
  destruct sq as [|f [|rk [|? ?]]]; try done.
  destruct (parseInt (String rk EmptyString)) as [n|] eqn:Hn; [|done].
  destruct (_ || _) eqn:Hrange; [done|]. intros [= <-]. cbn [row col].
  apply orb_false_iff in Hrange as [Hrange H4].
  apply orb_false_iff in Hrange as [Hrange H3].
  apply orb_false_iff in Hrange as [H1 H2].
  apply Z.ltb_ge in H1, H2, H3, H4.
  change (charCode "a") with 97 in *.
  repeat split; try lia.
  unfold Board.coordsToSquare.
  replace ((n - 1 <? 0) || (7 <? n - 1) || (charCode f - 97 <? 0)
           || (7 <? charCode f - 97)) with false by (symmetry; lia).
  change (charCode "a") with 97.
  rewrite (fromCharCode_charCode f) by (reflexivity || lia). cbn [mbind option_bind].
  replace (n - 1 + 1) with n by lia.
  rewrite (parseInt_rank_char rk n); [done..|lia].
Qed.

Lemma small_cases (n : Z) :
  0 ≤ n ≤ 7 → n = 0 ∨ n = 1 ∨ n = 2 ∨ n = 3 ∨ n = 4 ∨ n = 5 ∨ n = 6 ∨ n = 7.
Proof. lia. Qed.

Lemma coordsToSquare_Some (r c : Z) (sq : string) :
  Board.coordsToSquare r c = Some sq →
  (0 ≤ r ≤ 7) ∧ (0 ≤ c ≤ 7)
  ∧ Board.squareToCoords sq = Some {| row := r; col := c |}.
Proof.
  unfold Board.coordsToSquare. destruct (_ || _) eqn:Hrange; [done|].
  assert (0 ≤ r ≤ 7 ∧ 0 ≤ c ≤ 7) as [Hr Hc] by lia.
  intros Hsq. split; [done|]. split; [done|].
  apply small_cases in Hr, Hc.
  destruct Hr as [->|[->|[->|[->|[->|[->|[->| ->]]]]]]];
    destruct Hc as [->|[->|[->|[->|[->|[->|[->| ->]]]]]]];
    vm_compute in Hsq; injection Hsq as <-; reflexivity.
Qed.

Lemma squareToCoords_inj (s1 s2 : string) (co : Coordinates) :
  Board.squareToCoords s1 = Some co → Board.squareToCoords s2 = Some co → s1 = s2.
Proof.
  intros (_ & _ & H1)%squareToCoords_Some (_ & _ & H2)%squareToCoords_Some.
  congruence.
Qed.

(** ** Cells of a well-formed board *)

Lemma wf_lookup (b : list (list (option Piece))) (r : nat) :
  Board.wf b → (r < 8)%nat → ∃ line, b !! r = Some line ∧ length line = 8%nat.
Proof.
  intros [Hlen Hall] Hr.
  destruct (lookup_lt_is_Some_2 b r) as [line Hline]; [lia|].
  exists line. split; [done|].
  by eapply (Forall_lookup_1 _ _ _ _ Hall).
Qed.

Lemma wf_put (b : list (list (option Piece))) r c p :
  Board.wf b → Board.wf (Board.put b r c p).
Proof.
  intros [Hlen Hall]. unfold Board.put, Board.wf.
  rewrite length_alter. split; [done|].
  apply Forall_alter; [done|]. intros line Hline Hl.
  rewrite length_insert. done.
Qed.

Lemma cell_put (b : list (list (option Piece))) r c p r' c' :
  Board.wf b → (r < 8)%nat → (c < 8)%nat →
  Board.cell (Board.put b r c p) r' c'
  = if decide (r' = r ∧ c' = c) then p else Board.cell b r' c'.
Proof.
  intros Hwf Hr Hc. unfold Board.cell, Board.put.
  destruct (wf_lookup b r Hwf Hr) as (line & Hline & Hlen).
  destruct (decide (r' = r)) as [->|Hne].
  - rewrite list_lookup_alter_eq, Hline. cbn.
    destruct (decide (c' = c)) as [->|Hnec].
    + rewrite list_lookup_insert_eq by lia.
      rewrite decide_True by done. by destruct p.
    + rewrite list_lookup_insert_ne by done.
      rewrite decide_False by (intros [? ?]; done). done.
  - rewrite list_lookup_alter_ne by done.
    rewrite decide_False by (intros [? ?]; done). done.
Qed.

Lemma board_ext (b1 b2 : list (list (option Piece))) :
  Board.wf b1 → Board.wf b2 →
  (∀ r c, (r < 8)%nat → (c < 8)%nat → Board.cell b1 r c = Board.cell b2 r c) →
  b1 = b2.
Proof.
  intros Hwf1 Hwf2 Hcells. apply list_eq. intros r.
  destruct (decide (r < 8)%nat) as [Hr|Hr].
  - destruct (wf_lookup b1 r Hwf1 Hr) as (l1 & Hl1 & Hlen1).
    destruct (wf_lookup b2 r Hwf2 Hr) as (l2 & Hl2 & Hlen2).
    rewrite Hl1, Hl2. f_equal. apply list_eq. intros c.
    destruct (decide (c < 8)%nat) as [Hc|Hc].
    + specialize (Hcells r c Hr Hc). unfold Board.cell in Hcells.
      rewrite Hl1, Hl2 in Hcells.
      destruct (lookup_lt_is_Some_2 l1 c) as [o1 Ho1]; [lia|].
      destruct (lookup_lt_is_Some_2 l2 c) as [o2 Ho2]; [lia|].
      rewrite Ho1, Ho2 in *. destruct o1, o2; congruence.
    + rewrite !lookup_ge_None_2 by lia. done.
  - destruct Hwf1 as [Hlen1 _], Hwf2 as [Hlen2 _].
    rewrite !lookup_ge_None_2 by lia. done.
Qed.

Lemma wf_createEmptyBoard : Board.wf Board.createEmptyBoard.
Proof. split; [done|]. repeat constructor. Qed.

Lemma wf_setupStartingPosition : Board.wf Board.setupStartingPosition.
Proof. split; [done|]. repeat constructor. Qed.

Lemma indices_lt (sq : string) (co : Coordinates) :
  Board.squareToCoords sq = Some co →
  ((indices co).1 < 8)%nat ∧ ((indices co).2 < 8)%nat.
Proof. intros (? & ? & _)%squareToCoords_Some. unfold indices. cbn. lia. Qed.

Lemma indices_inj (s1 s2 : string) (c1 c2 : Coordinates) :
  Board.squareToCoords s1 = Some c1 → Board.squareToCoords s2 = Some c2 →
  indices c1 = indices c2 → s1 = s2.
Proof.
  intros H1 H2 Heq.
  pose proof (squareToCoords_Some _ _ H1) as (? & ? & _).
  pose proof (squareToCoords_Some _ _ H2) as (? & ? & _).
  unfold indices in Heq. injection Heq as Hr Hc.
  assert (c1 = c2) as ->.
  { destruct c1, c2. cbn in *. f_equal; lia. }
  by eapply squareToCoords_inj.
Qed.

Lemma getPiece_cell b sq co :
  Board.squareToCoords sq = Some co →
  Board.getPiece b sq = Board.cell b (indices co).1 (indices co).2.
Proof. intros H. unfold Board.getPiece. by rewrite H. Qed.

Lemma getPieceAt_cell b sq co :
  Board.squareToCoords sq = Some co →
  Board.getPieceAt b (row co) (col co) = Board.cell b (indices co).1 (indices co).2.
Proof.
  intros (? & ? & _)%squareToCoords_Some. unfold Board.getPieceAt.
  replace (_ || _) with false by (symmetry; lia). done.
Qed.

Lemma setPiece_put b sq co p :
  Board.squareToCoords sq = Some co →
  Board.setPiece b sq p = Board.put b (indices co).1 (indices co).2 p.
Proof. intros H. unfold Board.setPiece. by rewrite H. Qed.

Lemma setPieceAt_put b sq co p :
  Board.squareToCoords sq = Some co →
  Board.setPieceAt b (row co) (col co) p = Board.put b (indices co).1 (indices co).2 p.
Proof.
  intros (? & ? & _)%squareToCoords_Some. unfold Board.setPieceAt.
  replace (_ || _) with false by (symmetry; lia). done.
Qed.

Lemma movePiece_put b f t fc tc :
  Board.squareToCoords f = Some fc → Board.squareToCoords t = Some tc →
  Board.movePiece b f t
  = Board.put (Board.put b (indices tc).1 (indices tc).2
                 (Board.cell b (indices fc).1 (indices fc).2))
      (indices fc).1 (indices fc).2 None.
Proof.
  intros Hf Ht. unfold Board.movePiece. rewrite Hf, Ht.
  rewrite (getPieceAt_cell _ _ _ Hf), (setPieceAt_put _ _ _ _ Ht),
    (setPieceAt_put _ _ _ _ Hf). done.
Qed.

Lemma wf_setPiece b sq p : Board.wf b → Board.wf (Board.setPiece b sq p).
Proof.
  intros Hwf. unfold Board.setPiece. destruct (Board.squareToCoords sq); [|done].
  by apply wf_put.
Qed.

Lemma wf_setPieceAt b r c p : Board.wf b → Board.wf (Board.setPieceAt b r c p).
Proof.
  intros Hwf. unfold Board.setPieceAt. destruct (_ || _); [done|]. by apply wf_put.
Qed.

Lemma wf_movePiece b f t : Board.wf b → Board.wf (Board.movePiece b f t).
Proof.
  intros Hwf. unfold Board.movePiece.
  destruct (Board.squareToCoords f), (Board.squareToCoords t); try done.
  by do 2 apply wf_setPieceAt.
Qed.

(** ** The repetition draw *)

(** C5. From the initial position the knight manoeuvre is played twice:
    the status is [active] after each of the first seven plies and becomes
    [threefold_repetition] after the eighth, which is when the key of the
    starting position is recorded for the third time. *)
Theorem threefold_on_third_occurrence :
  (λ n, Game.gameStatus <$> afterPlies n) <$> seq 0 9
    = Some <$> (replicate 8 active ++ [threefold_repetition])
  ∧ (λ n, g ← afterPlies n; Game.positionHistory g !! startKey) <$> seq 0 9
    = Some <$> [1; 1; 1; 1; 2; 2; 2; 2; 3]%nat
  ∧ (λ n, Game.getPositionKey <$> afterPlies n) <$> [0; 4; 8]%nat
    = [Some startKey; Some startKey; Some startKey].
Proof. vm_compute. repeat split; reflexivity. Qed.

(** ** Draws inside the search *)

Lemma stalemate_node_scores_zero fuel env cfg game depth alpha beta maxi start s w :
  Game.getStatus game = stalemate →
  MinimaxAI.minimax (S fuel) env cfg game depth alpha beta maxi start s w
    = Returns (Finite 0, MinimaxAI.visit cfg depth s, w).
Proof. intros H. cbn [MinimaxAI.minimax]. rewrite H. reflexivity. Qed.

(** C6. A search node whose status is [insufficient_material] is not
    scored zero: at depth 0 the king-and-bishop ending is scored by the
    evaluator (the bishop's material), because [minimax] tests the status
    against [stalemate] and [draw] only. *)
Theorem drawn_node_scored_by_material :
  Game.getStatus bishopEnding = insufficient_material
  ∧ isDrawStatus (Game.getStatus bishopEnding) = true
  ∧ ∃ q s w,
      MinimaxAI.minimax 1 anyEnv (mergeConfig None) bishopEnding 0
        NegInfinity PosInfinity false 0 MinimaxAI.zeroStats startWorld
      = Returns (Finite q, s, w) ∧ ¬ (q == 0)%Q.
Proof.
  split; [vm_compute; reflexivity|]. split; [vm_compute; reflexivity|].
  eexists _, _, _. split; [vm_compute; reflexivity|].
  intros H. vm_compute in H. discriminate.
Qed.

(** ** Phase detection *)

(** C7. With a queen on one side only, [isEndgame] answers [false] even
    when that side has no other piece, although every side that holds a
    queen then has at most one other rook or minor piece. *)
Theorem endgame_missed_with_one_queen :
  isEndgame (Game.board queenEnding) = false
  ∧ endgameAsSpecified (Game.board queenEnding) = true.
Proof. vm_compute. split; reflexivity. Qed.

(** ** The search on positions with at most one legal move *)

Section LegalMoveShape.
Variable this : MoveGenerator.t.

Lemma movesTo_san from p c tc m :
  m ∈ MoveGenerator.movesTo this from p c tc → san m = None.
Proof.
  unfold MoveGenerator.movesTo.
  destruct (Board.coordsToSquare _ _); [|by intros ?%elem_of_nil].
  destruct (MoveGenerator.isMoveLegal _ _ _ _); [|by intros ?%elem_of_nil].
  destruct (_ && _).
  - intros (x & -> & _)%list_elem_of_fmap. reflexivity.
  - intros ->%list_elem_of_singleton. reflexivity.
Qed.

Lemma getEnPassantMove_san from c m :
  MoveGenerator.getEnPassantMove this from c = Some m → san m = None.
Proof.
  unfold MoveGenerator.getEnPassantMove.
  repeat case_match; try discriminate; by intros [= <-].
Qed.

Lemma getCastlingMoves_san c m :
  m ∈ MoveGenerator.getCastlingMoves this c → san m = None.
Proof.
  unfold MoveGenerator.getCastlingMoves.
  intros [H|H]%elem_of_app; repeat case_match;
    try (by apply elem_of_nil in H);
    apply list_elem_of_singleton in H; by subst.
Qed.

Lemma generateLegalMovesFrom_san from c m :
  m ∈ MoveGenerator.generateLegalMovesFrom this from c → san m = None.
Proof.
  unfold MoveGenerator.generateLegalMovesFrom.
  destruct (Board.getPiece _ _) as [p|]; [|by intros ?%elem_of_nil].
  case_bool_decide as Hc; [by intros ?%elem_of_nil|].
  destruct (Board.squareToCoords from) as [fc|]; [|by intros ?%elem_of_nil].
  intros [Hm|Hm]%elem_of_app; [|apply elem_of_app in Hm as [Hm|Hm]].
  - apply list_elem_of_bind in Hm as (tc & Hm & _). eauto using movesTo_san.
  - destruct (_ && _); [|by apply elem_of_nil in Hm].
    destruct (MoveGenerator.getEnPassantMove _ _ _) eqn:E;
      [|by apply elem_of_nil in Hm].
    apply list_elem_of_singleton in Hm as ->. eauto using getEnPassantMove_san.
  - case_bool_decide; [|by apply elem_of_nil in Hm].
    eauto using getCastlingMoves_san.
Qed.

Lemma generateLegalMoves_san c m :
  m ∈ MoveGenerator.generateLegalMoves this c → san m = None.
Proof.
  unfold MoveGenerator.generateLegalMoves.
  intros (sp & H & _)%list_elem_of_bind. eauto using generateLegalMovesFrom_san.
Qed.
End LegalMoveShape.

Lemma find_san_None (l : list Move) (s : string) :
  (∀ m, m ∈ l → san m = None) →
  List.find (λ m, bool_decide (san m = Some s)) l = None.
Proof.
  induction l as [|x l IH]; intros H; [done|]. cbn.
  rewrite bool_decide_eq_false_2.
  - apply IH. intros m Hm. apply H. by right.
  - rewrite (H x); [done|by left].
Qed.

Lemma selectMove_ok env book moves w :
  moves ≠ [] → ∃ m w', OpeningBook.selectMove env book moves w = (Ok m, w').
Proof.
  intros Hne. unfold OpeningBook.selectMove.
  destruct moves as [|first rest]; [done|].
  destruct (negb _); [eauto|].
  destruct (mathRandom env w) as [r w'].
  destruct (OpeningBook.pick _ _); eauto.
Qed.

Lemma getMove_ok env book game w :
  ∃ r w', OpeningBook.getMove env book game w = (Ok r, w').
Proof.
  unfold OpeningBook.getMove.
  destruct (negb _); [eauto|]. destruct (_ <=? _); [eauto|].
  destruct (_ !! _) as [[|x l]|]; [eauto| |eauto].
  destruct (List.filter _ _) as [|y l'] eqn:E; [eauto|].
  destruct (selectMove_ok env book (y :: l') w) as (m & w' & ->); [done|]. eauto.
Qed.

Lemma probeBook_miss env this game startTime w :
  ∃ w', MinimaxAI.probeBook env this game startTime w = (Ok None, w').
Proof.
  unfold MinimaxAI.probeBook.
  destruct (MinimaxAI.openingBook this) as [book|]; [|eauto].
  destruct (getMove_ok env book game w) as ([bm|] & w' & ->); [|eauto].
  rewrite find_san_None; [eauto|].
  intros m. apply generateLegalMoves_san.
Qed.

(** C8. A position without legal moves makes [analyze], and therefore
    [getBestMove], fail with the error "No legal moves available"; no move
    is returned. *)
Theorem no_legal_moves_search_fails fuel env this game w :
  Game.getLegalMoves game = [] →
  ∃ this' w',
    MinimaxAI.analyze fuel env this game w
      = (Throws "No legal moves available", this', w')
    ∧ MinimaxAI.getBestMove fuel env this game w
      = (Throws "No legal moves available", this', w').
Proof.
  intros Hnone. unfold MinimaxAI.getBestMove, MinimaxAI.analyze.
  destruct (dateNow env w) as [startTime w1].
  destruct (probeBook_miss env this game startTime w1) as (w2 & ->).
  rewrite Hnone. eauto.
Qed.

Lemma no_legal_moves_search_fails_witness :
  ∃ this' w',
    MinimaxAI.analyze 3 anyEnv (MinimaxAI.new None None) stalemated startWorld
      = (Throws "No legal moves available", this', w')
    ∧ MinimaxAI.getBestMove 3 anyEnv (MinimaxAI.new None None) stalemated startWorld
      = (Throws "No legal moves available", this', w').
Proof. apply no_legal_moves_search_fails. vm_compute. reflexivity. Defined.

(** C9. With exactly one legal move, [analyze] returns that move at once,
    whatever the configured depth: the search depth reported is 0, the
    counter of visited search nodes stays at zero ([minimax] is never
    entered), and the analysis reports the root as its one evaluated
    node. *)
Theorem single_legal_move_returned_unsearched fuel env this game w m :
  Game.getLegalMoves game = [m] →
  ∃ analysis this' w',
    MinimaxAI.analyze fuel env this game w = (Returns analysis, this', w')
    ∧ MinimaxAI.getBestMove fuel env this game w = (Returns m, this', w')
    ∧ bestMove analysis = m
    ∧ depth analysis = 0
    ∧ searchNodes this' = 0
    ∧ nodesEvaluated analysis = 1
    ∧ topMoves analysis = None.
Proof.
  intros Hone. unfold MinimaxAI.getBestMove, MinimaxAI.analyze.
  destruct (dateNow env w) as [startTime w1].
  destruct (probeBook_miss env this game startTime w1) as (w2 & ->).
  rewrite Hone. destruct (dateNow env w2) as [t w3].
  eexists _, _, _. repeat split; reflexivity.
Qed.

Lemma single_legal_move_returned_unsearched_witness :
  ∃ analysis this' w',
    MinimaxAI.analyze 0 anyEnv (MinimaxAI.new None None) cornered startWorld
      = (Returns analysis, this', w')
    ∧ MinimaxAI.getBestMove 0 anyEnv (MinimaxAI.new None None) cornered startWorld
      = (Returns (plainMove "h8" "g8" {| type := king; color := white |} None),
         this', w')
    ∧ bestMove analysis = plainMove "h8" "g8" {| type := king; color := white |} None
    ∧ depth analysis = 0
    ∧ searchNodes this' = 0
    ∧ nodesEvaluated analysis = 1
    ∧ topMoves analysis = None.
Proof.
  apply single_legal_move_returned_unsearched. vm_compute. reflexivity.
Defined.

(** ** Rejected requests *)

Lemma matches_spec o m :
  MoveGenerator.matches o m = true →
  from m = mo_from o ∧ to m = mo_to o
  ∧ ∀ p, mo_promotion o = Some p → promotion m = Some p.
Proof.
  unfold MoveGenerator.matches.
  destruct (String.eqb (from m) (mo_from o)) eqn:Hf; [|done].
  destruct (String.eqb (to m) (mo_to o)) eqn:Ht; [|done]. cbn.
  apply String.eqb_eq in Hf, Ht. intros H. repeat split; [done..|].
  intros p Hp. rewrite Hp in H. by apply bool_decide_eq_true in H.
Qed.

Lemma move_rejected g o reason :
  MoveGenerator.validateMove (Game.moveGenerator g) o (Game.currentTurn g)
    = MoveGenerator.rejected reason →
  Game.move g o = (None, g).
Proof. intros H. unfold Game.move. by rewrite H. Qed.

Lemma validateMove_cases g o :
  let v := MoveGenerator.validateMove (Game.moveGenerator g) o (Game.currentTurn g) in
  (∃ reason, reason ∈ stableReasons ∧ v = MoveGenerator.rejected reason)
  ∨ (v = {| valid := true; error := None |} ∧ ¬ InvalidRequest g o).
Proof.
  cbn zeta. unfold MoveGenerator.validateMove, Board.isValidSquare.
  destruct (Board.squareToCoords (mo_from o)) as [fc|] eqn:Hfc;
    [|left; eexists; split; [|reflexivity]; set_solver].
  destruct (Board.squareToCoords (mo_to o)) as [tc|] eqn:Htc;
    [|left; eexists; split; [|reflexivity]; set_solver].
  cbn [negb orb MoveGenerator.board Game.moveGenerator].
  destruct (Board.getPiece (Game.board g) (mo_from o)) as [p|] eqn:Hp;
    [|left; eexists; split; [|reflexivity]; set_solver].
  case_bool_decide as Hcol; [left; eexists; split; [|reflexivity]; set_solver|].
  destruct (String.eqb (mo_from o) (mo_to o)) eqn:Hnull;
    [left; eexists; split; [|reflexivity]; set_solver|].
  destruct (List.find _ _) as [m|] eqn:Hfind;
    [|left; eexists; split; [|reflexivity]; set_solver].
  match goal with
  | |- context [if ?c then MoveGenerator.rejected _ else _] =>
      destruct c eqn:Hpromo
  end; [left; eexists; split; [|reflexivity]; set_solver|].
  right. split; [done|]. intros Hbad.
  apply find_some in Hfind as [Hin Hm]. apply matches_spec in Hm as (Hf & Ht & Hpr).
  apply String.eqb_neq in Hnull.
  destruct Hbad as [[?|?]| ? |p' Hp' Hc'| ? |Hnot|p' tc' Hp' Hty Htc' Hrank Hnone];
    try congruence.
  - apply Hnot. exists m. repeat split; try done.
    by apply list_elem_of_In.
  - assert (p' = p) as -> by congruence. assert (tc' = tc) as -> by congruence.
    unfold MoveGenerator.isPawnPromotionRequired in Hpromo.
    cbn [MoveGenerator.board Game.moveGenerator] in Hpromo.
    rewrite Hp, Htc, Hrank, Hnone, Hty in Hpromo. done.
Qed.

(** C4. An invalid request, of any of the six kinds, is answered by
    [validateMove] with a rejection value that carries one of the six
    stable reasons (nothing is thrown), and [Game.move] then returns no
    move and the game exactly as it was. *)
Theorem invalid_request_rejected (g : Game.t) (o : MoveOptions) :
  InvalidRequest g o →
  ∃ reason,
    reason ∈ stableReasons
    ∧ MoveGenerator.validateMove (Game.moveGenerator g) o (Game.currentTurn g)
      = {| valid := false; error := Some reason |}
    ∧ Game.move g o = (None, g).
Proof.
  intros Hbad. destruct (validateMove_cases g o) as [(reason & Hin & Hv)|[_ Hok]];
    [|done].
  exists reason. eauto using move_rejected.
Qed.

Lemma invalid_request_rejected_witness :
  ∃ reason,
    reason ∈ stableReasons
    ∧ MoveGenerator.validateMove (Game.moveGenerator (Game.new None))
        (request "e2" "e5") (Game.currentTurn (Game.new None))
      = {| valid := false; error := Some reason |}
    ∧ Game.move (Game.new None) (request "e2" "e5") = (None, Game.new None).
Proof.
  apply invalid_request_rejected. apply illegal_move.
  intros (m & Hin & _ & Hto & _). apply list_elem_of_In in Hin.
  vm_compute in Hin. vm_compute in Hto.
  destruct Hin as [<-|[<-|[]]]; discriminate Hto.
Defined.

(** ** Loading a malformed FEN text *)

Lemma fileStep_classes c :
  fileStep c = if isPieceLetter c then Some 1 else emptyCount c.
Proof.
  destruct c as [[] [] [] [] [] [] [] []]; vm_compute; reflexivity.
Qed.

Lemma parseRank_width chars : ∀ rankIndex fileIndex b b' fileIndex',
  FenParser.parseRank chars rankIndex fileIndex b = Ok (b', fileIndex') →
  ∃ w, rankWidth chars = Some w ∧ fileIndex' = fileIndex + w.
Proof.
  induction chars as [|c rest IH]; intros rankIndex fileIndex b b' fileIndex'.
  - intros [= _ <-]. exists 0. split; [done|lia].
  - cbn [FenParser.parseRank rankWidth].
    destruct (8 <=? fileIndex); [done|].
    pose proof (fileStep_classes c) as Hc. unfold fileStep in Hc.
    destruct (isPieceLetter c), (digitVal c) as [n|];
      try destruct ((n <? 1) || (8 <? n)); try done;
      try destruct (FenParser.charToPiece c); try done;
      intros (w & Hw & ->)%IH; rewrite Hw; cbn [mbind option_bind];
      try (injection Hc as ->); try rewrite <- Hc; cbn [mbind option_bind];
      eexists; (split; [reflexivity|lia]).
Qed.

Lemma parseRanks_well_formed ranks : ∀ rankIndex b b',
  FenParser.parseRanks ranks rankIndex b = Ok b' →
  ∀ rank, rank ∈ ranks → rankWellFormed rank = true.
Proof.
  induction ranks as [|r rest IH]; intros rankIndex b b' Hok rank Hin.
  - by apply elem_of_nil in Hin.
  - cbn [FenParser.parseRanks] in Hok. unfold mbind, Result_bind in Hok.
    destruct (FenParser.parseRank r rankIndex 0 b) as [[b1 fileIndex]|] eqn:Hr;
      [|done].
    destruct (fileIndex =? 8) eqn:H8; [|done]. cbn in Hok.
    apply elem_of_cons in Hin as [->|Hin]; [|by eapply IH].
    apply parseRank_width in Hr as (w & Hw & ->).
    apply Z.eqb_eq in H8. unfold rankWellFormed.
    apply bool_decide_eq_true. rewrite Hw. f_equal. lia.
Qed.

Lemma parsePiecePlacement_well_formed placement b :
  FenParser.parsePiecePlacement placement = Ok b →
  length (splitOn "/" placement) = 8%nat
  ∧ ∀ rank, rank ∈ splitOn "/" placement → rankWellFormed rank = true.
Proof.
  unfold FenParser.parsePiecePlacement.
  destruct (length _ =? 8)%nat eqn:Hlen; [|done]. cbn.
  intros Hok. split; [by apply Nat.eqb_eq|].
  by eapply parseRanks_well_formed.
Qed.

Lemma parse_rejects_malformed fen :
  structurallyMalformed fen → ∃ msg, FenParser.parse fen = Throw msg.
Proof.
  unfold structurallyMalformed, FenParser.parse.
  destruct (splitBlanks (trim fen) false)
    as [|placement [|f2 [|f3 [|f4 [|f5 [|f6 [|f7 parts]]]]]]]; eauto.
  intros Hbad. unfold mbind, Result_bind.
  destruct (FenParser.parsePiecePlacement placement) as [b|msg] eqn:Hb; [|eauto].
  exfalso. apply parsePiecePlacement_well_formed in Hb as [Hlen Hall].
  destruct Hbad as [Hbad|(rank & Hin & Hbad)]; [done|].
  rewrite (Hall rank Hin) in Hbad. done.
Qed.

(** C10. [loadFen] on a structurally malformed FEN text throws while the
    text is parsed, before any field is assigned: the game it was called
    on is returned as it was, in every field. *)
Theorem malformed_fen_leaves_game_untouched (g : Game.t) (fen : string) :
  structurallyMalformed fen →
  ∃ msg, FenParser.parse fen = Throw msg ∧ Game.loadFen g fen = (Throw msg, g).
Proof.
  intros (msg & Hmsg)%parse_rejects_malformed. exists msg.
  split; [done|]. unfold Game.loadFen. by rewrite Hmsg.
Qed.

Lemma malformed_fen_leaves_game_untouched_witness :
  ∃ msg,
    FenParser.parse "rnbqkbnr/pppppppp/8/8/8/8/PPPPPPPPP/RNBQKBNR w KQkq - 0 1"
      = Throw msg
    ∧ Game.loadFen cornered
        "rnbqkbnr/pppppppp/8/8/8/8/PPPPPPPPP/RNBQKBNR w KQkq - 0 1"
      = (Throw msg, cornered).
Proof.
  apply malformed_fen_leaves_game_untouched.
  unfold structurallyMalformed.
  match goal with
  | |- context [splitBlanks ?a ?b] =>
      let v := eval vm_compute in (splitBlanks a b) in
      change (splitBlanks a b) with v
  end.
  right. exists "PPPPPPPPP"%string. split; [|vm_compute; reflexivity].
  apply list_elem_of_In. vm_compute. do 6 right. left. reflexivity.
Defined.

(** ** Games that are over *)

Lemma scan_elem (r c : nat) : (r < 8)%nat → (c < 8)%nat → (r, c) ∈ Board.scan.
Proof.
  intros Hr Hc. unfold Board.scan.
  apply list_elem_of_bind. exists r. split; [|apply elem_of_seq; lia].
  apply list_elem_of_bind. exists c. split; [|apply elem_of_seq; lia].
  by apply list_elem_of_singleton.
Qed.

Lemma findPieces_elem b sq p :
  Board.getPiece b sq = Some p → (sq, p) ∈ Board.findPieces b (color p).
Proof.
  unfold Board.getPiece.
  destruct (Board.squareToCoords sq) as [co|] eqn:Hco; [|done]. intros Hp.
  destruct (indices_lt _ _ Hco) as [Hr Hc].
  destruct (squareToCoords_Some _ _ Hco) as (Hrow & Hcol & Hback).
  unfold Board.findPieces. apply list_elem_of_bind.
  exists (indices co). split; [|by apply scan_elem].
  unfold indices. cbn [fst snd]. rewrite Hp.
  rewrite bool_decide_eq_true_2 by done.
  rewrite !Z2Nat.id by lia. rewrite Hback. by apply list_elem_of_singleton.
Qed.

Lemma no_moves_from this sq p :
  MoveGenerator.generateLegalMoves this (color p) = [] →
  Board.getPiece (MoveGenerator.board this) sq = Some p →
  MoveGenerator.generateLegalMovesFrom this sq (color p) = [].
Proof.
  intros Hnone Hp.
  destruct (MoveGenerator.generateLegalMovesFrom this sq (color p)) as [|m l] eqn:E;
    [done|].
  assert (m ∈ MoveGenerator.generateLegalMoves this (color p)) as Hm.
  { unfold MoveGenerator.generateLegalMoves. apply list_elem_of_bind.
    exists (sq, p). split; [|by apply findPieces_elem].
    cbn [fst]. rewrite E. by left. }
  rewrite Hnone in Hm. by apply elem_of_nil in Hm.
Qed.

Lemma no_moves_all_rejected g o :
  Game.getLegalMoves g = [] → Game.move g o = (None, g).
Proof.
  intros Hnone. destruct (validateMove_cases g o) as [(reason & _ & Hv)|[Hv _]];
    [by eapply move_rejected|].
  exfalso. revert Hv. unfold MoveGenerator.validateMove.
  destruct (_ || _); [done|].
  destruct (Board.getPiece _ _) as [p|] eqn:Hp; [|done].
  case_bool_decide as Hcol; [done|].
  destruct (String.eqb _ _); [done|].
  assert (color p = Game.currentTurn g) as Hturn.
  { by destruct (decide (color p = Game.currentTurn g)). }
  unfold Game.getLegalMoves in Hnone. rewrite <- Hturn in *.
  rewrite (no_moves_from _ _ p Hnone Hp). done.
Qed.

Lemma length_zero_nil {A} (l : list A) : (length l =? 0)%nat = true → l = [].
Proof. by destruct l. Qed.

Lemma updateGameStatus_fix g :
  Game.gameStatus (Game.updateGameStatus g) = Game.gameStatus g →
  Game.gameStatus g = checkmate_status ∨ Game.gameStatus g = stalemate →
  Game.getLegalMoves g = [].
Proof.
  unfold Game.updateGameStatus, Game.getLegalMoves,
    MoveGenerator.isCheckmate, MoveGenerator.isStalemate.
  destruct (isKingInCheck _ _); cbn [negb].
  - destruct (length _ =? 0)%nat eqn:Hlen; [intros _ _; by apply length_zero_nil|].
    repeat case_match; cbn; intros <-; intros [?|?]; done.
  - destruct (length _ =? 0)%nat eqn:Hlen; [intros _ _; by apply length_zero_nil|].
    repeat case_match; cbn; intros <-; intros [?|?]; done.
Qed.

Lemma updateGameStatus_withStatus g s :
  Game.updateGameStatus (Game.withStatus g s) = Game.updateGameStatus g.
Proof.
  unfold Game.updateGameStatus.
  change (Game.moveGenerator (Game.withStatus g s)) with (Game.moveGenerator g).
  change (Game.currentTurn (Game.withStatus g s)) with (Game.currentTurn g).
  change (Game.halfMoveClock (Game.withStatus g s)) with (Game.halfMoveClock g).
  change (Game.positionHistory (Game.withStatus g s)) with (Game.positionHistory g).
  change (Game.getPositionKey (Game.withStatus g s)) with (Game.getPositionKey g).
  change (Game.isInsufficientMaterial (Game.withStatus g s))
    with (Game.isInsufficientMaterial g).
  change (Game.isInCheck (Game.withStatus g s)) with (Game.isInCheck g).
  repeat case_match; reflexivity.
Qed.

Lemma move_ignores_status g s o :
  (Game.move (Game.withStatus g s) o).1 = (Game.move g o).1.
Proof.
  unfold Game.move.
  change (Game.moveGenerator (Game.withStatus g s)) with (Game.moveGenerator g).
  change (Game.currentTurn (Game.withStatus g s)) with (Game.currentTurn g).
  change (Game.board (Game.withStatus g s)) with (Game.board g).
  destruct (negb _); [done|].
  destruct (Board.getPiece _ _); [|done].
  cbn [fst].
  change (Game.isCastlingMove (Game.withStatus g s)) with (Game.isCastlingMove g).
  change (Game.isEnPassantCapture (Game.withStatus g s)) with (Game.isEnPassantCapture g).
  set (move0 := Build_Move _ _ _ _ _ _ _ None false false).
  change (Game.generateSan (Game.withStatus g s) move0) with (Game.generateSan g move0).
  change (Game.recordPosition (Game.updateGameState
            (Game.withBoard (Game.withStatus g s) (Game.executeMove (Game.board g) move0)) move0))
    with (Game.withStatus (Game.recordPosition (Game.updateGameState
            (Game.withBoard g (Game.executeMove (Game.board g) move0)) move0)) s).
  rewrite updateGameStatus_withStatus. reflexivity.
Qed.

(** C3 (amended). A game whose status, as [updateGameStatus] computes
    it, is checkmate or stalemate refuses every request: [Game.move]
    returns no move and the game unchanged.  [Game.move] itself never
    reads the status, so whether a request is accepted is the same
    whatever status the game carries. *)
Theorem finished_game_rejects_moves (g : Game.t) (o : MoveOptions) :
  Game.gameStatus (Game.updateGameStatus g) = Game.gameStatus g →
  Game.gameStatus g = checkmate_status ∨ Game.gameStatus g = stalemate →
  Game.move g o = (None, g)
  ∧ ∀ s, (Game.move (Game.withStatus g s) o).1 = None.
Proof.
  intros Hfix Hover.
  pose proof (no_moves_all_rejected g o (updateGameStatus_fix g Hfix Hover)) as H.
  split; [done|]. intros s. rewrite move_ignores_status, H. done.
Qed.

Lemma finished_game_rejects_moves_witness :
  Game.move stalemated (request "a1" "a2") = (None, stalemated)
  ∧ ∀ s, (Game.move (Game.withStatus stalemated s) (request "a1" "a2")).1 = None.
Proof.
  apply finished_game_rejects_moves.
  - vm_compute. reflexivity.
  - right. vm_compute. reflexivity.
Defined.

Lemma drawn_game_accepts_moves :
  isTerminal (Game.gameStatus bareKings) = true
  ∧ Game.gameStatus (Game.updateGameStatus bareKings) = Game.gameStatus bareKings
  ∧ (Game.move bareKings (request "e1" "e2")).1
    = Some {| from := "e1"; to := "e2";
              piece := {| type := king; color := white |};
              captured := None; promotion := None; castling := None;
              enPassant := false; san := Some "Ke2"%string;
              check := false; checkmate := false |}
  ∧ (Game.move bareKings (request "e1" "e2")).2 ≠ bareKings.
Proof.
  split; [vm_compute; reflexivity|]. split; [vm_compute; reflexivity|].
  split; [vm_compute; reflexivity|]. 
  intros H. apply (f_equal Game.currentTurn) in H. vm_compute in H. discriminate.
Qed.

(** ** The shape of generated moves *)

Lemma generateLegalMovesFrom_kind this sq c m :
  m ∈ MoveGenerator.generateLegalMovesFrom this sq c →
  ∃ p fc,
    Board.getPiece (MoveGenerator.board this) sq = Some p
    ∧ color p = c
    ∧ Board.squareToCoords sq = Some fc
    ∧ LegalKind this sq c p fc m.
Proof.
  unfold MoveGenerator.generateLegalMovesFrom.
  destruct (Board.getPiece _ _) as [p|]; [|by intros ?%elem_of_nil].
  case_bool_decide as Hc; [by intros ?%elem_of_nil|].
  assert (color p = c) as Hcol by (by destruct (decide (color p = c))).
  destruct (Board.squareToCoords sq) as [fc|]; [|by intros ?%elem_of_nil].
  intros Hm. exists p, fc. repeat split; try done.
  apply elem_of_app in Hm as [Hm|Hm]; [|apply elem_of_app in Hm as [Hm|Hm]].
  - apply list_elem_of_bind in Hm as (tc & Hm & Htc).
    unfold MoveGenerator.movesTo in Hm.
    destruct (Board.coordsToSquare _ _) as [target|] eqn:Ht;
      [|by apply elem_of_nil in Hm].
    destruct (MoveGenerator.isMoveLegal _ _ _ _) eqn:Hl;
      [|by apply elem_of_nil in Hm].
    eapply kind_ordinary; try done.
    destruct (_ && _) eqn:Hpromo.
    + right. split; [done|].
      apply list_elem_of_fmap in Hm as (pp & -> & Hpp). eauto.
    + left. apply list_elem_of_singleton in Hm. done.
  - destruct (bool_decide (type p = pawn)) eqn:Hp; [|by apply elem_of_nil in Hm].
    apply bool_decide_eq_true in Hp. cbn in Hm.
    destruct (truthy _); [|by apply elem_of_nil in Hm].
    destruct (MoveGenerator.getEnPassantMove _ _ _) eqn:E;
      [|by apply elem_of_nil in Hm].
    apply list_elem_of_singleton in Hm as ->. by apply kind_enPassant.
  - case_bool_decide as Hk; [|by apply elem_of_nil in Hm].
    unfold MoveGenerator.getCastlingMoves in Hm.
    apply elem_of_app in Hm as [Hm|Hm].
    + destruct (MoveGenerator.canCastleKingside _ _) eqn:E;
        [|by apply elem_of_nil in Hm].
      apply list_elem_of_singleton in Hm. by eapply (kind_castling _ _ _ _ _ _ kingside).
    + destruct (MoveGenerator.canCastleQueenside _ _) eqn:E;
        [|by apply elem_of_nil in Hm].
      apply list_elem_of_singleton in Hm. by eapply (kind_castling _ _ _ _ _ _ queenside).
Qed.

Lemma generateLegalMoves_kind this c m :
  m ∈ MoveGenerator.generateLegalMoves this c →
  ∃ sq p fc,
    Board.getPiece (MoveGenerator.board this) sq = Some p
    ∧ color p = c
    ∧ Board.squareToCoords sq = Some fc
    ∧ LegalKind this sq c p fc m.
Proof.
  unfold MoveGenerator.generateLegalMoves.
  intros (sp & Hm & _)%list_elem_of_bind.
  apply generateLegalMovesFrom_kind in Hm. eauto.
Qed.

Lemma getEnPassantMove_flag this sq c m :
  MoveGenerator.getEnPassantMove this sq c = Some m → enPassant m = true.
Proof.
  unfold MoveGenerator.getEnPassantMove.
  repeat case_match; try discriminate; by intros [= <-].
Qed.


(** ** Check tests do not see the type of the mover's own pieces *)

Lemma opposite_ne c : opposite c ≠ c.
Proof. by destruct c. Qed.

Lemma isPiece_alike c t o1 o2 :
  alike c o1 o2 → isPiece t (opposite c) o1 = isPiece t (opposite c) o2.
Proof.
  intros [->|(p1 & p2 & -> & -> & H1 & H2 & _)]; [done|]. cbn.
  rewrite (bool_decide_eq_false_2 (color p1 = opposite c))
    by (rewrite H1; intros Hx; by apply (opposite_ne c)).
  rewrite (bool_decide_eq_false_2 (color p2 = opposite c))
    by (rewrite H2; intros Hx; by apply (opposite_ne c)).
  by rewrite !andb_false_r.
Qed.

Lemma isKingOf_alike c o1 o2 :
  alike c o1 o2 → Board.isKingOf c o1 = Board.isKingOf c o2.
Proof.
  intros [->|(p1 & p2 & -> & -> & _ & _ & H1 & H2)]; [done|]. cbn.
  rewrite (bool_decide_eq_false_2 (type p1 = king)) by done.
  rewrite (bool_decide_eq_false_2 (type p2 = king)) by done. done.
Qed.

Lemma getPieceAt_alike c b1 b2 r k :
  boardsAlike c b1 b2 → alike c (Board.getPieceAt b1 r k) (Board.getPieceAt b2 r k).
Proof.
  intros H. unfold Board.getPieceAt. destruct (_ || _) eqn:E; [by left|].
  apply H; lia.
Qed.

Lemma stepAttack_alike c b1 b2 t r k :
  boardsAlike c b1 b2 →
  stepAttack b1 t (opposite c) r k = stepAttack b2 t (opposite c) r k.
Proof.
  intros H. unfold stepAttack. f_equal. by apply isPiece_alike, getPieceAt_alike.
Qed.

Lemma rayAttack_alike c b1 b2 t steps : ∀ r k dr dk,
  boardsAlike c b1 b2 →
  rayAttack steps b1 t (opposite c) r k dr dk
  = rayAttack steps b2 t (opposite c) r k dr dk.
Proof.
  induction steps as [|n IH]; intros r k dr dk H; [done|]. cbn [rayAttack].
  destruct (Board.isValidCoords r k); [|done].
  destruct (getPieceAt_alike c b1 b2 r k H)
    as [->|(p1 & p2 & -> & -> & H1 & H2 & _)].
  - destruct (Board.getPieceAt b2 r k); [done|]. by apply IH.
  - rewrite (bool_decide_eq_false_2 (color p1 = opposite c))
      by (rewrite H1; intros Hx; by apply (opposite_ne c)).
    rewrite (bool_decide_eq_false_2 (color p2 = opposite c))
      by (rewrite H2; intros Hx; by apply (opposite_ne c)).
    done.
Qed.

Lemma existsb_ext' {A} (f g : A → bool) (l : list A) :
  (∀ x, f x = g x) → existsb f l = existsb g l.
Proof. intros H. induction l as [|x l IH]; [done|]. cbn. by rewrite H, IH. Qed.

Lemma isSquareUnderAttack_alike c b1 b2 sq :
  boardsAlike c b1 b2 →
  isSquareUnderAttack b1 sq (opposite c) = isSquareUnderAttack b2 sq (opposite c).
Proof.
  intros H. unfold isSquareUnderAttack. destruct sq as [r k].
  rewrite (existsb_ext' _ _ _
             (λ x, stepAttack_alike c b1 b2 pawn _ _ H)).
  rewrite (existsb_ext' _ _ DIRECTIONS.KNIGHT
             (λ x, stepAttack_alike c b1 b2 knight _ _ H)).
  rewrite (existsb_ext' _ _ DIRECTIONS.ALL
             (λ x, stepAttack_alike c b1 b2 king _ _ H)).
  rewrite (existsb_ext' _ _ DIRECTIONS.DIAGONAL
             (λ x, rayAttack_alike c b1 b2 bishop 8 _ _ _ _ H)).
  rewrite (existsb_ext' _ _ DIRECTIONS.ORTHOGONAL
             (λ x, rayAttack_alike c b1 b2 rook 8 _ _ _ _ H)).
  reflexivity.
Qed.

Lemma scan_lt rc : rc ∈ Board.scan → (rc.1 < 8)%nat ∧ (rc.2 < 8)%nat.
Proof.
  unfold Board.scan.
  intros (r & (k & ->%list_elem_of_singleton & Hk%elem_of_seq)%list_elem_of_bind
            & Hr%elem_of_seq)%list_elem_of_bind.
  cbn. lia.
Qed.

Lemma find_ext_in {A} (f g : A → bool) (l : list A) :
  (∀ x, x ∈ l → f x = g x) → List.find f l = List.find g l.
Proof.
  induction l as [|x l IH]; intros H; [done|]. cbn.
  rewrite (H x) by by left. destruct (g x); [done|].
  apply IH. intros y Hy. apply H. by right.
Qed.

Lemma findKing_alike c b1 b2 :
  boardsAlike c b1 b2 → Board.findKing b1 c = Board.findKing b2 c.
Proof.
  intros H. unfold Board.findKing.
  rewrite (find_ext_in _ (λ rc, Board.isKingOf c (Board.cell b2 rc.1 rc.2))); [done|].
  intros rc [Hr Hk]%scan_lt. by apply isKingOf_alike, H.
Qed.

Lemma isKingInCheck_alike c b1 b2 :
  boardsAlike c b1 b2 → isKingInCheck b1 c = isKingInCheck b2 c.
Proof.
  intros H. unfold isKingInCheck. rewrite (findKing_alike c b1 b2 H).
  destruct (Board.findKing b2 c); [|done].
  destruct (Board.squareToCoords _); [|done]. by apply isSquareUnderAttack_alike.
Qed.



(** ** Castling leaves the king safe *)

Lemma row_explode {A} (l : list A) :
  length l = 8%nat → ∃ a0 a1 a2 a3 a4 a5 a6 a7, l = [a0; a1; a2; a3; a4; a5; a6; a7].
Proof.
  intros H. do 8 (destruct l as [|? l]; [discriminate H|]).
  destruct l; [|discriminate H]. by do 8 eexists.
Qed.

Ltac explode_row H :=
  apply row_explode in H; destruct H as (?&?&?&?&?&?&?&?&?); subst.

Ltac explode b Hwf :=
  destruct Hwf as [Hlen Hall];
  apply row_explode in Hlen;
  destruct Hlen as (?r0&?r1&?r2&?r3&?r4&?r5&?r6&?r7&?); subst b;
  repeat match goal with
         | H : Forall _ (_ :: _) |- _ =>
             let H1 := fresh in let H2 := fresh in
             apply Forall_cons in H as [H1 H2]; explode_row H1
         | H : Forall _ [] |- _ => clear H
         end.

Lemma find_first {A} (P : A → bool) (l1 l2 : list A) (x : A) :
  List.find P (l1 ++ x :: l2) = Some x → x ∉ l1 →
  (∀ y, y ∈ l1 → P y = false) ∧ P x = true.
Proof.
  induction l1 as [|y l1 IH]; cbn.
  - intros H _. split; [intros y Hy; by apply elem_of_nil in Hy|].
    destruct (P x) eqn:E; [done|]. apply find_some in H as [_ H]. congruence.
  - destruct (P y) eqn:E.
    + intros [= ->] Hx. exfalso. apply Hx. by left.
    + intros H Hx. destruct IH as [IH1 IH2]; [done|set_solver|].
      split; [|done]. intros z [->|Hz]%elem_of_cons; eauto.
Qed.

Lemma find_skip {A} (P : A → bool) (l1 l2 : list A) :
  (∀ y, y ∈ l1 → P y = false) → List.find P (l1 ++ l2) = List.find P l2.
Proof.
  induction l1 as [|y l1 IH]; intros H; [done|]. cbn.
  rewrite H by by left. apply IH. intros z Hz. apply H. by right.
Qed.

Lemma isPiece_true t c o :
  isPiece t c o = true → o = Some {| type := t; color := c |}.
Proof.
  destruct o as [[t' c']|]; [|done]. cbn.
  intros [Ht Hc]%andb_true_iff.
  apply bool_decide_eq_true in Ht, Hc. cbn in *. by subst.
Qed.

Lemma isEmpty_true b sq : Board.isEmpty b sq = true → Board.getPiece b sq = None.
Proof. unfold Board.isEmpty. by destruct (Board.getPiece b sq). Qed.

Lemma canCastleKingside_facts this c :
  MoveGenerator.canCastleKingside this c = true →
  let b := MoveGenerator.board this in
  Board.getPiece b ("e" +++ homeRank c) = Some {| type := king; color := c |}
  ∧ Board.getPiece b ("h" +++ homeRank c) = Some {| type := rook; color := c |}
  ∧ Board.getPiece b ("f" +++ homeRank c) = None
  ∧ Board.getPiece b ("g" +++ homeRank c) = None
  ∧ isKingInCheck b c = false
  ∧ (∀ co, Board.squareToCoords ("g" +++ homeRank c) = Some co →
           isSquareUnderAttack b co (opposite c) = false).
Proof.
  unfold MoveGenerator.canCastleKingside.
  destruct (negb (MoveGenerator.hasKingsideRights _ _)); [done|].
  destruct (isPiece king _ _) eqn:Hk; [|done].
  destruct (isPiece rook _ _) eqn:Hr; [|done]. cbn [negb].
  destruct (Board.isEmpty _ ("f" +++ _)) eqn:Hf; [|done].
  destruct (Board.isEmpty _ ("g" +++ _)) eqn:Hg; [|done]. cbn [negb orb].
  destruct (isKingInCheck _ _) eqn:Hcheck; [done|].
  destruct (Board.squareToCoords ("f" +++ _)) as [f|]; [|done].
  destruct (Board.squareToCoords ("g" +++ _)) as [g|]; [|done].
  destruct (isSquareUnderAttack _ f _); [done|].
  destruct (isSquareUnderAttack _ g _) eqn:Hatt; [done|]. intros _.
  cbn zeta. repeat split; eauto using isPiece_true, isEmpty_true.
  by intros co [= <-].
Qed.

Lemma cell_collapse (o : option Piece) :
  match o with Some x => Some x | None => None end = o.
Proof. by destruct o. Qed.

Ltac normal_in H :=
  let T := type of H in
  let N := eval cbv in T in
  let H' := fresh in
  assert (H' : N) by exact H; clear H; rename H' into H.

Ltac cell_fact H :=
  normal_in H; rewrite ?cell_collapse in H.

Lemma canCastleQueenside_facts this c :
  MoveGenerator.canCastleQueenside this c = true →
  let b := MoveGenerator.board this in
  Board.getPiece b ("e" +++ homeRank c) = Some {| type := king; color := c |}
  ∧ Board.getPiece b ("a" +++ homeRank c) = Some {| type := rook; color := c |}
  ∧ Board.getPiece b ("b" +++ homeRank c) = None
  ∧ Board.getPiece b ("c" +++ homeRank c) = None
  ∧ Board.getPiece b ("d" +++ homeRank c) = None
  ∧ isKingInCheck b c = false
  ∧ (∀ co, Board.squareToCoords ("c" +++ homeRank c) = Some co →
           isSquareUnderAttack b co (opposite c) = false).
Proof.
  unfold MoveGenerator.canCastleQueenside.
  destruct (negb (MoveGenerator.hasQueensideRights _ _)); [done|].
  destruct (isPiece king _ _) eqn:Hk; [|done].
  destruct (isPiece rook _ _) eqn:Hr; [|done]. cbn [negb].
  destruct (Board.isEmpty _ ("b" +++ _)) eqn:Hb; [|done].
  destruct (Board.isEmpty _ ("c" +++ _)) eqn:Hc; [|done].
  destruct (Board.isEmpty _ ("d" +++ _)) eqn:Hd; [|done]. cbn [negb orb].
  destruct (isKingInCheck _ _) eqn:Hcheck; [done|].
  destruct (Board.squareToCoords ("c" +++ _)) as [sc|]; [|done].
  destruct (Board.squareToCoords ("d" +++ _)) as [sd|]; [|done].
  destruct (isSquareUnderAttack _ sc _) eqn:Hatt; [done|].
  destruct (isSquareUnderAttack _ sd _); [done|]. intros _.
  cbn zeta. repeat split; eauto using isPiece_true, isEmpty_true.
  by intros co [= <-].
Qed.

(** The king found by [findKing] stands on [home]: no king of that colour
    comes earlier in the scan. *)
Lemma findKing_first b c home co :
  Board.findKing b c = Some home →
  Board.squareToCoords home = Some co →
  ∀ l1 l2, Board.scan = l1 ++ indices co :: l2 → indices co ∉ l1 →
  ∀ y, y ∈ l1 → Board.isKingOf c (Board.cell b y.1 y.2) = false.
Proof.
  unfold Board.findKing. intros Hfind Hco l1 l2 Hscan Hnot.
  destruct (List.find _ _) as [rc|] eqn:E; [|done].
  apply coordsToSquare_Some in Hfind as (Hr & Hk & Hsq).
  assert (rc = indices co) as ->.
  { rewrite Hco in Hsq. injection Hsq as ->. unfold indices. cbn.
    rewrite !Nat2Z.id. by destruct rc. }
  rewrite Hscan in E. by apply find_first in E as [E _].
Qed.

Lemma findKing_moved b b' c l1 mid rc l2 target :
  Board.scan = l1 ++ mid ++ rc :: l2 →
  (∀ y, y ∈ l1 → Board.isKingOf c (Board.cell b y.1 y.2) = false) →
  Forall (λ y, Board.isKingOf c (Board.cell b' y.1 y.2)
               = Board.isKingOf c (Board.cell b y.1 y.2)) l1 →
  Forall (λ y, Board.isKingOf c (Board.cell b' y.1 y.2) = false) mid →
  Board.isKingOf c (Board.cell b' rc.1 rc.2) = true →
  Board.coordsToSquare (Z.of_nat rc.1) (Z.of_nat rc.2) = Some target →
  Board.findKing b' c = Some target.
Proof.
  intros Hscan Hpre Hsame Hmid Hking Htarget. unfold Board.findKing.
  rewrite Hscan, find_skip.
  - rewrite find_skip; [cbn; by rewrite Hking|].
    intros y Hy. by apply (proj1 (Forall_forall _ _) Hmid).
  - intros y Hy. rewrite (proj1 (Forall_forall _ _) Hsame y Hy). by apply Hpre.
Qed.

Ltac not_in_list :=
  let H := fresh in
  intros H; repeat (apply elem_of_cons in H as [H|H]; [discriminate H|]);
  by apply elem_of_nil in H.

Lemma elem_of_take_le {A} (l : list A) (n m : nat) (y : A) :
  (n ≤ m)%nat → y ∈ take n l → y ∈ take m l.
Proof.
  intros Hle Hy. rewrite <- (Nat.min_l n m Hle), <- take_take in Hy.
  by apply (subseteq_take n (take m l)).
Qed.

Ltac castle_case b Hwf Hking Hatt n k mid :=
  explode b Hwf;
  repeat match goal with
         | H : Board.getPiece _ _ = _ |- _ => cell_fact H
         end;
  subst;
  unfold isKingInCheck;
  erewrite (findKing_moved _ _ _ (take k Board.scan) mid _
              (drop (S (k + length mid)) Board.scan));
    [ | reflexivity
      | let y := fresh in let Hy := fresh in
        intros y Hy;
        eapply (findKing_first _ _ _ _ Hking eq_refl (take n Board.scan));
          [reflexivity|not_in_list|];
        apply (elem_of_take_le _ k n); [lia|exact Hy]
      | repeat constructor
      | repeat constructor
      | reflexivity
      | reflexivity ];
  match goal with
  | |- context [Board.squareToCoords ?s] =>
      let v := eval cbv in (Board.squareToCoords s) in
      change (Board.squareToCoords s) with v
  end;
  cbv iota beta;
  normal_in Hatt;
  match goal with
  | |- ?G => let N := eval cbv in G in cut N; [exact (λ x, x)|]
  end;
  exact Hatt.

Lemma castling_safe this c side :
  Board.wf (MoveGenerator.board this) →
  match side with
  | kingside => MoveGenerator.canCastleKingside this c
  | queenside => MoveGenerator.canCastleQueenside this c
  end = true →
  Board.findKing (MoveGenerator.board this) c = Some ("e" +++ homeRank c) →
  isKingInCheck
    (Game.executeMove (MoveGenerator.board this) (MoveGenerator.castlingMove c side)) c
  = false.
Proof.
  destruct this as [b cr ep]. cbn [MoveGenerator.board]. intros Hwf Hcan Hking.
  destruct side.
  - apply canCastleKingside_facts in Hcan as (He & Hh & Hf & Hg & _ & Hatt).
    cbn [MoveGenerator.board] in *.
    destruct c.
    + specialize (Hatt {| row := 0; col := 6 |} eq_refl).
      castle_case b Hwf Hking Hatt 4%nat 4%nat [(0, 4); (0, 5)]%nat.
    + specialize (Hatt {| row := 7; col := 6 |} eq_refl).
      castle_case b Hwf Hking Hatt 60%nat 60%nat [(7, 4); (7, 5)]%nat.
  - apply canCastleQueenside_facts in Hcan as (He & Ha & Hb & Hc & Hd & _ & Hatt).
    cbn [MoveGenerator.board] in *.
    destruct c.
    + specialize (Hatt {| row := 0; col := 2 |} eq_refl).
      castle_case b Hwf Hking Hatt 4%nat 2%nat (@nil (nat * nat)).
    + specialize (Hatt {| row := 7; col := 2 |} eq_refl).
      castle_case b Hwf Hking Hatt 60%nat 58%nat (@nil (nat * nat)).
Qed.


(** ** Legal moves and the safety of the mover's king *)

Lemma promoted_alike b sq target fc tc p pp c :
  Board.wf b →
  Board.squareToCoords sq = Some fc → Board.squareToCoords target = Some tc →
  Board.getPiece b sq = Some p → color p = c → type p = pawn →
  pp ∈ MoveGenerator.promotionPieces →
  boardsAlike c
    (Game.executeMove b (withPromotion (plainMove sq target p (Board.getPiece b target)) pp))
    (Board.movePiece b sq target).
Proof.
  intros Hwf Hfc Htc Hp Hc Hty Hpp r k Hr Hk.
  unfold Game.executeMove, withPromotion, plainMove.
  cbn [enPassant castling promotion from to piece].
  rewrite (setPiece_put _ _ _ _ Htc), (setPiece_put _ _ _ _ Hfc),
    (movePiece_put _ _ _ _ _ Hfc Htc).
  destruct (indices_lt _ _ Hfc) as [? ?]. destruct (indices_lt _ _ Htc) as [? ?].
  rewrite !cell_put by eauto using wf_put.
  destruct (decide _) as [_|_]; [by left|].
  destruct (decide _) as [_|_]; [|by left].
  rewrite <- (getPiece_cell _ _ _ Hfc), Hp.
  right. exists {| type := pp; color := color p |}, p.
  split; [done|]. split; [done|]. split; [done|]. split; [done|]. split.
  - cbn. intros ->. revert Hpp. unfold MoveGenerator.promotionPieces.
    intros Hx. repeat (apply elem_of_cons in Hx as [Hx|Hx]; [discriminate Hx|]).
    by apply elem_of_nil in Hx.
  - rewrite Hty. done.
Qed.

(** Every move of the generated legal set other than an en-passant
    capture leaves the mover's king unattacked once the generated record
    is executed on the board.  Ordinary moves and promotions are the ones
    that passed [isMoveLegal] (the displacement tried on a cloned board);
    castling moves are the ones [canCastleKingside] or
    [canCastleQueenside] admitted, for the king that [findKing] sees. *)
Lemma legal_move_keeps_king_safe (this : MoveGenerator.t) (c : Color) (m : Move) :
  Board.wf (MoveGenerator.board this) →
  m ∈ MoveGenerator.generateLegalMoves this c →
  enPassant m = false →
  (is_Some (castling m) →
   Board.findKing (MoveGenerator.board this) c = Some (from m)) →
  isKingInCheck (Game.executeMove (MoveGenerator.board this) m) c = false
  ∧ match castling m with
    | None => MoveGenerator.isMoveLegal this (from m) (to m) c = true
    | Some kingside => MoveGenerator.canCastleKingside this c = true
    | Some queenside => MoveGenerator.canCastleQueenside this c = true
    end.
Proof.
  intros Hwf (sq & p & fc & Hp & Hc & Hfc & Hkind)%generateLegalMoves_kind Hep Hking.
  destruct Hkind as [tc target Htc Htarget Hlegal [[-> Hno]|[Hpromo (pp & Hpp & ->)]]
                    | Hty Hm | side Hty -> Hcan].
  - split; [|done]. cbn.
    change (Game.executeMove (MoveGenerator.board this)
              (plainMove sq target p (Board.getPiece (MoveGenerator.board this) target)))
      with (Board.movePiece (MoveGenerator.board this) sq target).
    unfold MoveGenerator.isMoveLegal, Board.clone in Hlegal.
    by apply negb_true_iff in Hlegal.
  - split; [|done].
    apply andb_true_iff in Hpromo as [Hty%bool_decide_eq_true _].
    apply coordsToSquare_Some in Htarget as (_ & _ & Htarget).
    rewrite (isKingInCheck_alike c _ (Board.movePiece (MoveGenerator.board this) sq target)).
    + unfold MoveGenerator.isMoveLegal, Board.clone in Hlegal.
      by apply negb_true_iff in Hlegal.
    + by eapply promoted_alike.
  - apply getEnPassantMove_flag in Hm. congruence.
  - split; [|by destruct side].
    apply castling_safe; [done..|].
    rewrite Hking; [done|]. by destruct side.
Qed.

(** C1. The generated legal moves do not all keep the mover's king safe.
    After 1.d4 a5 2.d5 a4 3.Kd2 Ra5 4.Ke3 h6 5.Kf4 h5 6.Kf5 e5 the
    en-passant capture dxe6 is in the generated legal set, although the
    board after it has the white king on f5 attacked along the fifth rank
    by the rook on a5: [isMoveLegal] tried the pawn's displacement alone and
    left the captured pawn on e5.  [Game.move] accepts and plays the
    capture, and the white king is in check on the board it leaves. *)
Theorem en_passant_exposes_king :
  (g ← afterEnPassantLine; List.find enPassant (Game.getLegalMoves g))
    = Some enPassantCapture
  ∧ (g ← afterEnPassantLine;
     Some (isKingInCheck (Game.executeMove (Game.board g) enPassantCapture)
             (Game.currentTurn g))) = Some true
  ∧ (g ← afterEnPassantLine;
     let result := Game.move g (toOptions enPassantCapture) in
     Some (enPassant <$> result.1,
           isKingInCheck (Game.board result.2) (Game.currentTurn g)))
    = Some (Some true, true).
Proof. vm_compute. repeat split; reflexivity. Qed.

(** C2. [undo] is not the inverse of [move].  After 1.d4 a5 2.d5 a4
    3.Kd2 Ra5 4.Ke3 h6 5.Kf4 h5 6.Kf5 e5 the capture dxe6 is played en
    passant and taken back at once: the black pawn that stood on e5 before
    the move is not put back, and the en-passant square e6 is gone.  After
    1.e4, the reply e5 played and taken back leaves the en-passant square
    e6 instead of e3 and the move number 2 instead of 1. *)
Theorem undo_is_not_the_inverse_of_move :
  (g ← afterEnPassantLine;
   let played := Game.move g (request "d5" "e6") in
   let back := (Game.undo played.2).2 in
   Some (enPassant <$> played.1,
         Board.getPiece (Game.board g) "e5", Board.getPiece (Game.board back) "e5",
         Game.enPassantSquare g, Game.enPassantSquare back))
  = Some (Some true, Some {| type := pawn; color := black |}, None,
          Some "e6"%string, None)
  ∧ (g ← playAll (Game.new None) [request "e2" "e4"];
     let played := Game.move g (request "e7" "e5") in
     let back := (Game.undo played.2).2 in
     Some (enPassant <$> played.1, bool_decide (Game.board back = Game.board g),
           Game.enPassantSquare g, Game.enPassantSquare back,
           Game.fullMoveNumber g, Game.fullMoveNumber back))
    = Some (Some false, true, Some "e3"%string, Some "e6"%string, 1, 2).
Proof. vm_compute. split; reflexivity. Qed.

(** * The board, the notations, the game and the engines in detail *)

(** ** Reading and writing squares *)

Lemma getPiece_invalid b sq : Board.isValidSquare sq = false → Board.getPiece b sq = None.
Proof.
  unfold Board.isValidSquare, Board.getPiece. by destruct (Board.squareToCoords sq).
Qed.

Lemma getPiece_setPiece b sq sq' p :
  Board.wf b →
  Board.getPiece (Board.setPiece b sq p) sq'
  = if Board.isValidSquare sq && String.eqb sq' sq then p else Board.getPiece b sq'.
Proof.
  intros Hwf. unfold Board.isValidSquare.
  destruct (Board.squareToCoords sq) as [co|] eqn:Hsq; cbn [andb].
  - pose proof (indices_lt _ _ Hsq) as [Hr Hc].
    rewrite (setPiece_put _ _ _ _ Hsq).
    destruct (String.eqb_spec sq' sq) as [->|Hne].
    + rewrite (getPiece_cell _ _ _ Hsq), cell_put by done. by rewrite decide_True.
    + destruct (Board.squareToCoords sq') as [co'|] eqn:Hsq'.
      * rewrite !(getPiece_cell _ _ _ Hsq'), cell_put by done.
        rewrite decide_False; [done|]. intros [H1 H2]. apply Hne.
        apply (indices_inj _ _ _ _ Hsq' Hsq). by apply injective_projections.
      * unfold Board.getPiece. by rewrite Hsq'.
  - unfold Board.setPiece. by rewrite Hsq.
Qed.

Lemma getPiece_movePiece b from to sq :
  Board.wf b →
  Board.getPiece (Board.movePiece b from to) sq
  = if Board.isValidSquare from && Board.isValidSquare to then
      if String.eqb sq from then None
      else if String.eqb sq to then Board.getPiece b from
      else Board.getPiece b sq
    else Board.getPiece b sq.
Proof.
  intros Hwf. unfold Board.isValidSquare.
  destruct (Board.squareToCoords from) as [fc|] eqn:Hf; cbn [andb];
    [|unfold Board.movePiece; by rewrite Hf].
  destruct (Board.squareToCoords to) as [tc|] eqn:Ht;
    [|unfold Board.movePiece; by rewrite Hf, Ht].
  rewrite (movePiece_put _ _ _ _ _ Hf Ht).
  rewrite <- (setPiece_put _ _ _ _ Ht), <- (setPiece_put _ _ _ _ Hf).
  rewrite <- (getPiece_cell _ _ _ Hf).
  rewrite !getPiece_setPiece by auto using wf_setPiece.
  unfold Board.isValidSquare. rewrite Hf, Ht. cbn [andb].
  by destruct (String.eqb sq from).
Qed.

(** X1. A text is a square with coordinates [co] exactly when [co] is
    rendered as that text: [squareToCoords] and [coordsToSquare] are
    inverse to each other. *)
Theorem square_notation_round_trip (sq : string) (co : Coordinates) :
  Board.squareToCoords sq = Some co
  ↔ Board.coordsToSquare (row co) (col co) = Some sq.
Proof.
  split.
  - by intros (_ & _ & H)%squareToCoords_Some.
  - intros (_ & _ & H)%coordsToSquare_Some. by destruct co.
Qed.

(** X2. On an 8 by 8 grid, [setPiece] changes the named square and no
    other, and does nothing at all when the name is not a square. *)
Theorem setPiece_then_getPiece (b : list (list (option Piece)))
  (sq sq' : string) (p : option Piece) :
  Board.wf b →
  Board.wf (Board.setPiece b sq p)
  ∧ Board.getPiece (Board.setPiece b sq p) sq'
    = (if Board.isValidSquare sq && String.eqb sq' sq then p
       else Board.getPiece b sq')
  ∧ (Board.isValidSquare sq = false → Board.setPiece b sq p = b).
Proof.
  intros Hwf. split; [by apply wf_setPiece|]. split; [by apply getPiece_setPiece|].
  unfold Board.isValidSquare, Board.setPiece.
  by destruct (Board.squareToCoords sq).
Qed.

Lemma setPiece_then_getPiece_witness :
  Board.wf (Board.setPiece Board.setupStartingPosition "e4"
              (Some {| type := queen; color := white |}))
  ∧ Board.getPiece
      (Board.setPiece Board.setupStartingPosition "e4"
         (Some {| type := queen; color := white |})) "e2"
    = (if Board.isValidSquare "e4" && String.eqb "e2" "e4"
       then Some {| type := queen; color := white |}
       else Board.getPiece Board.setupStartingPosition "e2")
  ∧ (Board.isValidSquare "e4" = false →
     Board.setPiece Board.setupStartingPosition "e4"
       (Some {| type := queen; color := white |}) = Board.setupStartingPosition).
Proof.
  apply (setPiece_then_getPiece Board.setupStartingPosition "e4" "e2").
  split; [reflexivity|repeat constructor].
Defined.

(** X3. On an 8 by 8 grid, [movePiece] empties the origin, puts what
    stood there on the target and leaves every other square alone; when
    origin and target are the same square it ends up empty; when one of the
    two names is not a square nothing moves. *)
Theorem movePiece_effect (b : list (list (option Piece))) (from to sq : string) :
  Board.wf b →
  Board.getPiece (Board.movePiece b from to) sq
  = (if Board.isValidSquare from && Board.isValidSquare to then
       if String.eqb sq from then None
       else if String.eqb sq to then Board.getPiece b from
       else Board.getPiece b sq
     else Board.getPiece b sq)
  ∧ (Board.isValidSquare from = true →
     Board.getPiece (Board.movePiece b from from) from = None).
Proof.
  intros Hwf. split; [by apply getPiece_movePiece|].
  intros Hv. rewrite getPiece_movePiece, Hv by done. cbn.
  by rewrite String.eqb_refl.
Qed.

Lemma movePiece_effect_witness :
  Board.getPiece (Board.movePiece Board.setupStartingPosition "e2" "e4") "e4"
  = (if Board.isValidSquare "e2" && Board.isValidSquare "e4" then
       if String.eqb "e4" "e2" then None
       else if String.eqb "e4" "e4"
            then Board.getPiece Board.setupStartingPosition "e2"
            else Board.getPiece Board.setupStartingPosition "e4"
     else Board.getPiece Board.setupStartingPosition "e4")
  ∧ (Board.isValidSquare "e2" = true →
     Board.getPiece (Board.movePiece Board.setupStartingPosition "e2" "e2") "e2"
     = None).
Proof.
  apply (movePiece_effect Board.setupStartingPosition "e2" "e4" "e4").
  split; [reflexivity|repeat constructor].
Defined.

(** ** Searching the board *)

Lemma coordsToSquare_inside (r c : Z) :
  0 ≤ r ≤ 7 → 0 ≤ c ≤ 7 → is_Some (Board.coordsToSquare r c).
Proof.
  intros Hr Hc. apply small_cases in Hr, Hc.
  destruct Hr as [->|[->|[->|[->|[->|[->|[->| ->]]]]]]];
    destruct Hc as [->|[->|[->|[->|[->|[->|[->| ->]]]]]]];
    vm_compute; eauto.
Qed.

Lemma coordsToSquare_scan rc :
  rc ∈ Board.scan →
  ∃ sq, Board.coordsToSquare (Z.of_nat rc.1) (Z.of_nat rc.2) = Some sq
        ∧ ∀ b, Board.getPiece b sq = Board.cell b rc.1 rc.2.
Proof.
  intros [Hr Hc]%scan_lt.
  destruct (Board.coordsToSquare (Z.of_nat rc.1) (Z.of_nat rc.2)) as [sq|] eqn:E.
  - exists sq. split; [done|]. intros b.
    apply coordsToSquare_Some in E as (_ & _ & E).
    rewrite (getPiece_cell _ _ _ E). unfold indices. cbn. by rewrite !Nat2Z.id.
  - destruct (coordsToSquare_inside (Z.of_nat rc.1) (Z.of_nat rc.2)) as [sq Hsq];
      [lia..|]. congruence.
Qed.

Lemma findPieces_inv b c sq p :
  (sq, p) ∈ Board.findPieces b c → Board.getPiece b sq = Some p ∧ color p = c.
Proof.
  unfold Board.findPieces. intros (rc & Hin & Hrc)%list_elem_of_bind.
  destruct (coordsToSquare_scan rc Hrc) as (sq' & Hsq' & Hget).
  destruct (Board.cell b rc.1 rc.2) as [q|] eqn:Hcell; [|by apply elem_of_nil in Hin].
  case_bool_decide as Hcol; [|by apply elem_of_nil in Hin].
  rewrite Hsq' in Hin. apply list_elem_of_singleton in Hin as [= -> ->].
  by rewrite Hget.
Qed.

(** X4. [findPieces] lists exactly the occupied squares of the given
    colour, each with the piece that stands on it. *)
Theorem findPieces_spec (b : list (list (option Piece))) (c : Color)
  (sq : string) (p : Piece) :
  (sq, p) ∈ Board.findPieces b c ↔ Board.getPiece b sq = Some p ∧ color p = c.
Proof.
  split; [apply findPieces_inv|]. intros [Hget <-]. by apply findPieces_elem.
Qed.

Lemma findKing_Some b c sq :
  Board.findKing b c = Some sq →
  Board.getPiece b sq = Some {| type := king; color := c |}.
Proof.
  unfold Board.findKing.
  destruct (List.find _ _) as [rc|] eqn:E; [|done]. intros Hsq.
  apply find_some in E as [Hin Hking]. apply list_elem_of_In in Hin.
  destruct (coordsToSquare_scan rc Hin) as (sq' & Hsq' & Hget).
  rewrite Hsq in Hsq'. injection Hsq' as <-. rewrite Hget.
  unfold Board.isKingOf in Hking.
  destruct (Board.cell b rc.1 rc.2) as [[t k]|]; [|done].
  apply andb_true_iff in Hking as [Ht Hk].
  apply bool_decide_eq_true in Ht, Hk. cbn in *. by subst.
Qed.

Lemma findKing_None b c sq :
  Board.findKing b c = None → isPiece king c (Board.getPiece b sq) = false.
Proof.
  unfold Board.findKing.
  destruct (List.find _ _) as [rc|] eqn:E.
  - apply find_some in E as [Hin _]. apply list_elem_of_In in Hin.
    destruct (coordsToSquare_scan rc Hin) as (sq' & -> & _). done.
  - intros _. destruct (Board.squareToCoords sq) as [co|] eqn:Hsq.
    + rewrite (getPiece_cell _ _ _ Hsq).
      pose proof (indices_lt _ _ Hsq) as [Hr Hc].
      apply (find_none _ _ E (indices co)).
      apply list_elem_of_In. destruct (indices co). by apply scan_elem.
    + unfold Board.getPiece. by rewrite Hsq.
Qed.

(** X5. [findKing] answers with a square that holds a king of the asked
    colour, and answers [null] only when no square holds one. *)
Theorem findKing_spec (b : list (list (option Piece))) (c : Color) :
  match Board.findKing b c with
  | Some sq => Board.getPiece b sq = Some {| type := king; color := c |}
  | None => ∀ sq, isPiece king c (Board.getPiece b sq) = false
  end.
Proof.
  destruct (Board.findKing b c) as [sq|] eqn:E.
  - by apply findKing_Some.
  - intros sq. by apply findKing_None.
Qed.

(** ** Targets of the piece movement patterns *)

Lemma slide_free steps b c : ∀ r k dr dk tc,
  tc ∈ slide steps b c r k dr dk → freeFor b c tc.
Proof.
  induction steps as [|n IH]; intros r k dr dk tc; cbn [slide].
  - by intros ?%elem_of_nil.
  - destruct (Board.isValidCoords r k) eqn:Hv; [|by intros ?%elem_of_nil].
    destruct (Board.getPieceAt b r k) as [q|] eqn:Hq.
    + case_bool_decide as Hc; [|by intros ?%elem_of_nil].
      intros ->%list_elem_of_singleton. split; [done|]. cbn. intros p. rewrite Hq.
      by intros [= <-].
    + intros [->|Hin]%elem_of_cons; [|by eapply IH].
      split; [done|]. cbn. intros p. by rewrite Hq.
Qed.

Lemma getSlidingMoves_free b from c dirs tc :
  tc ∈ getSlidingMoves b from c dirs → freeFor b c tc.
Proof.
  unfold getSlidingMoves. intros (d & Hin & _)%list_elem_of_bind.
  by eapply slide_free.
Qed.

Lemma getJumpMoves_free b from c dirs tc :
  tc ∈ getJumpMoves b from c dirs → freeFor b c tc.
Proof.
  unfold getJumpMoves. intros (d & Hin & _)%list_elem_of_bind.
  destruct (Board.isValidCoords _ _) eqn:Hv; [|by apply elem_of_nil in Hin].
  destruct (Board.getPieceAt b _ _) as [q|] eqn:Hq.
  - case_bool_decide as Hc; [|by apply elem_of_nil in Hin].
    apply list_elem_of_singleton in Hin as ->. split; [done|]. cbn. intros p.
    rewrite Hq. by intros [= <-].
  - apply list_elem_of_singleton in Hin as ->. split; [done|]. cbn. intros p.
    by rewrite Hq.
Qed.

Lemma getPawnMoves_free b from c tc :
  tc ∈ getPawnMoves b from c → freeFor b c tc.
Proof.
  unfold getPawnMoves. destruct from as [r k].
  intros [Hin|Hin]%elem_of_app.
  - destruct (_ && _) eqn:H1; [|by apply elem_of_nil in Hin].
    apply andb_true_iff in H1 as [Hv He]. apply bool_decide_eq_true in He.
    apply elem_of_cons in Hin as [->|Hin].
    + split; [done|]. cbn. intros p. by rewrite He.
    + destruct (_ && _) eqn:H2 in Hin; [|by apply elem_of_nil in Hin].
      apply andb_true_iff in H2 as [H2 He2]. apply andb_true_iff in H2 as [_ Hv2].
      apply bool_decide_eq_true in He2.
      apply list_elem_of_singleton in Hin as ->.
      split; [done|]. cbn. intros p. by rewrite He2.
  - apply list_elem_of_bind in Hin as (o & Hin & _).
    destruct (Board.isValidCoords _ _) eqn:Hv; [|by apply elem_of_nil in Hin].
    destruct (Board.getPieceAt b _ _) as [q|] eqn:Hq; [|by apply elem_of_nil in Hin].
    case_bool_decide as Hc; [|by apply elem_of_nil in Hin].
    apply list_elem_of_singleton in Hin as ->. split; [done|]. cbn. intros p.
    rewrite Hq. by intros [= <-].
Qed.

Lemma getPseudoLegalMoves_free b from t c tc :
  tc ∈ getPseudoLegalMoves b from t c → freeFor b c tc.
Proof.
  destruct t; cbn [getPseudoLegalMoves];
    eauto using getPawnMoves_free, getJumpMoves_free, getSlidingMoves_free.
Qed.

(** X6. Whatever the piece, a pseudo-legal target lies on the board and
    is empty or held by the other colour. *)
Theorem pseudo_legal_targets (b : list (list (option Piece))) (from : Coordinates)
  (t : PieceType) (c : Color) (tc : Coordinates) :
  tc ∈ getPseudoLegalMoves b from t c →
  Board.isValidCoords (row tc) (col tc) = true
  ∧ ∀ p, Board.getPieceAt b (row tc) (col tc) = Some p → color p ≠ c.
Proof. apply getPseudoLegalMoves_free. Qed.

Lemma pseudo_legal_targets_witness :
  Board.isValidCoords 2 0 = true
  ∧ ∀ p, Board.getPieceAt Board.setupStartingPosition 2 0 = Some p → color p ≠ white.
Proof.
  apply (pseudo_legal_targets Board.setupStartingPosition {| row := 0; col := 1 |}
           knight white {| row := 2; col := 0 |}).
  vm_compute. left.
Defined.

(** ** The fields of generated moves *)

Lemma getPieceAt_getPiece b r k sq :
  Board.coordsToSquare r k = Some sq → Board.getPieceAt b r k = Board.getPiece b sq.
Proof.
  intros (_ & _ & H)%coordsToSquare_Some.
  by rewrite (getPiece_cell _ _ _ H), <- (getPieceAt_cell _ _ _ H).
Qed.

Lemma castlingMove_squares c side :
  Board.isValidSquare (from (MoveGenerator.castlingMove c side)) = true
  ∧ Board.isValidSquare (to (MoveGenerator.castlingMove c side)) = true.
Proof. by destruct c, side. Qed.

Lemma getEnPassantMove_fields this sq c m :
  MoveGenerator.getEnPassantMove this sq c = Some m →
  from m = sq ∧ piece m = {| type := pawn; color := c |}
  ∧ MoveGenerator.enPassantSquare this = Some (to m)
  ∧ Board.isValidSquare (to m) = true ∧ promotion m = None ∧ castling m = None.
Proof.
  unfold MoveGenerator.getEnPassantMove, Board.isValidSquare.
  destruct (MoveGenerator.enPassantSquare this) as [ep|]; [|done].
  destruct (negb _); [done|].
  destruct (Board.squareToCoords sq); [|done].
  destruct (Board.squareToCoords ep) eqn:E; [|done].
  destruct (negb _); [done|]. destruct (negb _); [done|].
  intros [= <-]. cbn. by rewrite E.
Qed.

Lemma castling_target_empty this c side :
  match side with
  | kingside => MoveGenerator.canCastleKingside this c
  | queenside => MoveGenerator.canCastleQueenside this c
  end = true →
  Board.getPiece (MoveGenerator.board this) (from (MoveGenerator.castlingMove c side))
  = Some {| type := king; color := c |}
  ∧ Board.getPiece (MoveGenerator.board this) (to (MoveGenerator.castlingMove c side))
    = None.
Proof.
  destruct side.
  - by intros (He & _ & _ & Hg & _)%canCastleKingside_facts.
  - by intros (He & _ & _ & Hc & _)%canCastleQueenside_facts.
Qed.

(** X7. Every generated move starts on a square of the board that holds
    the moving piece, which is of the asked colour, and ends on a square of
    the board. *)
Theorem generated_move_origin (this : MoveGenerator.t) (c : Color) (m : Move) :
  m ∈ MoveGenerator.generateLegalMoves this c →
  Board.getPiece (MoveGenerator.board this) (from m) = Some (piece m)
  ∧ color (piece m) = c
  ∧ Board.isValidSquare (from m) = true
  ∧ Board.isValidSquare (to m) = true.
Proof.
  intros (sq & p & fc & Hp & Hc & Hsq & Hkind)%generateLegalMoves_kind.
  assert (Board.isValidSquare sq = true) as Hv
    by (unfold Board.isValidSquare; by rewrite Hsq).
  destruct Hkind as [tc target Htc Htarget Hlegal Hm|Hpawn Hep|side Hking -> Hcan].
  - assert (Board.isValidSquare target = true) as Hvt.
    { apply coordsToSquare_Some in Htarget as (_ & _ & E).
      unfold Board.isValidSquare. by rewrite E. }
    destruct Hm as [[-> _]|[_ (pp & _ & ->)]]; done.
  - apply getEnPassantMove_fields in Hep as (-> & Hpiece & _ & Hvt & _).
    rewrite Hpiece. repeat split; try done.
    rewrite Hp. f_equal. destruct p. cbn in *. by subst.
  - apply castling_target_empty in Hcan as [He _].
    pose proof (castlingMove_squares c side) as [? ?]. done.
Qed.

Lemma generated_move_origin_witness :
  Board.getPiece (MoveGenerator.board (Game.moveGenerator (Game.new None)))
    (from (plainMove "b1" "a3" {| type := knight; color := white |} None))
  = Some (piece (plainMove "b1" "a3" {| type := knight; color := white |} None))
  ∧ color (piece (plainMove "b1" "a3" {| type := knight; color := white |} None))
    = white
  ∧ Board.isValidSquare
      (from (plainMove "b1" "a3" {| type := knight; color := white |} None)) = true
  ∧ Board.isValidSquare
      (to (plainMove "b1" "a3" {| type := knight; color := white |} None)) = true.
Proof.
  apply (generated_move_origin (Game.moveGenerator (Game.new None)) white).
  vm_compute. left.
Defined.

(** X8. A generated move other than an en-passant capture records as
    captured exactly what stands on its target, and that is never a piece of
    the mover's colour. *)
Theorem generated_move_capture (this : MoveGenerator.t) (c : Color) (m : Move) :
  m ∈ MoveGenerator.generateLegalMoves this c →
  enPassant m = false →
  captured m = Board.getPiece (MoveGenerator.board this) (to m)
  ∧ ∀ q, captured m = Some q → color q ≠ c.
Proof.
  intros (sq & p & fc & Hp & Hc & Hsq & Hkind)%generateLegalMoves_kind Hno.
  destruct Hkind as [tc target Htc Htarget Hlegal Hm|Hpawn Hep|side Hking -> Hcan].
  - apply getPseudoLegalMoves_free in Htc as [_ Hfree].
    rewrite (getPieceAt_getPiece _ _ _ _ Htarget) in Hfree.
    destruct Hm as [[-> _]|[_ (pp & _ & ->)]]; done.
  - apply getEnPassantMove_flag in Hep. congruence.
  - apply castling_target_empty in Hcan as [_ Hempty].
    rewrite Hempty. done.
Qed.

Lemma generated_move_capture_witness :
  captured (plainMove "b1" "a3" {| type := knight; color := white |} None)
  = Board.getPiece (MoveGenerator.board (Game.moveGenerator (Game.new None)))
      (to (plainMove "b1" "a3" {| type := knight; color := white |} None))
  ∧ ∀ q, captured (plainMove "b1" "a3" {| type := knight; color := white |} None)
         = Some q → color q ≠ white.
Proof.
  apply (generated_move_capture (Game.moveGenerator (Game.new None)) white).
  - vm_compute. left.
  - reflexivity.
Defined.

(** X9. A generated move other than an en-passant capture carries a
    promotion exactly when a pawn reaches its last rank, and then the
    promotion is to a queen, a rook, a bishop or a knight. *)
Theorem generated_move_promotion (this : MoveGenerator.t) (c : Color) (m : Move) :
  m ∈ MoveGenerator.generateLegalMoves this c →
  enPassant m = false →
  promotion m
  ∈ (if bool_decide (type (piece m) = pawn) && reachesLastRank m
     then Some <$> MoveGenerator.promotionPieces else [None]).
Proof.
  intros (sq & p & fc & Hp & Hc & Hsq & Hkind)%generateLegalMoves_kind Hno.
  destruct Hkind as [tc target Htc Htarget Hlegal Hm|Hpawn Hep|side Hking -> Hcan].
  - assert (∀ pr, reachesLastRank
                    {| from := sq; to := target; piece := p;
                       captured := Board.getPiece (MoveGenerator.board this) target;
                       promotion := pr; castling := None; enPassant := false;
                       san := None; check := false; checkmate := false |}
                  = MoveGenerator.isPawnPromotionRank (row tc) c) as Hlast.
    { intros pr. unfold reachesLastRank. cbn.
      apply coordsToSquare_Some in Htarget as (_ & _ & ->). cbn. by rewrite Hc. }
    destruct Hm as [[-> Hpromo]|[Hpromo (pp & Hpp & ->)]].
    + unfold plainMove. rewrite Hlast. cbn [piece promotion]. rewrite Hpromo.
      by left.
    + unfold withPromotion, plainMove. cbn [from to piece captured promotion
        castling enPassant san check checkmate].
      rewrite Hlast, Hpromo. by apply list_elem_of_fmap_2.
  - apply getEnPassantMove_flag in Hep. congruence.
  - cbn. by left.
Qed.

Lemma generated_move_promotion_witness :
  promotion (plainMove "b1" "a3" {| type := knight; color := white |} None)
  ∈ (if bool_decide
          (type (piece (plainMove "b1" "a3" {| type := knight; color := white |} None))
           = pawn)
        && reachesLastRank
             (plainMove "b1" "a3" {| type := knight; color := white |} None)
     then Some <$> MoveGenerator.promotionPieces else [None]).
Proof.
  apply (generated_move_promotion (Game.moveGenerator (Game.new None)) white).
  - vm_compute. left.
  - reflexivity.
Defined.

(** ** Texts: splitting and trimming *)

Lemma append_cons c s1 s2 : String c s1 +++ s2 = String c (s1 +++ s2).
Proof. done. Qed.

Lemma append_nil s : EmptyString +++ s = s.
Proof. done. Qed.

Lemma append_nil_r s : s +++ EmptyString = s.
Proof. induction s as [|c s IH]; [done|]. rewrite append_cons. by f_equal. Qed.

Lemma append_assoc s1 s2 s3 : (s1 +++ s2) +++ s3 = s1 +++ s2 +++ s3.
Proof. induction s1 as [|c s1 IH]; [done|]. rewrite !append_cons. by f_equal. Qed.

Lemma allChars_app P s1 s2 :
  allChars P (s1 +++ s2) = allChars P s1 && allChars P s2.
Proof.
  induction s1 as [|c s1 IH]; [done|]. rewrite append_cons. cbn.
  rewrite IH. by rewrite andb_assoc.
Qed.

Lemma allChars_impl (P Q : ascii → bool) s :
  (∀ c, P c = true → Q c = true) → allChars P s = true → allChars Q s = true.
Proof.
  intros HPQ. induction s as [|c s IH]; [done|]. cbn.
  intros [Hc Hs]%andb_true_iff. rewrite (HPQ c Hc). by apply IH.
Qed.

Lemma splitOn_free sep s :
  allChars (λ c, negb (Ascii.eqb c sep)) s = true → splitOn sep s = [s].
Proof.
  induction s as [|c s IH]; [done|]. cbn.
  intros [Hc Hs]%andb_true_iff. apply negb_true_iff in Hc. rewrite Hc.
  by rewrite (IH Hs).
Qed.

Lemma splitOn_app sep s1 s2 :
  allChars (λ c, negb (Ascii.eqb c sep)) s1 = true →
  splitOn sep (s1 +++ String sep s2) = s1 :: splitOn sep s2.
Proof.
  induction s1 as [|c s1 IH]; rewrite ?append_cons, ?append_nil; cbn.
  - intros _. by rewrite Ascii.eqb_refl.
  - intros [Hc Hs]%andb_true_iff. apply negb_true_iff in Hc. rewrite Hc.
    by rewrite (IH Hs).
Qed.

Lemma splitOn_concat sep (fields : list string) :
  fields ≠ [] →
  Forall (λ s, allChars (λ c, negb (Ascii.eqb c sep)) s = true) fields →
  splitOn sep (String.concat (String sep EmptyString) fields) = fields.
Proof.
  induction fields as [|s [|s' rest] IH]; [done|..]; intros _ Hall.
  - cbn. apply splitOn_free. by apply Forall_inv in Hall.
  - apply Forall_cons in Hall as [Hs Hall].
    change (String.concat (String sep EmptyString) (s :: s' :: rest))
      with (s +++ String sep (String.concat (String sep EmptyString) (s' :: rest))).
    rewrite splitOn_app by done. f_equal. by apply IH.
Qed.

Lemma splitBlanks_field s gap :
  isField s = true → splitBlanks s gap = [s].
Proof.
  unfold isField. intros [_ H]%andb_true_iff. revert gap H.
  induction s as [|c s IH]; intros gap; [done|]. cbn.
  intros [Hc Hs]%andb_true_iff. apply negb_true_iff in Hc. rewrite Hc.
  by rewrite (IH false Hs).
Qed.

Lemma splitBlanks_gap s :
  isField s = true → ∀ rest, splitBlanks (s +++ rest) true = splitBlanks (s +++ rest) false.
Proof.
  unfold isField. destruct s as [|c s]; [done|]. intros H rest.
  rewrite append_cons. cbn in *.
  apply andb_true_iff in H as [Hc _]. apply negb_true_iff in Hc. by rewrite Hc.
Qed.

Lemma splitBlanks_app s1 s2 :
  allChars (λ c, negb (isSpace c)) s1 = true →
  splitBlanks (s1 +++ String " " s2) false = s1 :: splitBlanks s2 true.
Proof.
  induction s1 as [|c s1 IH]; rewrite ?append_cons, ?append_nil; cbn; [done|].
  intros [Hc Hs]%andb_true_iff. apply negb_true_iff in Hc. rewrite Hc.
  by rewrite (IH Hs).
Qed.

Lemma concat_cons2 sep (s s' : string) rest :
  String.concat sep (s :: s' :: rest) = s +++ sep +++ String.concat sep (s' :: rest).
Proof. done. Qed.

Lemma concat_head sep (s : string) rest :
  ∃ tail, String.concat sep (s :: rest) = s +++ tail.
Proof.
  destruct rest as [|s' rest].
  - exists EmptyString. cbn. induction s; [done|]. rewrite append_cons. by f_equal.
  - by eexists.
Qed.

Lemma splitBlanks_concat (fields : list string) :
  fields ≠ [] → Forall (λ s, isField s = true) fields →
  splitBlanks (String.concat " " fields) false = fields.
Proof.
  induction fields as [|s [|s' rest] IH]; [done|..]; intros _ Hall.
  - cbn. apply splitBlanks_field. by apply Forall_inv in Hall.
  - apply Forall_cons in Hall as [Hs Hall].
    rewrite concat_cons2. change (" " +++ ?x)%string with (String " " x).
    rewrite splitBlanks_app
      by (unfold isField in Hs; by apply andb_true_iff in Hs as [_ ?]).
    f_equal. destruct (concat_head " " s' rest) as [tail Htail].
    rewrite Htail, splitBlanks_gap, <- Htail by (by apply Forall_inv in Hall).
    by apply IH.
Qed.

Lemma trimEnd_free s :
  allChars (λ c, negb (isSpace c)) s = true → trimEnd s = s.
Proof.
  induction s as [|c s IH]; [done|]. cbn.
  intros [Hc Hs]%andb_true_iff. apply negb_true_iff in Hc.
  rewrite (IH Hs), Hc. by destruct s.
Qed.

Lemma trimEnd_app s1 s2 :
  isField s2 = true → trimEnd (s1 +++ s2) = s1 +++ s2.
Proof.
  intros [Hne Hs2]%andb_true_iff.
  induction s1 as [|c s1 IH]; rewrite ?append_cons, ?append_nil.
  - by apply trimEnd_free.
  - cbn. rewrite IH. destruct (s1 +++ s2) eqn:E; [|done].
    destruct s1, s2; done.
Qed.

Lemma concat_last sep (fields : list string) (s : string) :
  ∃ front, String.concat sep (fields ++ [s]) = front +++ s.
Proof.
  induction fields as [|f [|f' rest] IH].
  - by exists EmptyString.
  - exists (f +++ sep). cbn. by rewrite append_assoc.
  - destruct IH as [front Hfront].
    exists (f +++ sep +++ front).
    change ((f :: f' :: rest) ++ [s]) with (f :: (f' :: rest) ++ [s]).
    change ((f' :: rest) ++ [s]) with (f' :: rest ++ [s]) in *.
    rewrite concat_cons2, Hfront. by rewrite !append_assoc.
Qed.

Lemma dropSpaces_field s rest : isField s = true → dropSpaces (s +++ rest) = s +++ rest.
Proof.
  unfold isField. destruct s as [|c s]; [done|]. rewrite append_cons. cbn.
  intros [Hc _]%andb_true_iff. apply negb_true_iff in Hc. by rewrite Hc.
Qed.

Lemma trim_concat (fields : list string) :
  fields ≠ [] → Forall (λ s, isField s = true) fields →
  trim (String.concat " " fields) = String.concat " " fields.
Proof.
  intros Hne Hall. unfold trim.
  destruct fields as [|s rest]; [done|].
  destruct (concat_head " " s rest) as [tail Htail].
  rewrite Htail, dropSpaces_field, <- Htail by (by apply Forall_inv in Hall).
  destruct (exists_last Hne) as (front & l & Hl). rewrite Hl in *.
  destruct (concat_last " " front l) as [pre Hpre]. rewrite Hpre.
  apply trimEnd_app. apply Forall_app in Hall as [_ Hall]. by apply Forall_inv in Hall.
Qed.

(** ** Numbers: [toString] against [parseInt] *)

Lemma digitsPrefix_acc d : ∀ acc : positive,
  digitsPrefix (NilEmpty.string_of_uint d) (Some (Z.pos acc))
  = Some (Z.pos (Pos.of_uint_acc d acc)).
Proof.
  induction d; intros acc; cbn [NilEmpty.string_of_uint digitsPrefix Pos.of_uint_acc];
    [done|..];
    match goal with
    | |- context [digitVal ?c] =>
        let v := eval vm_compute in (digitVal c) in change (digitVal c) with v
    end; cbn [default from_option id]; rewrite <- IHd; f_equal; f_equal; lia.
Qed.

Lemma digitsPrefix_zero d :
  digitsPrefix (NilEmpty.string_of_uint d) (Some 0) = Some (Z.of_N (Pos.of_uint d)).
Proof.
  induction d; cbn [NilEmpty.string_of_uint digitsPrefix Pos.of_uint];
    [done|..];
    match goal with
    | |- context [digitVal ?c] =>
        let v := eval vm_compute in (digitVal c) in change (digitVal c) with v
    end; cbn [default from_option id]; [exact IHd|..];
    match goal with
    | |- digitsPrefix _ (Some ?z) = _ =>
        let v := eval vm_compute in z in change z with v
    end; apply digitsPrefix_acc.
Qed.

Lemma digitsPrefix_uint d :
  d ≠ Decimal.Nil →
  digitsPrefix (NilEmpty.string_of_uint d) None = Some (Z.of_N (Pos.of_uint d)).
Proof.
  intros Hd. rewrite <- digitsPrefix_zero.
  destruct d; [done|..]; cbn [NilEmpty.string_of_uint digitsPrefix];
    match goal with
    | |- context [digitVal ?c] =>
        let v := eval vm_compute in (digitVal c) in change (digitVal c) with v
    end; reflexivity.
Qed.

Lemma string_of_uint_digits d : allChars isDigit (NilEmpty.string_of_uint d) = true.
Proof. induction d; [done|..]; cbn [NilEmpty.string_of_uint allChars]; by rewrite IHd. Qed.

Lemma toDouble_safe n : Z.abs n ≤ MAX_SAFE_INTEGER → toDouble n = n.
Proof.
  unfold MAX_SAFE_INTEGER. intros Hn. unfold toDouble. cbv zeta.
  destruct (Z.leb_spec (Z.log2 (Z.abs n) - 52) 0) as [|Hlog]; [done|].
  exfalso. destruct (Z.abs n) as [|a|a] eqn:Ha; [cbn in Hlog; lia| |lia].
  assert (Z.log2 (Z.pos a) < 53) as Hlt; [|lia].
  apply Z.log2_lt_pow2; [done|]. change (2 ^ 53) with 9007199254740992. lia.
Qed.

Lemma INFINITY_pos : 0 < INFINITY.
Proof. by apply Z.pow_pos_nonneg. Qed.

Lemma toDouble_pos n : 1 ≤ n → 1 ≤ toDouble n.
Proof.
  intros Hn. unfold toDouble. cbv zeta.
  destruct (Z.leb_spec (Z.log2 (Z.abs n) - 52) 0) as [|He]; [done|].
  rewrite Z.abs_eq in He by lia.
  rewrite Z.abs_eq, Z.sgn_pos, Z.mul_1_l by lia.
  remember (Z.log2 n - 52) as e eqn:Ee.
  pose proof INFINITY_pos.
  assert (1 ≤ Z.shiftr n e) as Hq.
  { rewrite Z.shiftr_div_pow2 by lia.
    pose proof (Z.log2_spec n ltac:(lia)) as [Hlow _].
    assert (0 < 2 ^ e) by (apply Z.pow_pos_nonneg; lia).
    apply Z.div_le_lower_bound; [done|].
    rewrite Z.mul_1_r. etrans; [|exact Hlow].
    apply Z.pow_le_mono_r; lia. }
  assert (∀ q, 1 ≤ q → 1 ≤ Z.min (Z.shiftl q e) INFINITY) as Hmin.
  { intros q Hq'. rewrite Z.shiftl_mul_pow2 by lia.
    assert (0 < 2 ^ e) by (apply Z.pow_pos_nonneg; lia).
    apply Z.min_glb; [nia|lia]. }
  repeat case_match; apply Hmin; lia.
Qed.

Lemma toDouble_nonneg n : 0 ≤ n → 0 ≤ toDouble n.
Proof.
  intros Hn. destruct (decide (n = 0)) as [->|]; [done|].
  pose proof (toDouble_pos n). lia.
Qed.

Lemma toString_safe n : Z.abs n ≤ MAX_SAFE_INTEGER → toString n = decimal n.
Proof.
  unfold MAX_SAFE_INTEGER. intros Hn. unfold toString. cbv zeta.
  change (2 ^ 53) with 9007199254740992.
  destruct (Z.ltb_spec (Z.abs n) 9007199254740992); [done|lia].
Qed.

Lemma decimal_pos p : decimal (Z.pos p) = NilEmpty.string_of_uint (Pos.to_uint p).
Proof.
  unfold decimal. cbn. pose proof (DecimalPos.Unsigned.to_uint_nonnil p).
  by destruct (Pos.to_uint p).
Qed.

Lemma toString_digits n :
  0 ≤ n ≤ MAX_SAFE_INTEGER →
  toString n ≠ EmptyString ∧ allChars isDigit (toString n) = true.
Proof.
  intros Hn. rewrite toString_safe by lia.
  destruct n as [|p|p]; [done| |lia]. rewrite decimal_pos.
  split; [|apply string_of_uint_digits].
  pose proof (DecimalPos.Unsigned.to_uint_nonnil p).
  by destruct (Pos.to_uint p).
Qed.

Lemma parseInt_digits s :
  s ≠ EmptyString → allChars isDigit s = true →
  parseInt s = toDouble <$> digitsPrefix s None.
Proof.
  destruct s as [|c s]; [done|]. intros _. cbn [allChars].
  intros [Hc _]%andb_true_iff. unfold parseInt. cbn [dropSpaces].
  destruct c as [[] [] [] [] [] [] [] []]; try discriminate Hc; reflexivity.
Qed.

Lemma parseInt_toString n :
  0 ≤ n ≤ MAX_SAFE_INTEGER → parseInt (toString n) = Some n.
Proof.
  intros Hn. destruct (toString_digits n Hn) as [Hne Hdig].
  rewrite parseInt_digits by done. rewrite toString_safe by lia.
  destruct n as [|p|p]; [done| |lia]. rewrite decimal_pos.
  rewrite digitsPrefix_uint by apply DecimalPos.Unsigned.to_uint_nonnil.
  rewrite DecimalPos.Unsigned.of_to. cbn [fmap option_fmap option_map].
  by rewrite toDouble_safe by lia.
Qed.

Lemma isField_digits s :
  s ≠ EmptyString → allChars isDigit s = true → isField s = true.
Proof.
  intros Hne Hdig. unfold isField. apply andb_true_iff. split.
  - apply negb_true_iff. by apply String.eqb_neq.
  - revert Hdig. apply allChars_impl. intros c.
    destruct c as [[] [] [] [] [] [] [] []]; done.
Qed.

(** ** Ranks: [generateRank] against [parseRank] *)

Lemma setPieceAt_insert b ri (c : nat) v line :
  0 ≤ ri ≤ 7 → (c < 8)%nat →
  b !! Z.to_nat (7 - ri) = Some line →
  Board.setPieceAt b (7 - ri) (Z.of_nat c) v
  = <[Z.to_nat (7 - ri) := <[c := v]> line]> b.
Proof.
  intros Hri Hc Hline. unfold Board.setPieceAt, Board.put.
  replace (_ || _) with false by (symmetry; lia). rewrite Nat2Z.id.
  pose proof (lookup_lt_Some _ _ _ Hline) as Hlt.
  apply list_eq. intros i. destruct (decide (i = Z.to_nat (7 - ri))) as [->|Hne].
  - rewrite list_lookup_alter_eq, list_lookup_insert_eq, Hline by done. done.
  - by rewrite list_lookup_alter_ne, list_lookup_insert_ne.
Qed.

Lemma parseRank_count (k : nat) rest ri (fi : nat) b :
  (k ≤ 8)%nat → (k = 0 ∨ fi < 8)%nat →
  FenParser.parseRank
    ((if 0 <? Z.of_nat k then toString (Z.of_nat k) else EmptyString) +++ rest)
    ri (Z.of_nat fi) b
  = FenParser.parseRank rest ri (Z.of_nat (fi + k)) b.
Proof.
  intros Hk Hfi.
  destruct k as [|k]; [by rewrite Nat.add_0_r|].
  destruct Hfi as [|Hfi]; [done|].
  replace (0 <? Z.of_nat (S k)) with true by (symmetry; apply Z.ltb_lt; lia).
  rewrite Nat2Z.inj_add.
  assert (S k = 1 ∨ S k = 2 ∨ S k = 3 ∨ S k = 4 ∨ S k = 5 ∨ S k = 6 ∨ S k = 7
          ∨ S k = 8)%nat as Hcases by lia.
  destruct Hcases as [->|[->|[->|[->|[->|[->|[->| ->]]]]]]];
    match goal with
    | |- context [toString ?z] =>
        let v := eval vm_compute in (toString z) in change (toString z) with v
    end; rewrite append_cons, append_nil; cbn [FenParser.parseRank];
    (replace (8 <=? Z.of_nat fi) with false by (symmetry; lia));
    match goal with
    | |- context [digitVal ?c] =>
        let v := eval vm_compute in (digitVal c) in change (digitVal c) with v
    end; reflexivity.
Qed.

Lemma parseRank_piece p rest ri (fi : nat) b :
  (fi < 8)%nat →
  FenParser.parseRank (FenParser.pieceToChar p +++ rest) ri (Z.of_nat fi) b
  = FenParser.parseRank rest ri (Z.of_nat fi + 1)
      (Board.setPieceAt b (7 - ri) (Z.of_nat fi) (Some p)).
Proof.
  intros Hfi.
  destruct p as [[] []];
    match goal with
    | |- context [FenParser.pieceToChar ?q] =>
        let v := eval vm_compute in (FenParser.pieceToChar q) in
        change (FenParser.pieceToChar q) with v
    end;
    rewrite append_cons, append_nil; cbn [FenParser.parseRank];
    (replace (8 <=? Z.of_nat fi) with false by (symmetry; lia));
    match goal with
    | |- context [digitVal ?c] =>
        let v := eval vm_compute in (digitVal c) in change (digitVal c) with v
    end;
    match goal with
    | |- context [FenParser.charToPiece ?c] =>
        let v := eval vm_compute in (FenParser.charToPiece c) in
        change (FenParser.charToPiece c) with v
    end; reflexivity.
Qed.

Lemma parseRank_generateRank ri cells : ∀ (k fi : nat) b pre,
  0 ≤ ri ≤ 7 →
  (fi + k + length cells = 8)%nat →
  length pre = fi →
  b !! Z.to_nat (7 - ri) = Some (pre ++ replicate (k + length cells) None) →
  FenParser.parseRank (FenParser.generateRank cells (Z.of_nat k)) ri (Z.of_nat fi) b
  = Ok (<[Z.to_nat (7 - ri) := pre ++ replicate k None ++ cells]> b, 8).
Proof.
  induction cells as [|[p|] rest IH]; intros k fi b pre Hri Hlen Hpre Hrow;
    cbn [FenParser.generateRank length] in *.
  - rewrite Nat.add_0_r in Hrow. rewrite app_nil_r, list_insert_id by done.
    match goal with
    | |- FenParser.parseRank ?s _ _ _ = _ => rewrite <- (append_nil_r s)
    end.
    rewrite parseRank_count by lia. cbn [FenParser.parseRank]. do 2 f_equal. lia.
  - rewrite parseRank_count, parseRank_piece by lia.
    pose proof (lookup_lt_Some _ _ _ Hrow) as Hlt.
    assert (pre ++ replicate (k + S (length rest)) None
            = (pre ++ replicate k None) ++ None :: replicate (length rest) None)
      as Hline.
    { rewrite replicate_add. cbn. by rewrite <- app_assoc. }
    rewrite Hline in Hrow.
    assert (fi + k < 8)%nat as Hcol by lia.
    rewrite (setPieceAt_insert _ _ (fi + k)%nat _ _ Hri Hcol Hrow).
    rewrite insert_app_r_alt, length_app, length_replicate, Hpre, Nat.sub_diag
      by (rewrite length_app, length_replicate; lia).
    cbn [insert list_insert].
    replace (Z.of_nat (fi + k) + 1) with (Z.of_nat (S (fi + k))) by lia.
    change (Z.of_nat 0) with 0 in IH.
    rewrite (IH 0%nat (S (fi + k)) _ ((pre ++ replicate k None) ++ [Some p]));
      [|done|lia| |].
    + rewrite list_insert_insert_eq. cbn. by rewrite <- !app_assoc.
    + rewrite !length_app, length_replicate. cbn. lia.
    + rewrite list_lookup_insert_eq by done. cbn. by rewrite <- !app_assoc.
  - replace (Z.of_nat k + 1) with (Z.of_nat (S k)) by lia.
    rewrite (IH (S k) fi b pre); [|done|lia|done|].
    + do 3 f_equal. rewrite replicate_S_end. by rewrite <- app_assoc.
    + rewrite Hrow. do 3 f_equal. lia.
Qed.

(** ** The piece placement: [generatePiecePlacement] against [parsePiecePlacement] *)

Lemma generateRank_chars cells : ∀ k,
  0 ≤ k → k + Z.of_nat (length cells) ≤ MAX_SAFE_INTEGER →
  allChars (λ c, isDigit c || isPieceLetter c) (FenParser.generateRank cells k) = true.
Proof.
  assert (∀ k, 0 ≤ k ≤ MAX_SAFE_INTEGER →
            allChars (λ c, isDigit c || isPieceLetter c)
              (if 0 <? k then toString k else EmptyString) = true) as Hcount.
  { intros k Hk. destruct (0 <? k); [|done].
    destruct (toString_digits k Hk) as [_ Hd]. revert Hd.
    apply allChars_impl. by intros c ->. }
  induction cells as [|[p|] rest IH]; intros k Hk Hmax;
    cbn [FenParser.generateRank length] in *.
  - apply Hcount. lia.
  - rewrite !allChars_app, Hcount, IH by (unfold MAX_SAFE_INTEGER in *; lia).
    by destruct p as [[] []].
  - apply IH; lia.
Qed.

Lemma generateRank_row_chars cells :
  length cells = 8%nat →
  allChars (λ c, isDigit c || isPieceLetter c) (FenParser.generateRank cells 0) = true.
Proof.
  intros Hlen. apply generateRank_chars; [done|].
  rewrite Hlen. unfold MAX_SAFE_INTEGER. lia.
Qed.

Lemma rowCells (b : list (list (option Piece))) (r : nat) line :
  (r < 8)%nat → b !! r = Some line → length line = 8%nat →
  (λ c : nat, Board.getPieceAt b (Z.of_nat r) (Z.of_nat c)) <$> seq 0 8 = line.
Proof.
  intros Hr Hline Hlen. apply list_eq. intros i.
  rewrite list_lookup_fmap. destruct (decide (i < 8)%nat) as [Hi|Hi].
  - rewrite lookup_seq_lt by done. cbn. unfold Board.getPieceAt, Board.cell.
    replace (_ || _) with false by (symmetry; lia). rewrite !Nat2Z.id, Hline.
    destruct (lookup_lt_is_Some_2 line i) as [o Ho]; [lia|]. rewrite Ho.
    by destruct o.
  - rewrite lookup_seq_ge, lookup_ge_None_2 by lia. done.
Qed.

Lemma parseRanks_step cells rest ri b :
  0 ≤ ri ≤ 7 → length cells = 8%nat →
  b !! Z.to_nat (7 - ri) = Some (replicate 8 None) →
  FenParser.parseRanks (FenParser.generateRank cells 0 :: rest) ri b
  = FenParser.parseRanks rest (ri + 1) (<[Z.to_nat (7 - ri) := cells]> b).
Proof.
  intros Hri Hlen Hrow. cbn [FenParser.parseRanks].
  change 0 with (Z.of_nat 0) at 1 2.
  rewrite (parseRank_generateRank ri cells 0 0 b []); try done.
  by rewrite Hlen.
Qed.

Lemma parsePiecePlacement_generate (b : list (list (option Piece))) :
  Board.wf b →
  FenParser.parsePiecePlacement (FenParser.generatePiecePlacement b) = Ok b.
Proof.
  intros [Hlen Hall].
  apply row_explode in Hlen as (r0 & r1 & r2 & r3 & r4 & r5 & r6 & r7 & ->).
  repeat match goal with
         | H : Forall _ (_ :: _) |- _ =>
             let H1 := fresh "Hrow" in apply Forall_cons in H as [H1 H]
         end.
  unfold FenParser.parsePiecePlacement, FenParser.generatePiecePlacement.
  cbn [fmap list_fmap].
  rewrite (rowCells _ 7 r7), (rowCells _ 6 r6), (rowCells _ 5 r5), (rowCells _ 4 r4),
    (rowCells _ 3 r3), (rowCells _ 2 r2), (rowCells _ 1 r1), (rowCells _ 0 r0)
    by (done || lia).
  rewrite splitOn_concat; [|done|].
  - cbn [length Nat.eqb negb].
    rewrite !parseRanks_step by (done || lia). reflexivity.
  - assert (∀ cells,
              length cells = 8%nat →
              allChars (λ c, negb (Ascii.eqb c "/")) (FenParser.generateRank cells 0)
              = true) as Hfree.
    { intros cells Hcells.
      eapply allChars_impl; [|by apply generateRank_row_chars].
      intros c. destruct c as [[] [] [] [] [] [] [] []]; done. }
    repeat apply Forall_cons_2; try apply Forall_nil_2; by apply Hfree.
Qed.

(** ** The fields of a generated FEN text *)

Lemma isSpace_code c : 32 < charCode c < 160 → isSpace c = false.
Proof.
  intros Hc. unfold isSpace. cbv zeta.
  repeat match goal with
         | |- context [?a =? ?b] => rewrite (proj2 (Z.eqb_neq a b)) by lia
         end.
  repeat match goal with
         | |- context [?a <=? ?b] =>
             first [rewrite (proj2 (Z.leb_le a b)) by lia
                   |rewrite (proj2 (Z.leb_gt a b)) by lia]
         end.
  reflexivity.
Qed.

Lemma generatePiecePlacement_field b :
  isField (FenParser.generatePiecePlacement b) = true.
Proof.
  assert (∀ cells,
            length cells = 8%nat →
            allChars (λ c, negb (isSpace c)) (FenParser.generateRank cells 0) = true)
    as Hfree.
  { intros cells Hcells.
    eapply allChars_impl; [|by apply generateRank_row_chars].
    intros c. destruct c as [[] [] [] [] [] [] [] []]; done. }
  unfold FenParser.generatePiecePlacement, isField. cbn [fmap list_fmap].
  rewrite !concat_cons2. apply andb_true_iff. split.
  - match goal with |- context [?a +++ "/" +++ ?x] => by destruct a end.
  - rewrite !allChars_app, !Hfree by done. cbn [String.concat].
    by rewrite Hfree.
Qed.

Lemma generateCastlingRights_field r :
  isField (FenParser.generateCastlingRights r) = true.
Proof. by destruct r as [[] [] [] []]. Qed.

Lemma enPassant_field ep :
  validEnPassant ep = true →
  isField (default "-"%string ep) = true
  ∧ FenParser.parseEnPassant (default "-"%string ep) = Ok ep.
Proof.
  destruct ep as [s|]; [|done]. cbn [validEnPassant default from_option id].
  unfold FenParser.parseEnPassant. intros Hs. rewrite Hs.
  destruct s as [|f [|r [|? ?]]]; try done. cbn in Hs.
  apply andb_true_iff in Hs as [Hf Hr]. apply andb_true_iff in Hf as [Hf1 Hf2].
  apply Z.leb_le in Hf1, Hf2.
  split.
  - unfold isField. cbn [String.eqb negb andb allChars].
    rewrite (isSpace_code f) by lia.
    by apply orb_true_iff in Hr as [->%Ascii.eqb_eq| ->%Ascii.eqb_eq].
  - cbn. destruct (Ascii.eqb f "-") eqn:E; [|done].
    apply Ascii.eqb_eq in E as ->. done.
Qed.

Lemma toString_field n : 0 ≤ n ≤ MAX_SAFE_INTEGER → isField (toString n) = true.
Proof. intros Hn. destruct (toString_digits n Hn). by apply isField_digits. Qed.

Lemma charToPiece_inv c :
  match FenParser.charToPiece c with
  | Some p =>
      FenParser.pieceToChar p = str c
      ∨ (c = KELVIN ∧ p = {| type := king; color := white |})
  | None => True
  end.
Proof.
  destruct c as [[] [] [] [] [] [] [] []]; vm_compute;
    first [exact I | left; reflexivity | right; split; reflexivity].
Qed.

(** The primitives at work: digits up to 2^53, the shortest digits that
    read back beyond, an exponent from 10^21 on, which [parseInt] reads up
    to the first character that is no digit, and [Infinity]. *)
Example number_texts :
  toString (2 ^ 53) = "9007199254740992"%string
  ∧ toString (toDouble (2 ^ 53 + 1)) = "9007199254740992"%string
  ∧ toString (2 ^ 60) = "1152921504606847000"%string
  ∧ toString (10 ^ 21) = "1e+21"%string
  ∧ toString (2 ^ 70) = "1.1805916207174113e+21"%string
  ∧ toString (toDouble (10 ^ 400)) = "Infinity"%string
  ∧ parseInt "1e+21" = Some 1
  ∧ parseInt "Infinity" = None
  ∧ parseInt " 12abc" = Some 12
  ∧ parseInt "-7" = Some (-7).
Proof. vm_compute. repeat split; reflexivity. Qed.

(** A text whose fields are separated by no-break spaces and whose white
    king is written with the Kelvin sign is a FEN text for the parser. *)
Example fen_with_other_white_space :
  let fen :=
    "4k3/8/8/8/8/8/8/4" +++ str KELVIN +++ "3" +++ str NBSP +++ "w" +++ str NBSP
    +++ "-" +++ str NBSP +++ "-" +++ str NBSP +++ "0" +++ str NBSP +++ "1" in
  FenParser.validate fen = true
  ∧ Game.getFen (loaded fen) = "4k3/8/8/8/8/8/8/4K3 w - - 0 1"%string.
Proof. vm_compute. split; reflexivity. Qed.

(** X10. The letter that [pieceToChar] writes for a piece is read back by
    [charToPiece] as that piece, and [charToPiece] reads no other
    character as a piece, with one exception: U+212A KELVIN SIGN, whose
    lower case is the letter k and which is its own upper case, is read as
    the white king. *)
Theorem piece_letter_round_trip (c : ascii) (p : Piece) :
  FenParser.charToPiece c = Some p
  ↔ FenParser.pieceToChar p = str c
    ∨ (c = KELVIN ∧ p = {| type := king; color := white |}).
Proof.
  split.
  - intros H. pose proof (charToPiece_inv c) as Hinv. by rewrite H in Hinv.
  - intros [H|[-> ->]]; [|reflexivity].
    destruct p as [[] []]; vm_compute in H; injection H as <-; reflexivity.
Qed.

Lemma castling_field_round_trip (r : CastlingRights) :
  FenParser.parseCastlingRights (FenParser.generateCastlingRights r) = Ok r.
Proof. by destruct r as [[] [] [] []]. Qed.

Lemma generate_fields (b : list (list (option Piece))) (turn : Color)
  (rights : CastlingRights) (ep : option string) (halfMoveClock fullMoveNumber : Z) :
  validEnPassant ep = true →
  0 ≤ halfMoveClock ≤ MAX_SAFE_INTEGER → 1 ≤ fullMoveNumber ≤ MAX_SAFE_INTEGER →
  Forall (λ s, isField s = true)
    [FenParser.generatePiecePlacement b;
     match turn with white => "w" | black => "b" end;
     FenParser.generateCastlingRights rights;
     default "-" ep; toString halfMoveClock; toString fullMoveNumber]%string.
Proof.
  intros Hep Hh Hf. destruct (enPassant_field ep Hep) as [Hepf Hepp].
  repeat apply Forall_cons_2; try apply Forall_nil_2;
    auto using generatePiecePlacement_field, generateCastlingRights_field;
    [by destruct turn|apply toString_field; lia..].
Qed.

Lemma parse_generate (b : list (list (option Piece))) (turn : Color)
  (rights : CastlingRights) (ep : option string) (halfMoveClock fullMoveNumber : Z) :
  Board.wf b → validEnPassant ep = true →
  0 ≤ halfMoveClock ≤ MAX_SAFE_INTEGER → 1 ≤ fullMoveNumber ≤ MAX_SAFE_INTEGER →
  FenParser.parse (FenParser.generate b turn rights ep halfMoveClock fullMoveNumber)
  = Ok {| fen_board := b; fen_turn := turn; fen_castlingRights := rights;
          fen_enPassantSquare := ep; fen_halfMoveClock := halfMoveClock;
          fen_fullMoveNumber := fullMoveNumber |}.
Proof.
  intros Hwf Hep Hh Hf. destruct (enPassant_field ep Hep) as [Hepf Hepp].
  pose proof (generate_fields b turn rights ep halfMoveClock fullMoveNumber Hep Hh Hf)
    as Hfields.
  unfold FenParser.parse, FenParser.generate.
  rewrite trim_concat, splitBlanks_concat by done.
  unfold mbind, Result_bind.
  rewrite parsePiecePlacement_generate by done.
  replace (FenParser.parseActiveColor _) with (Ok turn) by (by destruct turn).
  replace (FenParser.parseCastlingRights _) with (Ok rights)
    by (by destruct rights as [[] [] [] []]).
  rewrite Hepp.
  unfold FenParser.parseHalfMoveClock, FenParser.parseFullMoveNumber.
  rewrite !parseInt_toString by lia.
  replace (halfMoveClock <? 0) with false by (symmetry; lia).
  replace (fullMoveNumber <? 1) with false by (symmetry; lia).
  done.
Qed.

(** ** Writing a position and reading it back *)

Lemma isField_free s :
  isField s = true → allChars (λ c, negb (Ascii.eqb c " ")) s = true.
Proof.
  intros [_ H]%andb_true_iff. revert H. apply allChars_impl.
  intros c. by destruct (Ascii.eqb_spec c " ") as [->|].
Qed.

Lemma normalizeFEN_generate (b : list (list (option Piece))) (turn : Color)
  (rights : CastlingRights) (ep : option string) (halfMoveClock fullMoveNumber : Z) :
  validEnPassant ep = true →
  0 ≤ halfMoveClock ≤ MAX_SAFE_INTEGER → 1 ≤ fullMoveNumber ≤ MAX_SAFE_INTEGER →
  OpeningBook.normalizeFEN
    (FenParser.generate b turn rights ep halfMoveClock fullMoveNumber)
  = String.concat " "
      [FenParser.generatePiecePlacement b;
       match turn with white => "w" | black => "b" end;
       FenParser.generateCastlingRights rights; default "-" ep]%string.
Proof.
  intros Hep Hh Hf.
  pose proof (generate_fields b turn rights ep halfMoveClock fullMoveNumber Hep Hh Hf)
    as Hfields.
  unfold OpeningBook.normalizeFEN, FenParser.generate.
  rewrite splitOn_concat; [done|done|].
  eapply Forall_impl; [exact Hfields|]. intros s. apply isField_free.
Qed.

(** X11. A position that is written as a FEN text and read back is the
    same position: board, side to move, castling rights, en-passant square
    and both counters; [validate] accepts the text, and the opening book
    files it under its first four fields.  The board is an 8 by 8 grid, the
    en-passant square is absent or on the third or sixth rank, and the
    counters are in the ranges the parser accepts and not above
    [Number.MAX_SAFE_INTEGER], up to which [toString] writes every digit
    of a number. *)
Theorem fen_round_trip (b : list (list (option Piece))) (turn : Color)
  (rights : CastlingRights) (ep : option string) (halfMoveClock fullMoveNumber : Z) :
  Board.wf b → validEnPassant ep = true →
  0 ≤ halfMoveClock ≤ MAX_SAFE_INTEGER → 1 ≤ fullMoveNumber ≤ MAX_SAFE_INTEGER →
  FenParser.parse (FenParser.generate b turn rights ep halfMoveClock fullMoveNumber)
  = Ok {| fen_board := b; fen_turn := turn; fen_castlingRights := rights;
          fen_enPassantSquare := ep; fen_halfMoveClock := halfMoveClock;
          fen_fullMoveNumber := fullMoveNumber |}
  ∧ FenParser.validate (FenParser.generate b turn rights ep halfMoveClock fullMoveNumber) = true
  ∧ OpeningBook.normalizeFEN
      (FenParser.generate b turn rights ep halfMoveClock fullMoveNumber)
    = String.concat " "
        [FenParser.generatePiecePlacement b;
         match turn with white => "w" | black => "b" end;
         FenParser.generateCastlingRights rights; default "-" ep]%string.
Proof.
  intros Hwf Hep Hh Hf. split; [by apply parse_generate|]. split.
  - unfold FenParser.validate. by rewrite parse_generate.
  - by apply normalizeFEN_generate.
Qed.

Lemma fen_round_trip_witness :
  FenParser.parse
    (FenParser.generate Board.setupStartingPosition white allCastlingRights None 0 1)
  = Ok {| fen_board := Board.setupStartingPosition; fen_turn := white;
          fen_castlingRights := allCastlingRights; fen_enPassantSquare := None;
          fen_halfMoveClock := 0; fen_fullMoveNumber := 1 |}
  ∧ FenParser.validate
      (FenParser.generate Board.setupStartingPosition white allCastlingRights None 0 1)
    = true
  ∧ OpeningBook.normalizeFEN
      (FenParser.generate Board.setupStartingPosition white allCastlingRights None 0 1)
    = String.concat " "
        [FenParser.generatePiecePlacement Board.setupStartingPosition;
         match white with white => "w" | black => "b" end;
         FenParser.generateCastlingRights allCastlingRights; default "-" None]%string.
Proof.
  apply fen_round_trip; [|reflexivity|done|done].
  split; [reflexivity|repeat constructor].
Defined.

(** ** What the parser accepts *)

Lemma wf_parseRank chars : ∀ ri fi b b' fi',
  Board.wf b → FenParser.parseRank chars ri fi b = Ok (b', fi') → Board.wf b'.
Proof.
  induction chars as [|c rest IH]; intros ri fi b b' fi' Hwf; cbn [FenParser.parseRank].
  - by intros [= <- _].
  - destruct (8 <=? fi); [done|].
    destruct (digitVal c) as [n|].
    + destruct (_ || _); [done|]. by apply IH.
    + destruct (FenParser.charToPiece c) as [p|]; [|done].
      apply IH. by apply wf_setPieceAt.
Qed.

Lemma wf_parseRanks ranks : ∀ ri b b',
  Board.wf b → FenParser.parseRanks ranks ri b = Ok b' → Board.wf b'.
Proof.
  induction ranks as [|r rest IH]; intros ri b b' Hwf; cbn [FenParser.parseRanks].
  - by intros [= <-].
  - unfold mbind, Result_bind.
    destruct (FenParser.parseRank r ri 0 b) as [[b1 fi]|] eqn:Hr; [|done].
    destruct (negb _); [done|]. apply IH. by eapply wf_parseRank.
Qed.

Lemma wf_parsePiecePlacement placement b :
  FenParser.parsePiecePlacement placement = Ok b → Board.wf b.
Proof.
  unfold FenParser.parsePiecePlacement. destruct (negb _); [done|].
  apply wf_parseRanks, wf_createEmptyBoard.
Qed.

Lemma parse_accepts fen d :
  FenParser.parse fen = Ok d →
  Board.wf (fen_board d)
  ∧ validEnPassant (fen_enPassantSquare d) = true
  ∧ 0 ≤ fen_halfMoveClock d
  ∧ 1 ≤ fen_fullMoveNumber d.
Proof.
  unfold FenParser.parse.
  destruct (splitBlanks (trim fen) false)
    as [|placement [|f2 [|f3 [|f4 [|f5 [|f6 [|f7 parts]]]]]]]; try done.
  unfold mbind, Result_bind.
  destruct (FenParser.parsePiecePlacement placement) as [b|] eqn:Hb; [|done].
  destruct (FenParser.parseActiveColor f2) as [turn|]; [|done].
  destruct (FenParser.parseCastlingRights f3) as [rights|]; [|done].
  destruct (FenParser.parseEnPassant f4) as [ep|] eqn:Hep; [|done].
  destruct (FenParser.parseHalfMoveClock f5) as [h|] eqn:Hh; [|done].
  destruct (FenParser.parseFullMoveNumber f6) as [f|] eqn:Hf; [|done].
  intros [= <-]. cbn. split; [by eapply wf_parsePiecePlacement|].
  split; [|split].
  - unfold FenParser.parseEnPassant in Hep.
    destruct (String.eqb f4 "-"); [by injection Hep as <-|].
    destruct (FenParser.isEnPassantLabel f4) eqn:E; [|done].
    by injection Hep as <-.
  - unfold FenParser.parseHalfMoveClock in Hh.
    destruct (parseInt f5) as [n|]; [|done].
    destruct (n <? 0) eqn:E; [done|]. injection Hh as <-. lia.
  - unfold FenParser.parseFullMoveNumber in Hf.
    destruct (parseInt f6) as [n|]; [|done].
    destruct (n <? 1) eqn:E; [done|]. injection Hf as <-. lia.
Qed.

(** X12. A text that [validate] accepts parses to a position with an
    8 by 8 board, an en-passant square that is absent or on the third or
    sixth rank, a half-move clock of at least zero and a move number of at
    least one.  When neither counter is above [Number.MAX_SAFE_INTEGER],
    that position, written again by [generate], parses to itself. *)
Theorem validated_fen_is_regenerated (fen : string) :
  FenParser.validate fen = true →
  ∃ d, FenParser.parse fen = Ok d
       ∧ Board.wf (fen_board d)
       ∧ validEnPassant (fen_enPassantSquare d) = true
       ∧ 0 ≤ fen_halfMoveClock d
       ∧ 1 ≤ fen_fullMoveNumber d
       ∧ (fen_halfMoveClock d ≤ MAX_SAFE_INTEGER →
          fen_fullMoveNumber d ≤ MAX_SAFE_INTEGER →
          FenParser.parse (regenerate d) = Ok d).
Proof.
  unfold FenParser.validate. destruct (FenParser.parse fen) as [d|] eqn:Hd; [|done].
  intros _. exists d. split; [done|].
  destruct (parse_accepts _ _ Hd) as (Hwf & Hep & Hh & Hf).
  do 4 (split; [done|]). intros Hhmax Hfmax.
  unfold regenerate. rewrite parse_generate by done. by destruct d.
Qed.

Lemma validated_fen_is_regenerated_witness :
  ∃ d, FenParser.parse "4k3/8/8/8/8/8/8/4KB2 b - - 0 1" = Ok d
       ∧ Board.wf (fen_board d)
       ∧ validEnPassant (fen_enPassantSquare d) = true
       ∧ 0 ≤ fen_halfMoveClock d
       ∧ 1 ≤ fen_fullMoveNumber d
       ∧ (fen_halfMoveClock d ≤ MAX_SAFE_INTEGER →
          fen_fullMoveNumber d ≤ MAX_SAFE_INTEGER →
          FenParser.parse (regenerate d) = Ok d).
Proof. apply (validated_fen_is_regenerated "4k3/8/8/8/8/8/8/4KB2 b - - 0 1"). reflexivity. Defined.

(** ** The state after a move *)

Lemma updateGameStatus_frame g :
  ∃ s, Game.updateGameStatus g = Game.withStatus g s ∧ s ≠ draw.
Proof.
  unfold Game.updateGameStatus.
  repeat match goal with
         | |- context [if ?c then _ else _] => destruct c
         end; eexists; (split; [reflexivity|done]).
Qed.

Lemma validateMove_valid this o c :
  valid (MoveGenerator.validateMove this o c) = true →
  Board.isValidSquare (mo_from o) = true
  ∧ Board.isValidSquare (mo_to o) = true
  ∧ mo_from o ≠ mo_to o
  ∧ (∃ p, Board.getPiece (MoveGenerator.board this) (mo_from o) = Some p ∧ color p = c)
  ∧ ∃ m, m ∈ MoveGenerator.generateLegalMovesFrom this (mo_from o) c
         ∧ MoveGenerator.matches o m = true.
Proof.
  unfold MoveGenerator.validateMove.
  destruct (Board.isValidSquare (mo_from o)); [|done].
  destruct (Board.isValidSquare (mo_to o)); [|done]. cbn [negb orb].
  destruct (Board.getPiece _ _) as [p|]; [|done].
  case_bool_decide as Hc; [done|].
  destruct (String.eqb_spec (mo_from o) (mo_to o)) as [|Hne]; [done|].
  destruct (List.find _ _) as [m|] eqn:Hfind; [|done]. intros _.
  apply find_some in Hfind as [Hin Hm]. apply list_elem_of_In in Hin.
  repeat split; try done; [|by eauto].
  exists p. split; [done|]. by destruct (decide (color p = c)).
Qed.

Lemma move_effects (g : Game.t) (o : MoveOptions) :
  match Game.move g o with
  | (None, g') => g' = g
  | (Some m, g') =>
      from m = mo_from o ∧ to m = mo_to o ∧ promotion m = mo_promotion o
      ∧ Board.getPiece (Game.board g) (from m) = Some (piece m)
      ∧ captured m = Board.getPiece (Game.board g) (to m)
      ∧ is_Some (san m)
      ∧ Game.board g' = Game.executeMove (Game.board g) m
      ∧ Game.currentTurn g' = opposite (Game.currentTurn g)
      ∧ Game.moveHistory g' = Game.moveHistory g ++ [m]
      ∧ Game.castlingRights g'
        = Game.updateCastlingRights (Game.castlingRights g) m
      ∧ Game.halfMoveClock g'
        = (if bool_decide (type (piece m) = pawn)
              || bool_decide (is_Some (captured m))
           then 0 else toDouble (Game.halfMoveClock g + 1))
      ∧ Game.fullMoveNumber g'
        = (match Game.currentTurn g with
           | white => Game.fullMoveNumber g
           | black => toDouble (Game.fullMoveNumber g + 1)
           end)
      ∧ Game.positionHistory g' !! Game.getPositionKey g'
        = Some (S (default 0%nat
                     (Game.positionHistory g !! Game.getPositionKey g')))
      ∧ Game.gameStatus g' ≠ draw
  end.
Proof.
  unfold Game.move.
  destruct (negb _); [done|].
  destruct (Board.getPiece (Game.board g) (mo_from o)) as [p|] eqn:Hp; [|done].
  cbv zeta.
  match goal with
  | |- context [Game.updateGameStatus ?x] =>
      destruct (updateGameStatus_frame x) as (s & -> & Hs); set (g3 := x)
  end.
  cbn [Game.withStatus Game.withHistory Game.board Game.currentTurn
       Game.moveHistory Game.castlingRights Game.halfMoveClock
       Game.fullMoveNumber Game.positionHistory Game.gameStatus
       Game.enPassantSquare from to promotion piece captured san].
  repeat split; try done.
  - subst g3. unfold Game.recordPosition, Game.updateGameState.
    cbn [Game.fullMoveNumber Game.currentTurn Game.withBoard].
    by destruct (Game.currentTurn g).
  - unfold Game.getPositionKey, Game.withHistory, Game.withStatus.
    cbn [Game.board Game.currentTurn Game.castlingRights Game.enPassantSquare].
    subst g3. unfold Game.recordPosition at 1 6.
    cbn [Game.positionHistory].
    unfold Game.recordPosition, Game.getPositionKey.
    cbn [Game.board Game.currentTurn Game.castlingRights Game.enPassantSquare
         Game.positionHistory].
    rewrite lookup_insert_eq. f_equal. rewrite Nat.add_1_r. reflexivity.
Qed.


(** ** Castling rights *)

Ltac rights_cases :=
  unfold Game.updateCastlingRights;
  repeat (match goal with
          | |- context [match ?x with _ => _ end] =>
              lazymatch x with
              | context [match _ with _ => _ end] => fail
              | _ => destruct x eqn:?
              end
          end;
          cbn [whiteKingside whiteQueenside blackKingside blackQueenside implb
               orb]);
  try done; apply implb_same.

Lemma updateCastlingRights_whiteKingside r m :
  implb (whiteKingside (Game.updateCastlingRights r m)) (whiteKingside r) = true.
Proof. rights_cases. Qed.

Lemma updateCastlingRights_whiteQueenside r m :
  implb (whiteQueenside (Game.updateCastlingRights r m)) (whiteQueenside r) = true.
Proof. rights_cases. Qed.

Lemma updateCastlingRights_blackKingside r m :
  implb (blackKingside (Game.updateCastlingRights r m)) (blackKingside r) = true.
Proof. rights_cases. Qed.

Lemma updateCastlingRights_blackQueenside r m :
  implb (blackQueenside (Game.updateCastlingRights r m)) (blackQueenside r) = true.
Proof. rights_cases. Qed.

Lemma updateCastlingRights_within r m :
  rightsWithin (Game.updateCastlingRights r m) r = true.
Proof.
  unfold rightsWithin.
  by rewrite updateCastlingRights_whiteKingside, updateCastlingRights_whiteQueenside,
    updateCastlingRights_blackKingside, updateCastlingRights_blackQueenside.
Qed.

(** X14. A move never gives a castling right back: the rights after
    [updateCastlingRights] are among the rights before, and a king move
    leaves its side without any. *)
Theorem castling_rights_only_shrink (r : CastlingRights) (m : Move) :
  rightsWithin (Game.updateCastlingRights r m) r = true
  ∧ (if bool_decide (type (piece m) = king) then
       match color (piece m) with
       | white => whiteKingside (Game.updateCastlingRights r m)
                  || whiteQueenside (Game.updateCastlingRights r m)
       | black => blackKingside (Game.updateCastlingRights r m)
                  || blackQueenside (Game.updateCastlingRights r m)
       end = false
     else True).
Proof.
  split; [apply updateCastlingRights_within|].
  case_bool_decide as Hk; [|done].
  unfold Game.updateCastlingRights. rewrite (bool_decide_eq_true_2 _ Hk).
  rewrite (bool_decide_eq_false_2 (type (piece m) = rook)) by congruence.
  destruct (color (piece m)), (captured m) as [cap|];
    try destruct (bool_decide (type cap = rook));
    cbn [whiteKingside whiteQueenside blackKingside blackQueenside];
    repeat match goal with
           | |- context [String.eqb ?a ?b] => destruct (String.eqb a b)
           end; done.
Qed.

(** ** Invariants of the game *)

Lemma wf_executeMove b m : Board.wf b → Board.wf (Game.executeMove b m).
Proof.
  intros Hwf. unfold Game.executeMove, Game.executeCastling.
  repeat case_match; auto using wf_setPiece, wf_movePiece.
Qed.

Lemma wf_undoBoard b m : Board.wf b → Board.wf (Game.undoBoard b m).
Proof.
  intros Hwf. unfold Game.undoBoard, Game.undoCastling.
  repeat case_match; auto 6 using wf_setPiece, wf_movePiece.
Qed.

Lemma getPawnMoves_rows b fc c tc :
  tc ∈ getPawnMoves b fc c →
  row tc = row fc + pawnDirection c
  ∨ (row tc = row fc + pawnDirection c * 2
     ∧ row fc = match c with white => 1 | black => 6 end).
Proof.
  unfold getPawnMoves. destruct fc as [r k]. cbn [row col].
  intros [Hin|Hin]%elem_of_app.
  - destruct (_ && _) eqn:H1; [|by apply elem_of_nil in Hin].
    apply elem_of_cons in Hin as [->|Hin]; [by left|].
    match type of Hin with
    | _ ∈ (if ?c then _ else _) => destruct c eqn:H2
    end; [|by apply elem_of_nil in Hin].
    apply andb_true_iff in H2 as [H2 _]. apply andb_true_iff in H2 as [H2 _].
    apply list_elem_of_singleton in Hin as ->. right. cbn.
    split; [done|]. destruct c; lia.
  - apply list_elem_of_bind in Hin as (o & Hin & _).
    repeat case_match; try (by apply elem_of_nil in Hin);
      apply list_elem_of_singleton in Hin as ->; by left.
Qed.

Lemma square_parts sq co :
  Board.squareToCoords sq = Some co →
  ∃ f, charAt sq 0 = str f ∧ charCode f = 97 + col co
       ∧ parseInt (charAt sq 1) = Some (row co + 1).
Proof.
  intros H. pose proof (squareToCoords_Some _ _ H) as (Hr & Hc & _). revert H.
  unfold Board.squareToCoords.
  destruct sq as [|f [|rk [|? ?]]]; try done.
  destruct (parseInt (String rk EmptyString)) as [n|] eqn:Hn; [|done].
  destruct (_ || _); [done|]. intros [= <-]. exists f. cbn [row col] in *.
  change (charCode "a") with 97. repeat split; [lia|].
  change (charAt (String f (String rk EmptyString)) 1) with (String rk EmptyString).
  rewrite Hn. f_equal. lia.
Qed.

Lemma enPassant_label f n :
  97 ≤ charCode f ≤ 104 → n = 3 ∨ n = 6 →
  FenParser.isEnPassantLabel (str f +++ toString n) = true.
Proof.
  intros Hf [-> | ->]; cbn; apply andb_true_iff; (split; [|done]);
    apply andb_true_iff; split; lia.
Qed.

Lemma updateGameState_enPassant g m fc tc :
  Board.squareToCoords (from m) = Some fc →
  Board.squareToCoords (to m) = Some tc →
  (type (piece m) = pawn →
   row tc = row fc + pawnDirection (color (piece m))
   ∨ (row tc = row fc + pawnDirection (color (piece m)) * 2
      ∧ row fc = match color (piece m) with white => 1 | black => 6 end)) →
  validEnPassant (Game.enPassantSquare (Game.updateGameState g m)) = true.
Proof.
  intros Hf Ht Hrows. unfold Game.updateGameState. cbn [Game.enPassantSquare].
  case_bool_decide as Hp; [|done]. specialize (Hrows Hp).
  destruct (square_parts _ _ Hf) as (f & Hfile & Hcode & ->).
  destruct (square_parts _ _ Ht) as (_ & _ & _ & ->).
  pose proof (squareToCoords_Some _ _ Hf) as (_ & Hcol & _).
  destruct (Z.abs _ =? 2) eqn:Habs; [|done].
  rewrite Hfile. cbn [validEnPassant]. apply enPassant_label; [lia|].
  destruct (color (piece m)); cbn [pawnDirection] in *; lia.
Qed.

Lemma legal_pawn_rows this sq c m fc tc :
  m ∈ MoveGenerator.generateLegalMovesFrom this sq c →
  Board.squareToCoords (from m) = Some fc →
  Board.squareToCoords (to m) = Some tc →
  type (piece m) = pawn →
  row tc = row fc + pawnDirection c
  ∨ (row tc = row fc + pawnDirection c * 2
     ∧ row fc = match c with white => 1 | black => 6 end).
Proof.
  intros (p & fc' & Hp & Hc & Hsq & Hkind)%generateLegalMovesFrom_kind Hf Ht Hpawn.
  destruct Hkind as [tc' target Htc Htarget Hlegal Hm|_ Hep|side Hking -> Hcan].
  - apply coordsToSquare_Some in Htarget as (_ & _ & Htarget).
    assert (from m = sq ∧ to m = target ∧ piece m = p) as (E1 & E2 & E3).
    { by destruct Hm as [[-> _]|[_ (pp & _ & ->)]]. }
    rewrite E1, Hsq in Hf. rewrite E2, Htarget in Ht. rewrite E3 in Hpawn.
    injection Hf as <-. injection Ht as <-. rewrite Hpawn in Htc.
    by apply getPawnMoves_rows in Htc.
  - left. revert Hep. unfold MoveGenerator.getEnPassantMove.
    destruct (MoveGenerator.enPassantSquare this) as [ep|]; [|done].
    destruct (negb _); [done|].
    destruct (Board.squareToCoords sq) as [fc0|] eqn:E1; [|done].
    destruct (Board.squareToCoords ep) as [ec|] eqn:E2; [|done].
    destruct (_ && _) eqn:Hcan; [|done]. cbn [negb].
    destruct (negb _); [done|]. intros [= <-]. cbn in Hf, Ht.
    rewrite E1 in Hf. rewrite E2 in Ht. injection Hf as <-. injection Ht as <-.
    apply andb_true_iff in Hcan as [Hrow _]. lia.
  - done.
Qed.

Lemma sound_updateGameStatus g : 
  Board.wf (Game.board g) → validEnPassant (Game.enPassantSquare g) = true →
  0 ≤ Game.halfMoveClock g → 1 ≤ Game.fullMoveNumber g →
  sound (Game.updateGameStatus g).
Proof.
  intros. destruct (updateGameStatus_frame g) as (s & -> & Hs).
  unfold sound. cbn [Game.withStatus Game.board Game.enPassantSquare
    Game.halfMoveClock Game.fullMoveNumber Game.gameStatus]. auto.
Qed.

Lemma sound_move g o : sound g → sound (Game.move g o).2.
Proof.
  intros (Hwf & Hep & Hh & Hf & Hs).
  pose proof (move_effects g o) as Hmove.
  destruct (Game.move g o) as [[m|] g'] eqn:E; cbn [snd];
    [|by subst].
  destruct Hmove as (Hfrom & Hto & _ & Hpiece & _ & _ & Hb & _ & _ & _ & Hclock & Hfull
                     & _ & Hstatus).
  unfold sound. split; [rewrite Hb; by apply wf_executeMove|].
  split; [|split; [|split; [|done]]].
  - revert E. unfold Game.move.
    destruct (negb _) eqn:Hvalid; [done|]. apply negb_false_iff in Hvalid.
    apply validateMove_valid in Hvalid
      as (Hvf & Hvt & _ & (p & Hp & Hcol) & (m' & Hin & Hmatch)).
    cbn [Game.moveGenerator MoveGenerator.board] in Hp. rewrite Hp. cbv zeta.
    match goal with
    | |- context [Game.updateGameStatus ?x] =>
        destruct (updateGameStatus_frame x) as (s & -> & _)
    end.
    intros [= <- <-].
    cbn [Game.withHistory Game.withStatus Game.enPassantSquare Game.recordPosition].
    apply matches_spec in Hmatch as (Hmf & Hmt & _).
    unfold Board.isValidSquare in Hvf, Hvt.
    destruct (Board.squareToCoords (mo_from o)) as [fc|] eqn:Hfc; [|done].
    destruct (Board.squareToCoords (mo_to o)) as [tc|] eqn:Htc; [|done].
    apply (updateGameState_enPassant _ _ fc tc); [done..|].
    cbn [piece from to]. intros Hpawn. rewrite Hcol.
    apply (legal_pawn_rows _ _ _ _ fc tc Hin); [congruence..|].
    apply generateLegalMovesFrom_kind in Hin
      as (p' & fc' & Hp' & _ & _ & Hkind).
    cbn [Game.moveGenerator MoveGenerator.board] in Hp'.
    assert (p' = p) as Epp by congruence. subst p'.
    destruct Hkind as [? ? _ _ _ Hm|? Hm|side Hking _ _].
    + by destruct Hm as [[-> _]|[_ (pp & _ & ->)]].
    + apply getEnPassantMove_fields in Hm as (_ & -> & _). done.
    + congruence.
  - rewrite Hclock. destruct (_ || _); [lia|]. apply toDouble_nonneg. lia.
  - rewrite Hfull. destruct (Game.currentTurn g); [lia|]. apply toDouble_pos. lia.
Qed.

Lemma sound_recordPosition g : sound g → sound (Game.recordPosition g).
Proof. done. Qed.

Lemma sound_new config : sound (Game.new config).
Proof.
  unfold Game.new. destruct (truthy _).
  - split; [apply wf_createEmptyBoard|]. cbn. repeat split; (done || lia).
  - split; [apply wf_setupStartingPosition|]. cbn. repeat split; (done || lia).
Qed.

Lemma sound_reset g : sound (Game.reset g).
Proof.
  split; [apply wf_setupStartingPosition|]. cbn. repeat split; (done || lia).
Qed.

Lemma sound_undo g : sound g → sound (Game.undo g).2.
Proof.
  intros (Hwf & Hep & Hh & Hf & Hs). unfold Game.undo.
  destruct (last (Game.moveHistory g)) as [m|]; [|done]. cbn [snd].
  apply sound_updateGameStatus;
    destruct (last (removelast (Game.moveHistory g)));
    cbn; try done; try lia; by apply wf_undoBoard.
Qed.

Lemma sound_loadFen g fen : sound g → sound (Game.loadFen g fen).2.
Proof.
  intros Hg. unfold Game.loadFen.
  destruct (FenParser.parse fen) as [d|] eqn:Hd; [|done]. cbn [snd].
  apply parse_accepts in Hd as (? & ? & ? & ?).
  by apply sound_updateGameStatus.
Qed.

Lemma reachable_sound g : reachable g → sound g.
Proof.
  induction 1;
    auto using sound_new, sound_move, sound_undo, sound_loadFen, sound_reset.
Qed.

(** X15. Every game produced by the constructor, [move], [undo],
    [loadFen] and [reset] has an 8 by 8 board, an en-passant square that is
    absent or on the third or sixth rank, a half-move clock of at least
    zero, a move number of at least one, and a status other than [draw]. *)
Theorem reachable_games_are_sound (g : Game.t) :
  reachable g →
  Board.wf (Game.board g)
  ∧ validEnPassant (Game.enPassantSquare g) = true
  ∧ 0 ≤ Game.halfMoveClock g
  ∧ 1 ≤ Game.fullMoveNumber g
  ∧ Game.gameStatus g ≠ draw.
Proof.
  apply reachable_sound.
Qed.

Lemma reachable_games_are_sound_witness :
  Board.wf (Game.board (Game.move (Game.new None) (request "e2" "e4")).2)
  ∧ validEnPassant
      (Game.enPassantSquare (Game.move (Game.new None) (request "e2" "e4")).2) = true
  ∧ 0 ≤ Game.halfMoveClock (Game.move (Game.new None) (request "e2" "e4")).2
  ∧ 1 ≤ Game.fullMoveNumber (Game.move (Game.new None) (request "e2" "e4")).2
  ∧ Game.gameStatus (Game.move (Game.new None) (request "e2" "e4")).2 ≠ draw.
Proof.
  apply (reachable_games_are_sound (Game.move (Game.new None) (request "e2" "e4")).2).
  apply reach_move, reach_new.
Defined.

(** ** Clones *)

Lemma updateGameStatus_repetition g :
  (default 0 (Game.positionHistory g !! Game.getPositionKey g) < 3)%nat →
  Game.gameStatus (Game.updateGameStatus g) ≠ threefold_repetition.
Proof.
  intros Hrep. unfold Game.updateGameStatus.
  replace (3 <=? _)%nat with false by (symmetry; apply Nat.leb_gt; lia).
  repeat match goal with
         | |- context [if ?c then _ else _] => destruct c
         end; done.
Qed.

Lemma countersBelow_move g o n :
  sound g → 1 ≤ n → countersBelow g n → countersBelow (Game.move g o).2 (n - 1).
Proof.
  intros (_ & _ & Hh & Hf & _) Hn [Hhmax Hfmax].
  pose proof (move_effects g o) as Hmove.
  destruct (Game.move g o) as [[m|] g'] eqn:E; cbn [snd];
    [|subst; unfold countersBelow; lia].
  destruct Hmove as (_ & _ & _ & _ & _ & _ & _ & _ & _ & _ & Hclock & Hfull & _).
  unfold countersBelow. rewrite Hclock, Hfull.
  rewrite !toDouble_safe by lia. unfold MAX_SAFE_INTEGER in *.
  destruct (_ || _), (Game.currentTurn g); lia.
Qed.

Lemma cloneGame_sound g :
  sound g → countersBelow g 0 →
  ∃ g', MinimaxAI.cloneGame g = Ok g'
        ∧ Game.board g' = Game.board g
        ∧ Game.currentTurn g' = Game.currentTurn g
        ∧ Game.castlingRights g' = Game.castlingRights g
        ∧ Game.enPassantSquare g' = Game.enPassantSquare g
        ∧ Game.halfMoveClock g' = Game.halfMoveClock g
        ∧ Game.fullMoveNumber g' = Game.fullMoveNumber g
        ∧ Game.moveHistory g' = []
        ∧ Game.positionHistory g' = {[ Game.getPositionKey g := 1%nat ]}
        ∧ Game.gameStatus g' ≠ threefold_repetition
        ∧ sound g'.
Proof.
  intros (Hwf & Hep & Hh & Hf & Hs) [Hhmax Hfmax].
  unfold MinimaxAI.cloneGame, Game.loadFen, Game.getFen.
  rewrite parse_generate by (done || lia).
  cbn [fen_board fen_turn fen_castlingRights fen_enPassantSquare
       fen_halfMoveClock fen_fullMoveNumber].
  eexists. split; [reflexivity|].
  match goal with
  | |- context [Game.updateGameStatus ?x] =>
      pose proof (updateGameStatus_repetition x) as Hrep;
      pose proof (sound_updateGameStatus x) as Hsound;
      destruct (updateGameStatus_frame x) as (s & Hframe & _)
  end.
  rewrite Hframe in *.
  cbn [Game.withStatus Game.recordPosition Game.board Game.currentTurn
       Game.castlingRights Game.enPassantSquare Game.halfMoveClock
       Game.fullMoveNumber Game.moveHistory Game.positionHistory
       Game.gameStatus] in *.
  do 7 (split; [done|]). split; [|split].
  - rewrite lookup_empty. cbn [default from_option Nat.add]. by rewrite insert_empty.
  - apply Hrep. rewrite lookup_insert_eq, lookup_empty. cbn. lia.
  - by apply Hsound.
Qed.

(** Beyond [Number.MAX_SAFE_INTEGER] a clone can differ or fail: a clock
    of 10^21 is written as 1e+21 and read back as 1, and a clock that is
    [Infinity] is written as a text that the parser refuses. *)
Example large_clock_is_not_cloned :
  (let g := loaded "4k3/8/8/8/8/8/8/4K2R w - - 1000000000000000000000 7" in
   (Game.halfMoveClock g, Game.getFen g,
    g' ← MinimaxAI.cloneGame g; Ok (Game.halfMoveClock g')))
  = (10 ^ 21, "4k3/8/8/8/8/8/8/4K2R w - - 1e+21 7"%string, Ok 1)
  ∧ (let g := loaded ("4k3/8/8/8/8/8/8/4K2R w - - " +++ decimal (2 * 10 ^ 308) +++ " 7") in
     (Game.halfMoveClock g, Game.getFen g, MinimaxAI.cloneGame g))
    = (INFINITY, "4k3/8/8/8/8/8/8/4K2R w - - Infinity 7"%string,
       Throw "Invalid FEN: invalid halfmove clock 'Infinity'").
Proof. vm_compute. split; reflexivity. Qed.

(** X16. A game with an 8 by 8 board, a well-formed en-passant square
    and counters in range and not above [Number.MAX_SAFE_INTEGER] is
    cloned without an error.  The clone has the
    board, the turn, the castling rights, the en-passant square and the
    counters of the original, but no move history, and its position counts
    hold the cloned position once: its status is never
    [threefold_repetition]. *)
Theorem cloneGame_keeps_position_only (g : Game.t) :
  Board.wf (Game.board g) →
  validEnPassant (Game.enPassantSquare g) = true →
  0 ≤ Game.halfMoveClock g ≤ MAX_SAFE_INTEGER →
  1 ≤ Game.fullMoveNumber g ≤ MAX_SAFE_INTEGER →
  ∃ g', MinimaxAI.cloneGame g = Ok g'
        ∧ Game.board g' = Game.board g
        ∧ Game.currentTurn g' = Game.currentTurn g
        ∧ Game.castlingRights g' = Game.castlingRights g
        ∧ Game.enPassantSquare g' = Game.enPassantSquare g
        ∧ Game.halfMoveClock g' = Game.halfMoveClock g
        ∧ Game.fullMoveNumber g' = Game.fullMoveNumber g
        ∧ Game.moveHistory g' = []
        ∧ Game.positionHistory g' = {[ Game.getPositionKey g := 1%nat ]}
        ∧ Game.gameStatus g' ≠ threefold_repetition.
Proof.
  intros Hwf Hep Hh Hf.
  assert (sound (Game.withStatus g active)) as Hsound.
  { unfold sound. cbn [Game.withStatus Game.board Game.enPassantSquare
      Game.halfMoveClock Game.fullMoveNumber Game.gameStatus].
    destruct Hh, Hf. auto. }
  assert (countersBelow (Game.withStatus g active) 0) as Hbelow.
  { unfold countersBelow. cbn [Game.withStatus Game.halfMoveClock Game.fullMoveNumber].
    lia. }
  destruct (cloneGame_sound _ Hsound Hbelow) as (g' & Hg').
  exists g'. revert Hg'. unfold MinimaxAI.cloneGame, Game.getFen, Game.getPositionKey.
  cbn [Game.withStatus Game.board Game.currentTurn Game.castlingRights
       Game.enPassantSquare Game.halfMoveClock Game.fullMoveNumber].
  intros (? & ? & ? & ? & ? & ? & ? & ? & ? & ? & _). done.
Qed.

Lemma cloneGame_keeps_position_only_witness :
  ∃ g', MinimaxAI.cloneGame (Game.new None) = Ok g'
        ∧ Game.board g' = Game.board (Game.new None)
        ∧ Game.currentTurn g' = Game.currentTurn (Game.new None)
        ∧ Game.castlingRights g' = Game.castlingRights (Game.new None)
        ∧ Game.enPassantSquare g' = Game.enPassantSquare (Game.new None)
        ∧ Game.halfMoveClock g' = Game.halfMoveClock (Game.new None)
        ∧ Game.fullMoveNumber g' = Game.fullMoveNumber (Game.new None)
        ∧ Game.moveHistory g' = []
        ∧ Game.positionHistory g' = {[ Game.getPositionKey (Game.new None) := 1%nat ]}
        ∧ Game.gameStatus g' ≠ threefold_repetition.
Proof.
  apply (cloneGame_keeps_position_only (Game.new None));
    [split; [reflexivity|repeat constructor]|reflexivity|done|done].
Defined.

(** ** Taking a move back *)

Lemma board_ext_squares (b1 b2 : list (list (option Piece))) :
  Board.wf b1 → Board.wf b2 →
  (∀ sq, Board.getPiece b1 sq = Board.getPiece b2 sq) → b1 = b2.
Proof.
  intros Hwf1 Hwf2 Hsq. apply board_ext; [done..|]. intros r c Hr Hc.
  destruct (coordsToSquare_scan (r, c)) as (sq & _ & Hget); [by apply scan_elem|].
  cbn in Hget. by rewrite <- !Hget.
Qed.

Lemma opposite_involutive c : opposite (opposite c) = c.
Proof. by destruct c. Qed.

Lemma undoBoard_plain b m :
  enPassant m = false → castling m = None →
  Game.undoBoard b m
  = Board.setPiece (Board.setPiece b (from m) (Some (piece m))) (to m) (captured m).
Proof.
  intros Hep Hc. unfold Game.undoBoard. rewrite Hep, Hc. by destruct (captured m).
Qed.

Lemma executeMove_plain b m sq :
  Board.wf b → enPassant m = false → castling m = None →
  Board.isValidSquare (from m) = true → Board.isValidSquare (to m) = true →
  sq ≠ from m → sq ≠ to m →
  Board.getPiece (Game.executeMove b m) sq = Board.getPiece b sq.
Proof.
  intros Hwf Hep Hc Hf Ht Hnf Hnt. unfold Game.executeMove. rewrite Hep, Hc.
  apply String.eqb_neq in Hnf, Hnt.
  destruct (promotion m).
  - rewrite !getPiece_setPiece, Hf, Ht, Hnf, Hnt by auto using wf_setPiece. done.
  - rewrite getPiece_movePiece, Hf, Ht, Hnf, Hnt by done. done.
Qed.

Lemma undo_execute_plain b m :
  Board.wf b → enPassant m = false → castling m = None →
  Board.isValidSquare (from m) = true → Board.isValidSquare (to m) = true →
  from m ≠ to m →
  Board.getPiece b (from m) = Some (piece m) →
  captured m = Board.getPiece b (to m) →
  Game.undoBoard (Game.executeMove b m) m = b.
Proof.
  intros Hwf Hep Hc Hf Ht Hne Hpiece Hcap.
  apply board_ext_squares; [by apply wf_undoBoard, wf_executeMove|done|].
  intros sq. rewrite undoBoard_plain by done.
  rewrite !getPiece_setPiece, Hf, Ht by auto using wf_setPiece, wf_executeMove.
  cbn [andb].
  destruct (String.eqb_spec sq (to m)) as [->|Hnt]; [done|].
  destruct (String.eqb_spec sq (from m)) as [->|Hnf]; [done|].
  by apply executeMove_plain.
Qed.

Ltac ground_eqb :=
  repeat match goal with
         | |- context [String.eqb ?a ?b] =>
             tryif is_var a then fail else
               (let v := eval vm_compute in (String.eqb a b) in
                change (String.eqb a b) with v)
         | |- context [Board.isValidSquare ?a] =>
             tryif is_var a then fail else
               (let v := eval vm_compute in (Board.isValidSquare a) in
                change (Board.isValidSquare a) with v)
         end.

Ltac ground_append :=
  repeat match goal with
         | |- context [String.append ?a ?b] =>
             let v := eval vm_compute in (String.append a b) in
             change (String.append a b) with v
         | H : context [String.append ?a ?b] |- _ =>
             let v := eval vm_compute in (String.append a b) in
             change (String.append a b) with v in H
         end.

Ltac square_cases sq :=
  repeat match goal with
         | |- context [String.eqb sq ?a] =>
             destruct (String.eqb_spec sq a) as [->|?]
         end.

Lemma undo_execute_castling b c side m :
  Board.wf b →
  from m = from (MoveGenerator.castlingMove c side) →
  to m = to (MoveGenerator.castlingMove c side) →
  piece m = {| type := king; color := c |} →
  captured m = None → castling m = Some side → enPassant m = false →
  Board.getPiece b ("e" +++ homeRank c) = Some {| type := king; color := c |} →
  match side with
  | kingside =>
      Board.getPiece b ("f" +++ homeRank c) = None
      ∧ Board.getPiece b ("g" +++ homeRank c) = None
  | queenside =>
      Board.getPiece b ("c" +++ homeRank c) = None
      ∧ Board.getPiece b ("d" +++ homeRank c) = None
  end →
  Game.undoBoard (Game.executeMove b m) m = b.
Proof.
  intros Hwf Hfrom Hto Hpiece Hcap Hcastle Hep Hking Hempty.
  apply board_ext_squares; [by apply wf_undoBoard, wf_executeMove|done|].
  intros sq.
  unfold Game.undoBoard, Game.executeMove, Game.executeCastling, Game.undoCastling.
  rewrite Hfrom, Hto, Hpiece, Hcap, Hcastle, Hep. cbn [color].
  destruct c, side; destruct Hempty as [H1 H2];
    cbn [MoveGenerator.castlingMove from to homeRank] in *;
    ground_append;
    rewrite ?(bool_decide_eq_true_2 (Some kingside = Some kingside)),
      ?(bool_decide_eq_false_2 (Some queenside = Some kingside)) by done;
    repeat (rewrite ?getPiece_movePiece, ?getPiece_setPiece
              by auto 10 using wf_setPiece, wf_movePiece;
            ground_eqb; cbn [andb]);
    square_cases sq; ground_eqb; cbn iota; congruence.
Qed.

Lemma getJumpMoves_cols b fc c tc :
  tc ∈ getJumpMoves b fc c DIRECTIONS.ALL → Z.abs (col tc - col fc) ≤ 1.
Proof.
  unfold getJumpMoves. intros (d & Hin & Hd)%list_elem_of_bind.
  assert (Z.abs d.2 ≤ 1) as Hd2.
  { unfold DIRECTIONS.ALL in Hd.
    repeat (apply elem_of_cons in Hd as [->|Hd]; [cbn; lia|]).
    by apply elem_of_nil in Hd. }
  repeat case_match; try (by apply elem_of_nil in Hin);
    apply list_elem_of_singleton in Hin as ->; cbn; lia.
Qed.

Lemma file_col sq co f :
  Board.squareToCoords sq = Some co → charAt sq 0 = str f → col co = charCode f - 97.
Proof.
  intros (f' & Hf' & Hcode & _)%square_parts Hf.
  rewrite Hf' in Hf. injection Hf as ->. lia.
Qed.

Lemma move_played g o m :
  (Game.move g o).1 = Some m →
  from m = mo_from o ∧ to m = mo_to o
  ∧ Board.isValidSquare (from m) = true ∧ Board.isValidSquare (to m) = true
  ∧ from m ≠ to m
  ∧ Board.getPiece (Game.board g) (from m) = Some (piece m)
  ∧ color (piece m) = Game.currentTurn g
  ∧ captured m = Board.getPiece (Game.board g) (to m)
  ∧ castling m = Game.isCastlingMove g (from m) (to m)
  ∧ enPassant m = Game.isEnPassantCapture g (from m) (to m)
  ∧ ∃ m', m' ∈ Game.getLegalMovesFrom g (from m) ∧ from m' = from m ∧ to m' = to m.
Proof.
  unfold Game.move.
  destruct (negb _) eqn:Hvalid; [done|]. apply negb_false_iff in Hvalid.
  apply validateMove_valid in Hvalid
    as (Hvf & Hvt & Hne & (p & Hp & Hcol) & (m' & Hin & Hmatch)).
  cbn [Game.moveGenerator MoveGenerator.board] in Hp. rewrite Hp. cbv zeta.
  intros [= <-]. cbn [from to piece captured castling enPassant].
  apply matches_spec in Hmatch as (Hmf & Hmt & _).
  repeat split; try done. by exists m'.
Qed.

Lemma castling_played g m side :
  (∃ m', m' ∈ Game.getLegalMovesFrom g (from m) ∧ from m' = from m ∧ to m' = to m) →
  Board.getPiece (Game.board g) (from m) = Some (piece m) →
  color (piece m) = Game.currentTurn g →
  Game.isCastlingMove g (from m) (to m) = Some side →
  let c := Game.currentTurn g in
  from m = from (MoveGenerator.castlingMove c side)
  ∧ to m = to (MoveGenerator.castlingMove c side)
  ∧ piece m = {| type := king; color := c |}
  ∧ match side with
    | kingside => MoveGenerator.canCastleKingside (Game.moveGenerator g) c
    | queenside => MoveGenerator.canCastleQueenside (Game.moveGenerator g) c
    end = true.
Proof.
  intros (m' & Hin & Hmf & Hmt) Hpiece Hcol Hflag c.
  unfold Game.isCastlingMove in Hflag. rewrite Hpiece in Hflag.
  case_bool_decide as Hking; [done|].
  assert (type (piece m) = king) as Htype
    by (by destruct (decide (type (piece m) = king))).
  assert (charAt (from m) 0 = "e"
          ∧ charAt (to m) 0 = match side with kingside => "g" | queenside => "c" end)%string
    as [Hfe Hto].
  { destruct (String.eqb_spec (charAt (from m) 0) "e") as [->|]; [|done].
    destruct (String.eqb_spec (charAt (to m) 0) "g") as [->|].
    - by injection Hflag as <-.
    - destruct (String.eqb_spec (charAt (to m) 0) "c") as [->|]; [|done].
      by injection Hflag as <-. }
  unfold Game.getLegalMovesFrom in Hin.
  apply generateLegalMovesFrom_kind in Hin as (p & fc & Hp & Hc & Hsq & Hkind).
  cbn [Game.moveGenerator MoveGenerator.board] in Hp.
  assert (p = piece m) as -> by congruence.
  destruct Hkind as [tc target Htc Htarget _ Hm|Hpawn _|side' _ -> Hcan].
  - exfalso. rewrite Htype in Htc. apply getJumpMoves_cols in Htc.
    apply coordsToSquare_Some in Htarget as (_ & _ & Htarget).
    assert (to m' = target) as E
      by (by destruct Hm as [[-> _]|[_ (pp & _ & ->)]]).
    rewrite <- E, Hmt in Htarget.
    pose proof (file_col _ _ "e" Hsq Hfe) as Hce.
    assert (col tc = charCode (match side with kingside => "g" | queenside => "c" end)
                     - 97) as Hct.
    { destruct side; [apply (file_col _ _ "g" Htarget Hto)
                     |apply (file_col _ _ "c" Htarget Hto)]. }
    rewrite Hce, Hct in Htc. destruct side; vm_compute in Htc; by apply Htc.
  - congruence.
  - fold c in Hcan, Hmf, Hmt |- *. rewrite <- Hmf, <- Hmt.
    assert (side' = side) as ->.
    { rewrite <- Hmt in Hto. destruct c, side', side; done. }
    repeat split; try done. destruct (piece m) as [t k]. cbn in *. by subst.
Qed.

Lemma undo_execute g o m :
  Board.wf (Game.board g) → (Game.move g o).1 = Some m → enPassant m = false →
  Game.undoBoard (Game.executeMove (Game.board g) m) m = Game.board g.
Proof.
  intros Hwf Hm Hep.
  destruct (move_played g o m Hm)
    as (_ & _ & Hvf & Hvt & Hne & Hpiece & Hcol & Hcap & Hcastle & _ & Hlegal).
  destruct (castling m) as [side|] eqn:Hside.
  - destruct (castling_played g m side Hlegal Hpiece Hcol (eq_sym Hcastle))
      as (Hfrom & Hto & Hking & Hcan).
    apply (undo_execute_castling _ (Game.currentTurn g) side); try done.
    + rewrite Hcap, Hto.
      by apply castling_target_empty in Hcan as [_ ?].
    + by apply castling_target_empty in Hcan as [? _].
    + destruct side.
      * by apply canCastleKingside_facts in Hcan as (_ & _ & ? & ? & _).
      * by apply canCastleQueenside_facts in Hcan as (_ & _ & _ & ? & ? & _).
  - by apply undo_execute_plain.
Qed.

(** X17. A move other than an en-passant capture is taken back exactly
    on the board: after [move] and then [undo] the board, the side to move
    and the history are those from before, and [undo] returns the move.
    The position counts keep the entry the move added. *)
Theorem undo_restores_board (g : Game.t) (o : MoveOptions) (m : Move) :
  Board.wf (Game.board g) → (Game.move g o).1 = Some m → enPassant m = false →
  (Game.undo (Game.move g o).2).1 = Some m
  ∧ Game.board (Game.undo (Game.move g o).2).2 = Game.board g
  ∧ Game.currentTurn (Game.undo (Game.move g o).2).2 = Game.currentTurn g
  ∧ Game.moveHistory (Game.undo (Game.move g o).2).2 = Game.moveHistory g
  ∧ Game.positionHistory (Game.undo (Game.move g o).2).2
    = Game.positionHistory (Game.move g o).2.
Proof.
  intros Hwf Hm Hep. pose proof (undo_execute g o m Hwf Hm Hep) as Hboard.
  pose proof (move_effects g o) as Heff.
  destruct (Game.move g o) as [[m1|] g1]; [|done]. cbn [fst snd] in *.
  injection Hm as ->.
  destruct Heff as (_ & _ & _ & _ & _ & _ & Hb & Hturn & Hhist & _).
  unfold Game.undo. rewrite Hhist, last_snoc, removelast_last.
  match goal with
  | |- context [Game.updateGameStatus ?x] =>
      destruct (updateGameStatus_frame x) as (s & -> & _)
  end.
  cbn [fst snd Game.withStatus Game.withTurn Game.board Game.currentTurn
       Game.moveHistory Game.positionHistory].
  split; [done|].
  destruct (last (Game.moveHistory g));
    cbn [Game.restoreGameStateFromMove Game.restoreInitialGameState
         Game.withCastlingRights Game.withHistory Game.withBoard Game.board
         Game.currentTurn Game.moveHistory Game.positionHistory];
    rewrite Hb, Hboard, Hturn, opposite_involutive; done.
Qed.

Lemma undo_restores_board_witness :
  (Game.undo (Game.move (Game.new None) (request "e2" "e4")).2).1
  = Some {| from := "e2"; to := "e4"; piece := {| type := pawn; color := white |};
            captured := None; promotion := None; castling := None;
            enPassant := false; san := Some "e4"%string; check := false;
            checkmate := false |}
  ∧ Game.board (Game.undo (Game.move (Game.new None) (request "e2" "e4")).2).2
    = Game.board (Game.new None)
  ∧ Game.currentTurn (Game.undo (Game.move (Game.new None) (request "e2" "e4")).2).2
    = Game.currentTurn (Game.new None)
  ∧ Game.moveHistory (Game.undo (Game.move (Game.new None) (request "e2" "e4")).2).2
    = Game.moveHistory (Game.new None)
  ∧ Game.positionHistory (Game.undo (Game.move (Game.new None) (request "e2" "e4")).2).2
    = Game.positionHistory (Game.move (Game.new None) (request "e2" "e4")).2.
Proof.
  apply (undo_restores_board (Game.new None) (request "e2" "e4")).
  - split; [reflexivity|repeat constructor].
  - vm_compute. reflexivity.
  - reflexivity.
Defined.

Lemma rev_cons_snoc {A} (l : list A) (x : A) (earlier : list A) :
  rev l = x :: earlier → l = rev earlier ++ [x].
Proof. intros H. rewrite <- (rev_involutive l), H. done. Qed.

Lemma undo_effects (g : Game.t) :
  match rev (Game.moveHistory g) with
  | [] => Game.undo g = (None, g)
  | m :: earlier =>
      (Game.undo g).1 = Some m
      ∧ Game.moveHistory (Game.undo g).2 = rev earlier
      ∧ Game.board (Game.undo g).2 = Game.undoBoard (Game.board g) m
      ∧ Game.currentTurn (Game.undo g).2 = opposite (Game.currentTurn g)
      ∧ Game.positionHistory (Game.undo g).2 = Game.positionHistory g
      ∧ match earlier with
        | previous :: _ =>
            Game.castlingRights (Game.undo g).2
            = Game.updateCastlingRights (Game.castlingRights g) previous
            ∧ Game.enPassantSquare (Game.undo g).2 = Game.enPassantSquare g
            ∧ Game.halfMoveClock (Game.undo g).2 = Game.halfMoveClock g
            ∧ Game.fullMoveNumber (Game.undo g).2 = Game.fullMoveNumber g
        | [] =>
            Game.castlingRights (Game.undo g).2 = allCastlingRights
            ∧ Game.enPassantSquare (Game.undo g).2 = None
            ∧ Game.halfMoveClock (Game.undo g).2 = 0
            ∧ Game.fullMoveNumber (Game.undo g).2 = 1
        end
  end.
Proof.
  unfold Game.undo.
  destruct (rev (Game.moveHistory g)) as [|m earlier] eqn:Hrev.
  - apply (f_equal (@rev Move)) in Hrev. rewrite rev_involutive in Hrev.
    by rewrite Hrev.
  - apply rev_cons_snoc in Hrev. rewrite Hrev, last_snoc, removelast_last.
    match goal with
    | |- context [Game.updateGameStatus ?x] =>
        destruct (updateGameStatus_frame x) as (s & -> & _)
    end.
    destruct earlier as [|previous earlier].
    + cbn. done.
    + cbn [rev]. rewrite last_snoc. cbn. done.
Qed.

Lemma getPiece_capturedPawnSquare b m :
  Board.wf b → enPassant m = true → castling m = None →
  capturedPawnSquare m ≠ from m → capturedPawnSquare m ≠ to m →
  Board.isValidSquare (capturedPawnSquare m) = true →
  Board.getPiece (Game.executeMove b m) (capturedPawnSquare m) = None.
Proof.
  intros Hwf Hep Hc Hnf Hnt Hv. unfold Game.executeMove.
  rewrite Hep, Hc. fold (capturedPawnSquare m).
  apply String.eqb_neq in Hnf, Hnt.
  destruct (promotion m).
  - rewrite !getPiece_setPiece, Hnf, Hnt, Hv, String.eqb_refl
      by auto using wf_setPiece.
    by rewrite !andb_false_r.
  - rewrite getPiece_movePiece, Hnf, Hnt by by apply wf_setPiece.
    rewrite getPiece_setPiece, Hv, String.eqb_refl by done.
    by destruct (_ && _).
Qed.

(** X19. An en-passant capture is not taken back in full.  [move]
    records no captured piece for it when its target square is empty, the
    captured pawn leaves its square, and after [undo] that square is still
    empty: when a pawn stood there, the board after [undo] is not the board
    from before the move. *)
Theorem en_passant_capture_not_undone (g : Game.t) (o : MoveOptions) (m : Move) :
  Board.wf (Game.board g) →
  (Game.move g o).1 = Some m → enPassant m = true →
  Board.getPiece (Game.board g) (to m) = None →
  Board.isValidSquare (capturedPawnSquare m) = true →
  capturedPawnSquare m ≠ from m → capturedPawnSquare m ≠ to m →
  captured m = None
  ∧ Board.getPiece (Game.board (Game.move g o).2) (capturedPawnSquare m) = None
  ∧ Board.getPiece (Game.board (Game.undo (Game.move g o).2).2) (capturedPawnSquare m)
    = None
  ∧ (is_Some (Board.getPiece (Game.board g) (capturedPawnSquare m)) →
     Game.board (Game.undo (Game.move g o).2).2 ≠ Game.board g).
Proof.
  intros Hwf Hm Hep Hempty Hv Hnf Hnt.
  cut (captured m = None
       ∧ Board.getPiece (Game.board (Game.move g o).2) (capturedPawnSquare m) = None
       ∧ Board.getPiece (Game.board (Game.undo (Game.move g o).2).2)
           (capturedPawnSquare m) = None).
  { intros (H1 & H2 & H3). do 3 (split; [done|]).
    intros [victim Hvictim] E. rewrite E, Hvictim in H3. done. }
  destruct (move_played g o m Hm)
    as (_ & _ & Hvf & Hvt & Hne & Hpiece & Hcol & Hcap & Hcastle & Hflag & _).
  assert (type (piece m) = pawn) as Hpawn.
  { rewrite Hflag in Hep. unfold Game.isEnPassantCapture in Hep.
    rewrite Hpiece in Hep. by apply andb_true_iff in Hep as [?%bool_decide_eq_true _]. }
  assert (castling m = None) as Hnocastle.
  { rewrite Hcastle. unfold Game.isCastlingMove. rewrite Hpiece.
    rewrite bool_decide_eq_true_2; [done|congruence]. }
  rewrite Hempty in Hcap.
  pose proof (getPiece_capturedPawnSquare _ m Hwf Hep Hnocastle Hnf Hnt Hv) as Hgone.
  pose proof (undo_effects (Game.move g o).2) as Hundo.
  pose proof (move_effects g o) as Heff.
  destruct (Game.move g o) as [[m1|] g1]; [|done]. cbn [fst snd] in *.
  injection Hm as ->.
  destruct Heff as (_ & _ & _ & _ & _ & _ & Hb & _ & Hhist & _).
  rewrite Hhist, rev_app_distr in Hundo. cbn [rev app] in Hundo.
  destruct Hundo as (_ & _ & -> & _).
  rewrite Hb. split; [done|]. split; [done|].
  unfold Game.undoBoard. rewrite Hcap, Hnocastle.
  apply String.eqb_neq in Hnf, Hnt.
  rewrite !getPiece_setPiece, Hnf, Hnt, !andb_false_r
    by auto using wf_setPiece, wf_executeMove.
  done.
Qed.

Lemma en_passant_capture_not_undone_witness :
  captured enPassantPlayed = None
  ∧ Board.getPiece (Game.board (Game.move enPassantReady (request "d5" "e6")).2)
      (capturedPawnSquare enPassantPlayed) = None
  ∧ Board.getPiece
      (Game.board (Game.undo (Game.move enPassantReady (request "d5" "e6")).2).2)
      (capturedPawnSquare enPassantPlayed) = None
  ∧ (is_Some (Board.getPiece (Game.board enPassantReady)
                (capturedPawnSquare enPassantPlayed)) →
     Game.board (Game.undo (Game.move enPassantReady (request "d5" "e6")).2).2
     ≠ Game.board enPassantReady).
Proof.
  apply (en_passant_capture_not_undone enPassantReady (request "d5" "e6")).
  - vm_compute. split; [reflexivity|repeat constructor].
  - vm_compute. reflexivity.
  - reflexivity.
  - vm_compute. reflexivity.
  - vm_compute. reflexivity.
  - discriminate.
  - discriminate.
Defined.

(** ** The search comes back *)

Lemma countersBelow_le g n k : k ≤ n → countersBelow g n → countersBelow g k.
Proof. unfold countersBelow. lia. Qed.

Lemma minimax_sound_returns fuel env cfg : ∀ game depth alpha beta maxi start s w,
  sound game → countersBelow game depth → 0 ≤ depth → (Z.to_nat depth < fuel)%nat →
  ∃ v s' w',
    MinimaxAI.minimax fuel env cfg game depth alpha beta maxi start s w
      = Returns (v, s', w').
Proof.
  induction fuel as [|fuel IH];
    intros game depth alpha beta maxi start s w Hg Hbelow Hd Hfuel; [lia|].
  cbn [MinimaxAI.minimax].
  set (s1 := MinimaxAI.visit cfg depth s). clearbody s1.
  case_bool_decide; [by eauto|].
  destruct (_ || _); [by eauto|].
  destruct (depth =? 0) eqn:Hzero; [by eauto|].
  destruct (dateNow env w) as [t w1].
  destruct (_ <? _); [by eauto|].
  match goal with
  | |- context [match Game.getLegalMoves game with
                | [] => _ | _ :: _ => ?loop _ _ _ _ _ _ end] => set (L := loop)
  end.
  assert (∀ moves best a b s2 w2,
            ∃ v s' w', L moves best a b s2 w2 = Returns (v, s', w')) as HL.
  { induction moves as [|m moves IHm]; intros best a b s2 w2.
    - cbn. eauto.
    - unfold L. cbn iota beta fix. fold L.
      destruct (cloneGame_sound game Hg (countersBelow_le game depth 0 Hd Hbelow))
        as (copy & -> & _ & _ & _ & _ & Hclock & Hfull & _ & _ & _ & Hsound).
      destruct (IH (Game.move copy (toOptions m)).2 (depth - 1) a b (negb maxi)
                  start s2 w2) as (v & s3 & w3 & ->);
        [by apply sound_move
        |apply countersBelow_move; [done|lia|];
         unfold countersBelow; by rewrite Hclock, Hfull
        |lia|lia|].
      destruct (Score_leb _ _); [by eauto|].
      destruct (dateNow env w3) as [t' w4].
      destruct (cfg_maxThinkingTime cfg <? t' - start); [by eauto|].
      apply IHm. }
  destruct (Game.getLegalMoves game) as [|m0 rest]; [by eauto|].
  apply HL.
Qed.

(** X20. Started from a game that the public operations can produce and
    whose counters stay at or below [Number.MAX_SAFE_INTEGER] for [depth]
    more moves, with a depth of at least zero and a step budget above the
    depth, [minimax] comes back with a score: it neither runs out of budget
    nor fails on a clone. *)
Theorem minimax_returns (fuel : nat) (env : Env) (cfg : RequiredAIConfig)
  (game : Game.t) (depth : Z) (alpha beta : Score) (maxi : bool) (start : Z)
  (s : SearchStats) (w : World) :
  reachable game → countersBelow game depth →
  0 ≤ depth → (Z.to_nat depth < fuel)%nat →
  ∃ v s' w',
    MinimaxAI.minimax fuel env cfg game depth alpha beta maxi start s w
      = Returns (v, s', w').
Proof.
  intros Hg%reachable_sound. by apply minimax_sound_returns.
Qed.

Lemma minimax_returns_witness :
  ∃ v s' w',
    MinimaxAI.minimax 2 anyEnv (mergeConfig None) (Game.new None) 1
      NegInfinity PosInfinity true 0 MinimaxAI.zeroStats startWorld
      = Returns (v, s', w').
Proof.
  apply (minimax_returns 2 anyEnv (mergeConfig None) (Game.new None) 1);
    [apply reach_new|by vm_compute|lia|cbn; lia].
Defined.

(** ** Random choices stay inside the list *)

Lemma floor_index (r : Q) (n : Z) :
  (0 <= r)%Q → (r < 1)%Q → 0 < n → 0 ≤ Qfloor (r * inject_Z n) < n.
Proof.
  intros H0 H1 Hn.
  assert (0 < inject_Z n)%Q as Hq
    by (change (inject_Z 0 < inject_Z n)%Q; by rewrite <- Zlt_Qlt).
  split.
  - change 0 with (Qfloor 0). apply Qfloor_resp_le.
    apply Qmult_le_0_compat; [done|by apply Qlt_le_weak].
  - rewrite Zlt_Qlt. eapply Qle_lt_trans; [apply Qfloor_le|].
    rewrite <- (Qmult_1_l (inject_Z n)) at 2. by apply Qmult_lt_compat_r.
Qed.

Lemma elementAt_floor {A} (l : list A) (r : Q) :
  (0 <= r)%Q → (r < 1)%Q → l ≠ [] →
  ∃ x, elementAt l (Qfloor (r * inject_Z (Z.of_nat (length l)))) = Some x ∧ x ∈ l.
Proof.
  intros H0 H1 Hne.
  assert (0 < Z.of_nat (length l)) as Hlen by (destruct l; [done|cbn; lia]).
  destruct (floor_index r _ H0 H1 Hlen) as [Hlo Hhi].
  unfold elementAt. replace (_ <? 0) with false by (symmetry; lia).
  destruct (lookup_lt_is_Some_2 l (Z.to_nat (Qfloor (r * inject_Z (Z.of_nat (length l))))))
    as [x Hx]; [lia|].
  exists x. split; [done|]. by eapply list_elem_of_lookup_2.
Qed.

(** X21. The random engine answers with a legal move: when the game has
    legal moves, [getBestMove] and [analyze] return one of them, and
    [analyze] reports the number of legal moves as nodes evaluated; when it
    has none, both throw.  The score of [evaluateMove] lies between -100
    (included) and 100 (excluded). *)
Theorem random_engine_plays_legal_moves (env : Env) (this : RandomAI.t)
  (game : Game.t) (move : Move) (w : World) :
  fairEnv env →
  match Game.getLegalMoves game with
  | [] =>
      (RandomAI.getBestMove env this game w).1 = Throw "No legal moves available"
      ∧ (RandomAI.analyze env this game w).1 = Throw "No legal moves available"
  | _ :: _ =>
      ∃ m a,
        (RandomAI.getBestMove env this game w).1 = Ok (Some m)
        ∧ (RandomAI.analyze env this game w).1 = Ok a
        ∧ ra_bestMove a = Some m
        ∧ m ∈ Game.getLegalMoves game
        ∧ ra_nodesEvaluated a = Z.of_nat (length (Game.getLegalMoves game))
  end
  ∧ ∃ q, me_score (RandomAI.evaluateMove env this game move w).1 = Finite q
         ∧ (-100 <= q)%Q ∧ (q < 100)%Q.
Proof.
  intros Hfair. split.
  - unfold RandomAI.getBestMove, RandomAI.analyze, dateNow, mathRandom.
    destruct (Game.getLegalMoves game) as [|m0 rest] eqn:Hmoves; [done|].
    destruct (Hfair (randomDraws
                       {| timeReads := S (timeReads w); randomDraws := randomDraws w |}))
      as [H0 H1].
    destruct (elementAt_floor (m0 :: rest) _ H0 H1) as (m & Hm & Hin); [done|].
    exists m. eexists. cbn [fst]. rewrite Hm. repeat split; done.
  - unfold RandomAI.evaluateMove, mathRandom. cbn.
    destruct (Hfair (randomDraws w)) as [H0 H1].
    eexists. split; [reflexivity|]. split.
    + apply (Qplus_le_l _ _ 100). ring_simplify.
      apply Qmult_le_0_compat; [discriminate|done].
    + apply (Qplus_lt_l _ _ 100). ring_simplify.
      rewrite <- (Qmult_1_r 200) at 2. by apply Qmult_lt_l.
Qed.

Lemma random_engine_plays_legal_moves_witness :
  match Game.getLegalMoves cornered with
  | [] =>
      (RandomAI.getBestMove anyEnv (RandomAI.new None) cornered startWorld).1
      = Throw "No legal moves available"
      ∧ (RandomAI.analyze anyEnv (RandomAI.new None) cornered startWorld).1
        = Throw "No legal moves available"
  | _ :: _ =>
      ∃ m a,
        (RandomAI.getBestMove anyEnv (RandomAI.new None) cornered startWorld).1
        = Ok (Some m)
        ∧ (RandomAI.analyze anyEnv (RandomAI.new None) cornered startWorld).1 = Ok a
        ∧ ra_bestMove a = Some m
        ∧ m ∈ Game.getLegalMoves cornered
        ∧ ra_nodesEvaluated a = Z.of_nat (length (Game.getLegalMoves cornered))
  end
  ∧ ∃ q, me_score
           (RandomAI.evaluateMove anyEnv (RandomAI.new None) cornered
              (plainMove "h8" "g8" {| type := king; color := white |} None)
              startWorld).1 = Finite q
         ∧ (-100 <= q)%Q ∧ (q < 100)%Q.
Proof.
  apply (random_engine_plays_legal_moves anyEnv (RandomAI.new None) cornered).
  intros k. split; [discriminate|reflexivity].
Defined.

(** ** The analysis names a legal move *)

Lemma insertSorted_elem {A} (before : A → A → bool) (x y : A) (l : list A) :
  y ∈ insertSorted before x l ↔ y = x ∨ y ∈ l.
Proof.
  induction l as [|z l IH]; cbn.
  - rewrite list_elem_of_singleton, elem_of_nil. tauto.
  - destruct (before z x); rewrite !elem_of_cons, ?IH; tauto.
Qed.

Lemma stableSort_elem {A} (before : A → A → bool) (y : A) (l : list A) :
  y ∈ stableSort before l ↔ y ∈ l.
Proof.
  unfold stableSort. induction l as [|x l IH]; cbn; [done|].
  rewrite insertSorted_elem, IH, elem_of_cons. tauto.
Qed.

Lemma insertSorted_length {A} (before : A → A → bool) (x : A) (l : list A) :
  length (insertSorted before x l) = S (length l).
Proof.
  induction l as [|z l IH]; cbn; [done|]. destruct (before z x); cbn; by rewrite ?IH.
Qed.

Lemma stableSort_length {A} (before : A → A → bool) (l : list A) :
  length (stableSort before l) = length l.
Proof.
  unfold stableSort. induction l as [|x l IH]; cbn; [done|].
  by rewrite insertSorted_length, IH.
Qed.

Lemma evaluateRoot_returns fuel env cfg game maxi start : ∀ moves evaluations s w,
  sound game → countersBelow game (cfg_maxDepth cfg) →
  1 ≤ cfg_maxDepth cfg → (Z.to_nat (cfg_maxDepth cfg - 1) < fuel)%nat →
  ∃ evs s' w',
    MinimaxAI.evaluateRoot fuel env cfg game maxi start moves evaluations s w
      = Returns (evs, s', w')
    ∧ (∀ e, e ∈ evs → e ∈ evaluations ∨ me_move e ∈ moves)
    ∧ (length evaluations ≤ length evs)%nat
    ∧ (moves ≠ [] → evs ≠ []).
Proof.
  intros moves evaluations s w Hg Hbelow Hd Hfuel. revert evaluations s w.
  induction moves as [|m moves IH]; intros evaluations s w; cbn [MinimaxAI.evaluateRoot].
  - exists evaluations, s, w. repeat split; auto.
  - destruct (cloneGame_sound game Hg
                (countersBelow_le game (cfg_maxDepth cfg) 0 ltac:(lia) Hbelow))
      as (copy & -> & _ & _ & _ & _ & Hclock & Hfull & _ & _ & _ & Hsound).
    destruct (minimax_sound_returns fuel env cfg (Game.move copy (toOptions m)).2
                (cfg_maxDepth cfg - 1) NegInfinity PosInfinity (negb maxi) start s w)
      as (v & s1 & w1 & ->);
      [by apply sound_move
      |apply countersBelow_move; [done|lia|];
       unfold countersBelow; by rewrite Hclock, Hfull
      |lia|lia|].
    destruct (dateNow env w1) as [t w2].
    set (e0 := {| me_move := m; me_score := v; me_depth := cfg_maxDepth cfg;
                  me_nodesEvaluated := Some (stat_nodesEvaluated s1) |}).
    destruct (cfg_maxThinkingTime cfg <? t - start).
    + exists (evaluations ++ [e0]), s1, w2. split; [done|]. split; [|split].
      * intros e [He| ->%list_elem_of_singleton]%elem_of_app; [by left|].
        right. by left.
      * rewrite length_app. lia.
      * intros _. by destruct evaluations.
    + destruct (IH (evaluations ++ [e0]) s1 w2) as (evs & s' & w' & -> & Hin & Hlen & _).
      exists evs, s', w'. split; [done|]. split; [|split].
      * intros e He. destruct (Hin e He) as [[H| ->%list_elem_of_singleton]%elem_of_app|H].
        -- by left.
        -- right. by left.
        -- right. by right.
      * rewrite length_app in Hlen. lia.
      * intros _ ->. rewrite length_app in Hlen. cbn in Hlen. lia.
Qed.

(** X22. On a game that the public operations can produce and whose
    counters stay at or below [Number.MAX_SAFE_INTEGER] for as many more
    moves as the search is deep, with a search depth of at least one, a
    step budget above it and random numbers between 0 and 1, [analyze]
    throws when there is no legal move and otherwise returns an analysis
    whose best move is one of the legal moves; the analysis never names an
    opening, with or without a book. *)
Theorem analysis_names_a_legal_move (fuel : nat) (env : Env) (this : MinimaxAI.t)
  (game : Game.t) (w : World) :
  reachable game → fairEnv env →
  countersBelow game (cfg_maxDepth (MinimaxAI.config this)) →
  1 ≤ cfg_maxDepth (MinimaxAI.config this) →
  (Z.to_nat (cfg_maxDepth (MinimaxAI.config this) - 1) < fuel)%nat →
  match Game.getLegalMoves game with
  | [] => (MinimaxAI.analyze fuel env this game w).1.1
          = Throws "No legal moves available"
  | _ :: _ =>
      ∃ a, (MinimaxAI.analyze fuel env this game w).1.1 = Returns a
           ∧ bestMove a ∈ Game.getLegalMoves game
           ∧ openingName a = None ∧ eco a = None
  end.
Proof.
  intros Hg%reachable_sound Hfair Hbelow Hd Hfuel.
  unfold MinimaxAI.analyze.
  destruct (dateNow env w) as [startTime w0].
  destruct (probeBook_miss env this game startTime w0) as [w1 ->].
  destruct (Game.getLegalMoves game) as [|m0 [|m1 rest]] eqn:Hmoves; [done|..].
  - destruct (dateNow env w1) as [t w2]. eexists. cbn. repeat split. by left.
  - cbn [MinimaxAI.withStats MinimaxAI.config MinimaxAI.stats].
    destruct (evaluateRoot_returns fuel env (MinimaxAI.config this) game
                (bool_decide (Game.getTurn game = white)) startTime
                (m0 :: m1 :: rest) [] MinimaxAI.zeroStats w1 Hg Hbelow Hd Hfuel)
      as (evs & s' & w' & -> & Hin & _ & Hne).
    set (sorted := stableSort _ evs).
    assert (sorted ≠ []) as Hsorted.
    { intros E. apply (f_equal length) in E. unfold sorted in E.
      rewrite stableSort_length in E. destruct evs; [by apply Hne|done]. }
    assert (∀ e, e ∈ sorted → me_move e ∈ m0 :: m1 :: rest) as Hmem.
    { intros e He. apply stableSort_elem in He.
      destruct (Hin e He) as [H|H]; [by apply elem_of_nil in H|done]. }
    assert (∃ first, sorted !! 0%nat = Some first) as [first Hfirst]
      by (destruct sorted; [done|eauto]).
    assert (∀ chosen w2,
              (chosen < length sorted)%nat →
              ∃ a, (match sorted !! chosen, sorted !! 0%nat with
                    | Some pick, Some first =>
                        let '(t, w) := dateNow env w2 in
                        (Returns {| bestMove := me_move pick; score := me_score first;
                                    thinkingTime := t - startTime;
                                    depth := stat_maxDepthReached s';
                                    nodesEvaluated := stat_nodesEvaluated s';
                                    openingName := None; eco := None;
                                    topMoves := Some (take 5 sorted) |},
                         MinimaxAI.withStats (MinimaxAI.withStats this MinimaxAI.zeroStats) s',
                         w)
                    | _, _ =>
                        (Throws "Cannot read properties of undefined (reading 'move')",
                         MinimaxAI.withStats (MinimaxAI.withStats this MinimaxAI.zeroStats) s',
                         w2)
                    end).1.1 = Returns a
                   ∧ bestMove a ∈ m0 :: m1 :: rest
                   ∧ openingName a = None ∧ eco a = None) as Hpick.
    { intros chosen w2 Hlt.
      destruct (lookup_lt_is_Some_2 sorted chosen Hlt) as [pick Hpick].
      rewrite Hpick, Hfirst. destruct (dateNow env w2) as [t w3].
      eexists. cbn. repeat split. apply Hmem. by eapply list_elem_of_lookup_2. }
    assert (0 < length sorted)%nat as Hpos by (destruct sorted; [done|cbn; lia]).
    cbn [MinimaxAI.config MinimaxAI.withStats].
    destruct (Qle_bool _ 0); [by apply Hpick|].
    destruct (mathRandom env w') as [r w2] eqn:Hr.
    destruct (Qle_bool _ r); [by apply Hpick|].
    destruct (mathRandom env w2) as [r' w3] eqn:Hr'.
    apply Hpick.
    assert ((0 <= r')%Q ∧ (r' < 1)%Q) as [H0 H1].
    { unfold mathRandom in Hr'. injection Hr' as <- _. apply Hfair. }
    pose proof (floor_index r' (Z.min 3 (Z.of_nat (length sorted))) H0 H1
                  ltac:(lia)). lia.
Qed.

Lemma analysis_names_a_legal_move_witness :
  match Game.getLegalMoves (Game.new None) with
  | [] => (MinimaxAI.analyze 3 anyEnv (MinimaxAI.new None None) (Game.new None)
             startWorld).1.1
          = Throws "No legal moves available"
  | _ :: _ =>
      ∃ a, (MinimaxAI.analyze 3 anyEnv (MinimaxAI.new None None) (Game.new None)
              startWorld).1.1 = Returns a
           ∧ bestMove a ∈ Game.getLegalMoves (Game.new None)
           ∧ openingName a = None ∧ eco a = None
  end.
Proof.
  apply (analysis_names_a_legal_move 3 anyEnv (MinimaxAI.new None None)
           (Game.new None) startWorld);
    [apply reach_new|intros k; split; [discriminate|reflexivity]
    |by vm_compute|cbn; lia|cbn; lia].
Defined.

(** ** The opening book *)

Lemma heaviest_spec (rest : list OpeningMove) : ∀ first,
  let best := foldl (λ best current,
                       if Qle_bool (om_weight current) (om_weight best)
                       then best else current) first rest in
  best ∈ first :: rest
  ∧ ∀ m, m ∈ first :: rest → (om_weight m <= om_weight best)%Q.
Proof.
  induction rest as [|x rest IH]; intros first; cbn.
  - split; [by left|]. intros m ->%list_elem_of_singleton. apply Qle_refl.
  - destruct (Qle_bool (om_weight x) (om_weight first)) eqn:E.
    + destruct (IH first) as [Hin Hmax]. split.
      * apply elem_of_cons in Hin as [->|Hin]; [by left|]. by do 2 right.
      * intros m [->|[->|Hm]%elem_of_cons]%elem_of_cons.
        -- apply Hmax. by left.
        -- apply Qle_bool_iff in E. eapply Qle_trans; [exact E|]. apply Hmax. by left.
        -- apply Hmax. by right.
    + destruct (IH x) as [Hin Hmax]. split; [by right|].
      intros m [->|Hm]%elem_of_cons; [|by apply Hmax].
      eapply Qle_trans; [|apply Hmax; by left].
      apply Qlt_le_weak, Qnot_le_lt. intros H%Qle_bool_iff. congruence.
Qed.

Lemma pick_elem moves : ∀ x m, OpeningBook.pick moves x = Some m → m ∈ moves.
Proof.
  induction moves as [|y moves IH]; intros x m; cbn; [done|].
  destruct (Qle_bool _ 0); [intros [= <-]; by left|].
  intros H%IH. by right.
Qed.

Lemma selectMove_returns (env : Env) (book : OpeningBook.t)
  (moves : list OpeningMove) (w : World) :
  moves ≠ [] →
  ∃ m w', OpeningBook.selectMove env book moves w = (Ok m, w')
          ∧ m ∈ moves
          ∧ (ob_randomize (OpeningBook.config book) = false →
             w' = w ∧ ∀ m', m' ∈ moves → (om_weight m' <= om_weight m)%Q).
Proof.
  intros Hne. unfold OpeningBook.selectMove.
  destruct moves as [|first rest]; [done|].
  destruct (ob_randomize (OpeningBook.config book)); cbn [negb].
  - destruct (mathRandom env w) as [r w'].
    destruct (OpeningBook.pick _ _) as [m|] eqn:Hpick.
    + exists m, w'. split; [done|]. split; [by eapply pick_elem|done].
    + exists first, w'. split; [done|]. split; [by left|done].
  - destruct (heaviest_spec rest first) as [Hin Hmax].
    eexists _, w. split; [reflexivity|]. split; [done|]. by intros _.
Qed.

(** X23. From a list that is not empty [selectMove] returns one of its
    moves.  Without randomisation it draws no random number and the move it
    returns has the greatest weight of the list. *)
Theorem selectMove_choice (env : Env) (book : OpeningBook.t)
  (moves : list OpeningMove) (w : World) :
  moves ≠ [] →
  ∃ m w', OpeningBook.selectMove env book moves w = (Ok m, w')
          ∧ m ∈ moves
          ∧ (ob_randomize (OpeningBook.config book) = false →
             w' = w ∧ ∀ m', m' ∈ moves → (om_weight m' <= om_weight m)%Q).
Proof. apply selectMove_returns. Qed.

Lemma selectMove_choice_witness :
  ∃ m w',
    OpeningBook.selectMove anyEnv (OpeningBook.new (Build_PartialBookConfig None None (Some false) None))
      [{| om_move := "e4"; om_weight := 45; om_eco := None; om_name := None;
          om_variation := None |};
       {| om_move := "d4"; om_weight := 40; om_eco := None; om_name := None;
          om_variation := None |}] startWorld = (Ok m, w')
    ∧ m ∈ [{| om_move := "e4"; om_weight := 45; om_eco := None; om_name := None;
               om_variation := None |};
            {| om_move := "d4"; om_weight := 40; om_eco := None; om_name := None;
               om_variation := None |}]
    ∧ (ob_randomize
         (OpeningBook.config
            (OpeningBook.new (Build_PartialBookConfig None None (Some false) None))) = false →
       w' = startWorld
       ∧ ∀ m',
           m' ∈ [{| om_move := "e4"; om_weight := 45; om_eco := None; om_name := None;
                    om_variation := None |};
                 {| om_move := "d4"; om_weight := 40; om_eco := None; om_name := None;
                    om_variation := None |}] →
           (om_weight m' <= om_weight m)%Q).
Proof. apply selectMove_choice. discriminate. Defined.

Lemma splitOn_free_parts sep s :
  Forall (λ p, allChars (λ c, negb (Ascii.eqb c sep)) p = true) (splitOn sep s)
  ∧ splitOn sep s ≠ [].
Proof.
  induction s as [|c s [IH Hne]]; cbn.
  - split; [by repeat constructor|done].
  - destruct (Ascii.eqb c sep) eqn:E.
    + split; [by constructor|done].
    + destruct (splitOn sep s) as [|h t]; [done|].
      apply Forall_cons in IH as [Hh Ht]. split; [|done].
      constructor; [|done]. cbn. by rewrite E, Hh.
Qed.

Lemma normalizeFEN_idem fen :
  OpeningBook.normalizeFEN (OpeningBook.normalizeFEN fen) = OpeningBook.normalizeFEN fen.
Proof.
  unfold OpeningBook.normalizeFEN.
  destruct (splitOn_free_parts " " fen) as [Hfree Hne].
  rewrite splitOn_concat.
  - by rewrite take_take.
  - destruct (splitOn " " fen); done.
  - by apply Forall_take.
Qed.

(** X24. The book is consulted under the first four fields of a FEN
    text only.  After [loadData], [hasPosition] and [getMoves] answer from
    the entry stored under the normalised text, normalising twice changes
    nothing, and so an entry stored under a key that is not in normalised
    form is never found. *)
Theorem book_lookup_uses_normal_form (this : OpeningBook.t) (data : OpeningBookData)
  (fen : string) :
  OpeningBook.hasPosition (OpeningBook.loadData this data) fen
  = bool_decide (is_Some (obd_positions data !! OpeningBook.normalizeFEN fen))
  ∧ OpeningBook.getMoves (OpeningBook.loadData this data) fen
    = default [] (obd_positions data !! OpeningBook.normalizeFEN fen)
  ∧ OpeningBook.normalizeFEN (OpeningBook.normalizeFEN fen)
    = OpeningBook.normalizeFEN fen
  ∧ (∀ key moves,
       obd_positions data = {[ key := moves ]} →
       OpeningBook.normalizeFEN key ≠ key →
       OpeningBook.hasPosition (OpeningBook.loadData this data) fen = false)
  ∧ OpeningBook.hasPosition (OpeningBook.clear (OpeningBook.loadData this data)) fen = false.
Proof.
  split; [done|]. split; [done|]. split; [apply normalizeFEN_idem|]. split; [|done].
  intros key moves Hdata Hkey. unfold OpeningBook.hasPosition, OpeningBook.loadData.
  cbn [OpeningBook.positions]. rewrite Hdata.
  apply bool_decide_eq_false. intros [x Hx].
  apply lookup_singleton_Some in Hx as [E _].
  rewrite E in Hkey. by rewrite normalizeFEN_idem in Hkey.
Qed.

(** X25. [getMove] never throws.  When it proposes a move, the book is
    enabled, fewer plies have been played than its depth, and the move is
    one of those stored under the normalised FEN text of the game, with at
    least the minimum weight. *)
Theorem getMove_proposes_stored_moves (env : Env) (book : OpeningBook.t)
  (game : Game.t) (w : World) :
  match (OpeningBook.getMove env book game w).1 with
  | Ok (Some m) =>
      ob_enabled (OpeningBook.config book) = true
      ∧ Z.of_nat (length (Game.getHistory game)) < ob_maxDepth (OpeningBook.config book)
      ∧ ∃ moves,
          OpeningBook.positions book !! OpeningBook.normalizeFEN (Game.getFen game)
          = Some moves
          ∧ m ∈ moves
          ∧ (ob_minWeight (OpeningBook.config book) <= om_weight m)%Q
  | Ok None => True
  | Throw _ => False
  end.
Proof.
  unfold OpeningBook.getMove.
  destruct (ob_enabled (OpeningBook.config book)); [|done]. cbn [negb].
  destruct (_ <=? _) eqn:Hply; [done|].
  destruct (OpeningBook.positions book !! _) as [[|m0 moves]|] eqn:Hpos; try done.
  destruct (List.filter _ (m0 :: moves)) as [|v0 valid] eqn:Hvalid; [done|].
  destruct (selectMove_returns env book (v0 :: valid) w) as (m & w' & -> & Hin & _);
    [done|].
  cbn [fst]. split; [done|]. split; [lia|]. exists (m0 :: moves). split; [done|].
  rewrite <- Hvalid in Hin. apply list_elem_of_In, filter_In in Hin as [Hin Hw].
  split; [by apply list_elem_of_In|]. by apply Qle_bool_iff.
Qed.

(** ** The evaluation *)

Lemma evaluateMaterial_opposite b c :
  evaluateMaterial b (opposite c) = - evaluateMaterial b c.
Proof. unfold evaluateMaterial. rewrite opposite_involutive. lia. Qed.

(** X26. The material balance for one colour is the negated balance for
    the other, but [evaluateBoard] adds the same placement score, counted
    from White's side, for both colours: the score for Black is the
    negated score for White only where the placement score is zero. *)
Theorem evaluation_counts_placement_for_white (b : list (list (option Piece)))
  (c : Color) :
  evaluateMaterial b (opposite c) = - evaluateMaterial b c
  ∧ (evaluateBoard b c + evaluateBoard b (opposite c)
     == inject_Z (evaluatePosition b (isEndgame b)) * (2 # 10))%Q
  ∧ ((evaluateBoard b (opposite c) == - evaluateBoard b c)%Q
     ↔ evaluatePosition b (isEndgame b) = 0).
Proof.
  assert (evaluateBoard b c + evaluateBoard b (opposite c)
          == inject_Z (evaluatePosition b (isEndgame b)) * (2 # 10))%Q as Hsum.
  { unfold evaluateBoard. rewrite evaluateMaterial_opposite, inject_Z_opp. ring. }
  split; [apply evaluateMaterial_opposite|]. split; [exact Hsum|].
  split.
  - intros H. rewrite H in Hsum.
    assert (inject_Z (evaluatePosition b (isEndgame b)) == 0)%Q as H0.
    { assert (¬ (2 # 10 == 0)%Q) as Hnz by (intros E; compute in E; discriminate E).
      apply (proj1 (Qmult_inj_r _ _ (2 # 10) Hnz)). rewrite <- Hsum.
      rewrite Qplus_opp_r, Qmult_0_l. reflexivity. }
    by apply (proj1 (inject_Z_injective _ 0)).
  - intros H. rewrite H in Hsum.
    apply (proj1 (Qplus_inj_l _ _ (evaluateBoard b c))).
    rewrite Hsum, Qplus_opp_r. cbn [inject_Z]. reflexivity.
Qed.

(** ** Patterns *)

Lemma accept_spec r : ∀ s k,
  accept r s k = true ↔ ∃ s1 s2, s = s1 +++ s2 ∧ inLang r s1 ∧ k s2 = true.
Proof.
  induction r as [P|a IHa b IHb|a IHa]; intros s k; cbn [accept inLang].
  - destruct s as [|c s'].
    + split; [done|]. intros (s1 & s2 & Hs & (c & -> & _) & _). done.
    + rewrite andb_true_iff. split.
      * intros [HP Hk]. exists (str c), s'. eauto.
      * intros (s1 & s2 & Hs & (c' & -> & HP) & Hk). by injection Hs as -> ->.
  - rewrite IHa. split.
    + intros (s1 & s2 & -> & Ha & (s3 & s4 & -> & Hb & Hk)%IHb).
      exists (s1 +++ s3), s4. rewrite append_assoc. eauto 10.
    + intros (s12 & s4 & -> & (s1 & s3 & -> & Ha & Hb) & Hk).
      exists s1, (s3 +++ s4). rewrite append_assoc. split; [done|]. split; [done|].
      apply IHb. eauto.
  - rewrite orb_true_iff, IHa. split.
    + intros [(s1 & s2 & -> & Ha & Hk)|Hk]; [by eauto 10|].
      exists EmptyString, s. eauto.
    + intros (s1 & s2 & -> & [->|Ha] & Hk); [by right|]. left. eauto.
Qed.

Lemma test_spec r s : test r s = true ↔ inLang r s.
Proof.
  unfold test. rewrite accept_spec. split.
  - intros (s1 & s2 & -> & H & <-%String.eqb_eq). by rewrite append_nil_r.
  - intros H. exists s, EmptyString. by rewrite append_nil_r.
Qed.

Lemma lastChar_app s c t : lastChar (s +++ String c t) = lastChar (String c t).
Proof.
  induction s as [|d s IH]; [done|]. rewrite append_cons.
  cbn [lastChar]. rewrite IH. by destruct s.
Qed.

Lemma lastChar_nil s : lastChar (s +++ EmptyString) = lastChar s.
Proof. by rewrite append_nil_r. Qed.

Lemma dropCheckMark_cons d e t :
  PgnParser.dropCheckMark (String d (String e t))
  = String d (PgnParser.dropCheckMark (String e t)).
Proof. done. Qed.

Lemma dropCheckMark_app s c suffix :
  lastChar s = Some c → oneOf "+#" c = false →
  suffix ∈ [EmptyString; "+"; "#"]%string →
  PgnParser.dropCheckMark (s +++ suffix) = s.
Proof.
  intros Hlast Hc Hsuffix. induction s as [|d s IH]; [done|].
  rewrite append_cons. destruct s as [|e s].
  - injection Hlast as ->.
    rewrite append_nil.
    repeat (apply elem_of_cons in Hsuffix as [->|Hsuffix]);
      [cbn [PgnParser.dropCheckMark]; by rewrite Hc|done|done
      |by apply elem_of_nil in Hsuffix].
  - cbn [lastChar] in Hlast. specialize (IH Hlast).
    rewrite append_cons in *. by rewrite dropCheckMark_cons, IH.
Qed.

(** What the two patterns of the reader accept. *)
Lemma castlingPattern_spec s :
  inLang PgnParser.castlingPattern s ↔ s = "O-O"%string ∨ s = "O-O-O"%string.
Proof.
  unfold PgnParser.castlingPattern. cbn [inLang]. split.
  - intros (? & ? & -> & (c1 & -> & <-%Ascii.eqb_eq)
            & ? & ? & -> & (c2 & -> & <-%Ascii.eqb_eq)
            & ? & ? & -> & (c3 & -> & <-%Ascii.eqb_eq)
            & [->|(? & ? & -> & (c4 & -> & <-%Ascii.eqb_eq)
                   & (c5 & -> & <-%Ascii.eqb_eq))]); auto.
  - intros [-> | ->].
    + exists "O"%string, "-O"%string. split; [done|]. split; [by exists "O"%char|].
      exists "-"%string, "O"%string. split; [done|]. split; [by exists "-"%char|].
      exists "O"%string, EmptyString. split; [done|]. split; [by exists "O"%char|].
      by left.
    + exists "O"%string, "-O-O"%string. split; [done|]. split; [by exists "O"%char|].
      exists "-"%string, "O-O"%string. split; [done|]. split; [by exists "-"%char|].
      exists "O"%string, "-O"%string. split; [done|]. split; [by exists "O"%char|].
      right. exists "-"%string, "O"%string. split; [done|].
      split; [by exists "-"%char | by exists "O"%char].
Qed.

Lemma opt_class P (a : string) :
  a = EmptyString ∨ (∃ c, a = str c ∧ P c = true) → inLang (Opt (Class P)) a.
Proof. done. Qed.

Lemma movePattern_intro (a1 a2 a3 a4 a7 : string) (f r : ascii) :
  inLang (Opt (Class (oneOf "NBRQK"))) a1 →
  inLang (Opt (Class (between "a" "h"))) a2 →
  inLang (Opt (Class (between "1" "8"))) a3 →
  inLang (Opt (Class (Ascii.eqb "x"))) a4 →
  between "a" "h" f = true → between "1" "8" r = true →
  inLang (Opt (Seq (Class (Ascii.eqb "=")) (Class (oneOf "NBRQ")))) a7 →
  inLang PgnParser.movePattern
    (a1 +++ a2 +++ a3 +++ a4 +++ String f (String r a7)).
Proof.
  intros H1 H2 H3 H4 Hf Hr H7. unfold PgnParser.movePattern.
  exists a1, (a2 +++ a3 +++ a4 +++ String f (String r a7)).
  split; [done|]. split; [done|].
  exists a2, (a3 +++ a4 +++ String f (String r a7)).
  split; [done|]. split; [done|].
  exists a3, (a4 +++ String f (String r a7)).
  split; [done|]. split; [done|].
  exists a4, (String f (String r a7)). split; [done|]. split; [done|].
  exists (str f), (String r a7). split; [done|]. split; [by exists f|].
  exists (str r), a7. split; [done|]. split; [by exists r|]. done.
Qed.

Lemma movePattern_last s :
  inLang PgnParser.movePattern s →
  ∃ c, lastChar s = Some c ∧ (between "1" "8" c || oneOf "NBRQ" c = true).
Proof.
  intros (a1 & ? & -> & _ & a2 & ? & -> & _ & a3 & ? & -> & _ & a4 & ? & -> & _
          & ? & ? & -> & (f & -> & _) & ? & a7 & -> & (r & -> & Hr) & H7).
  destruct H7 as [->|(? & ? & -> & (e & -> & _) & (p & -> & Hp))].
  - exists r. rewrite <- !append_assoc, append_nil_r. unfold str.
    rewrite lastChar_app. cbn [lastChar]. by rewrite Hr.
  - exists p. rewrite <- !append_assoc. unfold str.
    rewrite lastChar_app. cbn [lastChar]. by rewrite Hp, orb_true_r.
Qed.

(** ** Variations in a move text *)

Lemma removeVariationsFrom_plain text : ∀ cleaned,
  allChars notParenthesis text = true →
  PgnParser.removeVariationsFrom text 0 cleaned = cleaned +++ text.
Proof.
  induction text as [|c text IH]; intros cleaned; cbn [allChars].
  - by rewrite append_nil_r.
  - intros [Hc Htext]%andb_true_iff. cbn [PgnParser.removeVariationsFrom].
    apply andb_true_iff in Hc as [->%negb_true_iff ->%negb_true_iff].
    cbn [Z.eqb]. rewrite IH by done. by rewrite append_assoc.
Qed.

Lemma removeVariationsFrom_clean text : ∀ depth cleaned,
  allChars notParenthesis cleaned = true →
  allChars notParenthesis (PgnParser.removeVariationsFrom text depth cleaned) = true.
Proof.
  induction text as [|c text IH]; intros depth cleaned Hcleaned; [done|].
  cbn [PgnParser.removeVariationsFrom].
  destruct (Ascii.eqb c "(") eqn:Ho; [by apply IH|].
  destruct (Ascii.eqb c ")") eqn:Hc; [by apply IH|].
  destruct (depth =? 0); [|by apply IH].
  apply IH. rewrite allChars_app, Hcleaned. cbn. unfold notParenthesis.
  by rewrite Ho, Hc.
Qed.

Lemma removeVariationsFrom_closed text : ∀ depth cleaned,
  depth < 0 →
  allChars (λ c, negb (Ascii.eqb c "(")) text = true →
  PgnParser.removeVariationsFrom text depth cleaned = cleaned.
Proof.
  induction text as [|c text IH]; intros depth cleaned Hdepth; [done|].
  cbn [allChars PgnParser.removeVariationsFrom].
  intros [->%negb_true_iff Htext]%andb_true_iff.
  destruct (Ascii.eqb c ")"); [apply IH; [lia|done]|].
  destruct (Z.eqb_spec depth 0); [lia|]. by apply IH.
Qed.

Lemma removeVariationsFrom_app s : ∀ t depth cleaned,
  allChars notParenthesis s = true →
  PgnParser.removeVariationsFrom (s +++ t) depth cleaned
  = PgnParser.removeVariationsFrom t depth
      (if depth =? 0 then cleaned +++ s else cleaned).
Proof.
  induction s as [|c s IH]; intros t depth cleaned.
  - intros _. rewrite append_nil, append_nil_r. by destruct (depth =? 0).
  - cbn [allChars]. intros [Hc Hs]%andb_true_iff.
    rewrite append_cons. cbn [PgnParser.removeVariationsFrom].
    apply andb_true_iff in Hc as [->%negb_true_iff ->%negb_true_iff].
    destruct (depth =? 0) eqn:Hd; rewrite IH, Hd by done; [|done].
    by rewrite append_assoc.
Qed.

(** X27. [removeVariations] returns a text without parentheses, keeps a
    text without parentheses as it is, and so changes nothing when it is
    applied a second time. *)
Theorem removeVariations_result (text : string) :
  allChars notParenthesis (PgnParser.removeVariations text) = true
  ∧ PgnParser.removeVariations (PgnParser.removeVariations text)
    = PgnParser.removeVariations text
  ∧ (allChars notParenthesis text = true ↔ PgnParser.removeVariations text = text).
Proof.
  assert (allChars notParenthesis (PgnParser.removeVariations text) = true) as Hclean
    by by apply removeVariationsFrom_clean.
  assert (∀ t, allChars notParenthesis t = true → PgnParser.removeVariations t = t)
    as Hplain.
  { intros t Ht. unfold PgnParser.removeVariations.
    by rewrite removeVariationsFrom_plain. }
  split; [done|]. split; [by apply Hplain|]. split; [apply Hplain|].
  intros H. by rewrite <- H.
Qed.

(** X28. A closing parenthesis that closes nothing ends the text:
    whatever follows it is dropped, as long as no opening parenthesis
    follows. *)
Theorem unmatched_parenthesis_drops_rest (kept rest : string) :
  allChars notParenthesis kept = true →
  allChars (λ c, negb (Ascii.eqb c "(")) rest = true →
  PgnParser.removeVariations (kept +++ ")" +++ rest) = kept.
Proof.
  intros Hkept Hrest. unfold PgnParser.removeVariations.
  rewrite removeVariationsFrom_app by done. cbn [Z.eqb].
  rewrite append_cons, append_nil. cbn [PgnParser.removeVariationsFrom].
  change (Ascii.eqb ")" "(") with false. change (Ascii.eqb ")" ")") with true.
  cbn iota. by rewrite removeVariationsFrom_closed.
Qed.

Lemma unmatched_parenthesis_drops_rest_witness :
  PgnParser.removeVariations ("1. e4 " +++ ")" +++ " e5 2. Nf3") = "1. e4 "%string.
Proof.
  apply (unmatched_parenthesis_drops_rest "1. e4 " " e5 2. Nf3"); reflexivity.
Defined.

(** ** The notation of a played move *)

Lemma rank_char r n :
  parseInt (str r) = Some n → 1 ≤ n ≤ 8 → between "1" "8" r = true.
Proof.
  destruct r as [[] [] [] [] [] [] [] []]; vm_compute; intros [= <-]; intros [H1 H2];
    try reflexivity; exfalso; (by apply H1) || (by apply H2).
Qed.

Lemma valid_square_chars sq :
  Board.isValidSquare sq = true →
  ∃ f r, sq = String f (str r)
         ∧ between "a" "h" f = true ∧ between "1" "8" r = true.
Proof.
  unfold Board.isValidSquare. destruct (Board.squareToCoords sq) as [co|] eqn:Hsq; [|done].
  intros _. pose proof (squareToCoords_Some _ _ Hsq) as (Hrow & Hcol & _).
  apply square_parts in Hsq as Hparts. destruct Hparts as (f & Hf & Hcode & Hrank).
  unfold Board.squareToCoords in Hsq.
  destruct sq as [|f' [|r [|? ?]]]; try done.
  injection Hf as ->. exists f, r. split; [done|]. split.
  - unfold between. change (charCode "a") with 97. change (charCode "h") with 104.
    apply andb_true_iff. split; apply Z.leb_le; lia.
  - apply (rank_char r (row co + 1)); [done|lia].
Qed.

Lemma not_check_mark c :
  between "1" "8" c || oneOf "NBRQ" c || Ascii.eqb c "O" || Ascii.eqb c "K" = true →
  oneOf "+#" c = false.
Proof.
  unfold oneOf. cbn [list_ascii_of_string existsb].
  destruct (Ascii.eqb_spec c "+") as [->|]; [done|].
  destruct (Ascii.eqb_spec c "#") as [->|]; done.
Qed.

Lemma promotion_played g o m :
  (Game.move g o).1 = Some m →
  promotion m = None
  ∨ (type (piece m) = pawn ∧ castling m = None
     ∧ ∃ pp, pp ∈ MoveGenerator.promotionPieces ∧ promotion m = Some pp).
Proof.
  unfold Game.move.
  destruct (negb _) eqn:Hvalid; [done|]. apply negb_false_iff in Hvalid.
  apply validateMove_valid in Hvalid
    as (Hvf & Hvt & Hne & (p & Hp & Hcol) & (m' & Hin & Hmatch)).
  cbn [Game.moveGenerator MoveGenerator.board] in Hp. rewrite Hp. cbv zeta.
  intros [= <-]. cbn [piece promotion castling].
  destruct (mo_promotion o) as [pp|] eqn:Hpp; [right|by left].
  apply matches_spec in Hmatch as (_ & _ & Hpromo). specialize (Hpromo pp Hpp).
  apply generateLegalMovesFrom_kind in Hin as (p' & fc & Hp' & _ & _ & Hkind).
  cbn [Game.moveGenerator MoveGenerator.board] in Hp'.
  assert (p' = p) as -> by congruence.
  assert (type p = pawn ∧ pp ∈ MoveGenerator.promotionPieces) as [Hpawn Hin].
  { destruct Hkind as [tc target Htc Htarget Hlegal Hm|Hpawn Hep|side Hking ->].
    - destruct Hm as [[-> _]|[Hrank (pp' & Hin & ->)]]; [done|].
      apply andb_true_iff in Hrank as [Hpawn%bool_decide_eq_true _].
      cbn in Hpromo. by injection Hpromo as ->.
    - apply getEnPassantMove_fields in Hep as (_ & _ & _ & _ & Hnone & _). congruence.
    - done. }
  repeat split; [done| |by exists pp].
  unfold Game.isCastlingMove. rewrite Hp, Hpawn. done.
Qed.

Lemma san_played g o m :
  (Game.move g o).1 = Some m →
  ∃ suffix, suffix ∈ [EmptyString; "+"; "#"]%string
            ∧ san m = Some (Game.generateSan g m +++ suffix).
Proof.
  unfold Game.move.
  destruct (negb _); [done|].
  destruct (Board.getPiece (Game.board g) (mo_from o)) as [p|]; [|done]. cbv zeta.
  intros [= <-]. cbn [san].
  eexists. split; [|reflexivity].
  destruct (bool_decide _); [by do 2 right; left|].
  destruct (isKingInCheck _ _); [by right; left|by left].
Qed.

Lemma generateSan_castling g m side :
  castling m = Some side →
  Game.generateSan g m
  = match side with kingside => "O-O" | queenside => "O-O-O" end%string.
Proof. unfold Game.generateSan. intros ->. by destruct side. Qed.

Ltac shape_by a1 a2 a3 a4 :=
  exists a1, a2, a3, a4; split; [reflexivity|];
  repeat split;
  first [assumption | by left | right; eexists; split; reflexivity].

Lemma generateSan_shape g m f r f' r' :
  from m = String f (str r) → to m = String f' (str r') →
  between "a" "h" f = true → between "1" "8" r = true →
  castling m = None →
  ∃ a1 a2 a3 a4,
    Game.generateSan g m
    = a1 +++ a2 +++ a3 +++ a4 +++ String f' (String r' (promotionMark (promotion m)))
    ∧ inLang (Opt (Class (oneOf "NBRQK"))) a1
    ∧ inLang (Opt (Class (between "a" "h"))) a2
    ∧ inLang (Opt (Class (between "1" "8"))) a3
    ∧ inLang (Opt (Class (Ascii.eqb "x"))) a4.
Proof.
  intros Hfrom Hto Hf Hr Hcastling.
  assert (inLang (Opt (Class (between "a" "h"))) (str f)) as Hfile
    by (right; by exists f).
  assert (inLang (Opt (Class (between "1" "8"))) (str r)) as Hrank
    by (right; by exists r).
  assert (inLang (Opt (Class (Ascii.eqb "x"))) "x") as Hx
    by (right; by exists "x"%char).
  assert (∀ P, inLang (Opt (Class P)) EmptyString) as Hnone by (intros P; by left).
  unfold Game.generateSan, Game.getDisambiguation. rewrite Hcastling, Hfrom, Hto.
  fold (promotionMark (promotion m)).
  change (charAt (String f (str r)) 0) with (str f).
  change (charAt (String f (str r)) 1) with (str r).
  set (capture := bool_decide (is_Some (captured m)) || enPassant m).
  set (mark := promotionMark (promotion m)).
  destruct (type (piece m)) eqn:Htype.
  all: repeat match goal with
         | |- context [bool_decide ?P] =>
             let b := eval vm_compute in (bool_decide P) in
             change (bool_decide P) with b
         end.
  all: cbn [orb Game.pieceMap]; cbv iota.
  all: repeat match goal with
         | |- context [match ?l with [] => _ | _ :: _ => _ end] => destruct l
         | |- context [if negb ?b then _ else _] => destruct b; cbn [negb]
         end.
  all: destruct capture.
  all: first
    [ shape_by EmptyString EmptyString EmptyString EmptyString
    | shape_by EmptyString (str f) EmptyString "x"%string
    | shape_by "K"%string EmptyString EmptyString EmptyString
    | shape_by "K"%string EmptyString EmptyString "x"%string
    | shape_by "Q"%string EmptyString EmptyString EmptyString
    | shape_by "Q"%string EmptyString EmptyString "x"%string
    | shape_by "Q"%string (str f) EmptyString EmptyString
    | shape_by "Q"%string (str f) EmptyString "x"%string
    | shape_by "Q"%string EmptyString (str r) EmptyString
    | shape_by "Q"%string EmptyString (str r) "x"%string
    | shape_by "Q"%string (str f) (str r) EmptyString
    | shape_by "Q"%string (str f) (str r) "x"%string
    | shape_by "R"%string EmptyString EmptyString EmptyString
    | shape_by "R"%string EmptyString EmptyString "x"%string
    | shape_by "R"%string (str f) EmptyString EmptyString
    | shape_by "R"%string (str f) EmptyString "x"%string
    | shape_by "R"%string EmptyString (str r) EmptyString
    | shape_by "R"%string EmptyString (str r) "x"%string
    | shape_by "R"%string (str f) (str r) EmptyString
    | shape_by "R"%string (str f) (str r) "x"%string
    | shape_by "B"%string EmptyString EmptyString EmptyString
    | shape_by "B"%string EmptyString EmptyString "x"%string
    | shape_by "B"%string (str f) EmptyString EmptyString
    | shape_by "B"%string (str f) EmptyString "x"%string
    | shape_by "B"%string EmptyString (str r) EmptyString
    | shape_by "B"%string EmptyString (str r) "x"%string
    | shape_by "B"%string (str f) (str r) EmptyString
    | shape_by "B"%string (str f) (str r) "x"%string
    | shape_by "N"%string EmptyString EmptyString EmptyString
    | shape_by "N"%string EmptyString EmptyString "x"%string
    | shape_by "N"%string (str f) EmptyString EmptyString
    | shape_by "N"%string (str f) EmptyString "x"%string
    | shape_by "N"%string EmptyString (str r) EmptyString
    | shape_by "N"%string EmptyString (str r) "x"%string
    | shape_by "N"%string (str f) (str r) EmptyString
    | shape_by "N"%string (str f) (str r) "x"%string ].
Qed.

Lemma lastChar_shape (a : string) (f r : ascii) (mark : string) :
  lastChar (a +++ String f (String r mark)) = lastChar (String r mark).
Proof. rewrite lastChar_app. by destruct mark. Qed.

(** X29. The notation that [move] records for the move it played is a
    token that the PGN reader accepts as a move, with one exception: for a
    promotion to a knight [generateSan] writes the letter K, and the token
    is not accepted. *)
Theorem played_move_notation (g : Game.t) (o : MoveOptions) (m : Move) :
  (Game.move g o).1 = Some m →
  ∃ text, san m = Some text
          ∧ PgnParser.isValidSanMove text
            = negb (bool_decide (promotion m = Some knight)).
Proof.
  intros Hm.
  destruct (san_played _ _ _ Hm) as (suffix & Hsuffix & Hsan).
  exists (Game.generateSan g m +++ suffix). split; [done|].
  pose proof (promotion_played _ _ _ Hm) as Hpromo.
  pose proof (move_played _ _ _ Hm) as (_ & _ & Hvf & Hvt & _).
  unfold PgnParser.isValidSanMove. cbv zeta.
  destruct (castling m) as [side|] eqn:Hcastling.
  - rewrite (generateSan_castling _ _ _ Hcastling).
    assert (promotion m ≠ Some knight) as Hno.
    { destruct Hpromo as [->|(_ & ? & _)]; [done|congruence]. }
    rewrite (bool_decide_eq_false_2 _ Hno). cbn [negb].
    rewrite (dropCheckMark_app _ "O") by (done || by destruct side).
    by destruct side.
  - apply valid_square_chars in Hvf as (f & r & Hfrom & Hf & Hr).
    apply valid_square_chars in Hvt as (f' & r' & Hto & Hf' & Hr').
    destruct (generateSan_shape g m f r f' r' Hfrom Hto Hf Hr Hcastling)
      as (a1 & a2 & a3 & a4 & -> & H1 & H2 & H3 & H4).
    set (body := a1 +++ a2 +++ a3 +++ a4 +++ String f' (String r' _)).
    assert (lastChar body
            = lastChar (String r' (promotionMark (promotion m)))) as Hlast.
    { unfold body. rewrite <- !append_assoc. apply lastChar_shape. }
    assert (∀ mark,
              inLang (Opt (Seq (Class (Ascii.eqb "=")) (Class (oneOf "NBRQ")))) mark →
              promotionMark (promotion m) = mark →
              test PgnParser.movePattern body = true) as Haccepted.
    { intros mark Hmark Heq. apply test_spec. unfold body. rewrite Heq.
      by apply movePattern_intro. }
    assert (∀ mark, promotionMark (promotion m) = "=" +++ str mark →
                    oneOf "NBRQ" mark = true →
                    test PgnParser.movePattern body = true) as Hpiece.
    { intros mark Heq Hmark. apply (Haccepted ("=" +++ str mark)); [|done].
      right. exists "="%string, (str mark).
      split; [done|]. split; [by exists "="%char|by exists mark]. }
    destruct Hpromo as [Hnone|(_ & _ & pp & Hpp & Hsome)].
    + rewrite Hnone in *. cbn [promotionMark lastChar] in Hlast.
      rewrite (dropCheckMark_app _ r') by (done || by apply not_check_mark; rewrite Hr').
      rewrite (Haccepted EmptyString) by (done || by left).
      by destruct (test PgnParser.castlingPattern body).
    + rewrite Hsome in *.
      repeat (apply elem_of_cons in Hpp as [->|Hpp]);
        [..|by apply elem_of_nil in Hpp].
      * rewrite (dropCheckMark_app _ "Q") by done.
        rewrite (Hpiece "Q"%char) by done.
        by destruct (test PgnParser.castlingPattern body).
      * rewrite (dropCheckMark_app _ "R") by done.
        rewrite (Hpiece "R"%char) by done.
        by destruct (test PgnParser.castlingPattern body).
      * rewrite (dropCheckMark_app _ "B") by done.
        rewrite (Hpiece "B"%char) by done.
        by destruct (test PgnParser.castlingPattern body).
      * rewrite (dropCheckMark_app _ "K") by done.
        destruct (test PgnParser.castlingPattern body) eqn:Hc.
        { apply test_spec, castlingPattern_spec in Hc as [Hc|Hc];
            rewrite Hc in Hlast; discriminate Hlast. }
        destruct (test PgnParser.movePattern body) eqn:Hp; [|done].
        apply test_spec, movePattern_last in Hp as (c & Hc' & Hclass).
        rewrite Hlast in Hc'. injection Hc' as <-. discriminate Hclass.
Qed.

Lemma played_move_notation_witness :
  ∃ text,
    san {| from := "a7"; to := "a8"; piece := {| type := pawn; color := white |};
           captured := None; promotion := Some knight; castling := None;
           enPassant := false; san := Some "a8=K"%string; check := false;
           checkmate := false |} = Some text
    ∧ PgnParser.isValidSanMove text
      = negb (bool_decide
                (promotion
                   {| from := "a7"; to := "a8";
                      piece := {| type := pawn; color := white |};
                      captured := None; promotion := Some knight; castling := None;
                      enPassant := false; san := Some "a8=K"%string; check := false;
                      checkmate := false |} = Some knight)).
Proof.
  apply (played_move_notation promotionReady
           {| mo_from := "a7"; mo_to := "a8"; mo_promotion := Some knight |}).
  vm_compute. reflexivity.
Defined.

(** X30. When the move that [move] played is a checkmate, the result
    that the PGN writer gives for the new game names the mover as the
    winner; when it is none, the result is never a win. *)
Theorem mate_is_credited_to_the_mover (g : Game.t) (o : MoveOptions) (m : Move) :
  (Game.move g o).1 = Some m →
  PgnParser.getResultString (Game.move g o).2
  ∈ (if checkmate m
     then [match Game.currentTurn g with white => "1-0" | black => "0-1" end]
     else ["1/2-1/2"; "*"])%string.
Proof.
  unfold Game.move.
  destruct (negb _); [done|].
  destruct (Board.getPiece (Game.board g) (mo_from o)) as [p|]; [|done]. cbv zeta.
  intros [= <-]. cbn [checkmate snd].
  match goal with
  | |- context [Game.updateGameStatus ?x] =>
      destruct (updateGameStatus_frame x) as (s & Hs & _); rewrite !Hs;
        assert (Game.currentTurn x = opposite (Game.currentTurn g)) as Hturn
          by (unfold Game.recordPosition, Game.updateGameState;
              cbn [Game.currentTurn Game.withBoard]; reflexivity)
  end.
  unfold PgnParser.getResultString, Game.getStatus, Game.getTurn.
  cbn [Game.withStatus Game.withHistory Game.gameStatus Game.currentTurn].
  rewrite Hturn.
  destruct s, (Game.currentTurn g); cbn; set_solver.
Qed.

Lemma mate_is_credited_to_the_mover_witness :
  PgnParser.getResultString (Game.move mateReady (request "d8" "h4")).2
  ∈ (if checkmate
          {| from := "d8"; to := "h4"; piece := {| type := queen; color := black |};
             captured := None; promotion := None; castling := None;
             enPassant := false; san := Some "Qh4#"%string; check := false;
             checkmate := true |}
     then [match Game.currentTurn mateReady with white => "1-0" | black => "0-1" end]
     else ["1/2-1/2"; "*"])%string.
Proof.
  apply (mate_is_credited_to_the_mover mateReady (request "d8" "h4")).
  vm_compute. reflexivity.
Defined.

(** ** The mover's king after a played move *)

Lemma move_matched g o m :
  (Game.move g o).1 = Some m →
  ∃ m', m' ∈ Game.getLegalMovesFrom g (mo_from o)
        ∧ MoveGenerator.matches o m' = true.
Proof.
  unfold Game.move.
  destruct (negb _) eqn:Hvalid; [done|]. apply negb_false_iff in Hvalid.
  apply validateMove_valid in Hvalid as (_ & _ & _ & _ & Hm'). intros _. exact Hm'.
Qed.

Lemma executeMove_fields b m1 m2 :
  from m1 = from m2 → to m1 = to m2 → color (piece m1) = color (piece m2) →
  promotion m1 = promotion m2 → castling m1 = castling m2 →
  enPassant m1 = enPassant m2 →
  Game.executeMove b m1 = Game.executeMove b m2.
Proof.
  intros Hf Ht Hc Hp Hk He.
  unfold Game.executeMove, Game.executeCastling.
  by rewrite Hf, Ht, Hc, Hp, Hk, He.
Qed.

Lemma executeMove_castling_fields b m1 m2 side :
  castling m1 = Some side → castling m2 = Some side →
  from m1 = from m2 → to m1 = to m2 → color (piece m1) = color (piece m2) →
  enPassant m1 = enPassant m2 →
  Game.executeMove b m1 = Game.executeMove b m2.
Proof.
  intros Hk1 Hk2 Hf Ht Hc He.
  unfold Game.executeMove, Game.executeCastling.
  by rewrite Hf, Ht, Hc, Hk1, Hk2, He.
Qed.

Lemma played_move_safe g o m :
  Board.wf (Game.board g) →
  (Game.move g o).1 = Some m →
  enPassant m = false →
  (is_Some (castling m) →
   Board.findKing (Game.board g) (Game.currentTurn g) = Some (from m)) →
  isKingInCheck (Game.executeMove (Game.board g) m) (Game.currentTurn g) = false.
Proof.
  intros Hwf Hm Hep Hking.
  destruct (move_played g o m Hm)
    as (Hfrom & Hto & Hvf & Hvt & Hne & Hpiece & Hcol & Hcap & Hcastle & Hflag & Hlegal).
  destruct (move_matched g o m Hm) as (m' & Hin & Hmatch).
  apply matches_spec in Hmatch as (Hmf & Hmt & Hmp).
  assert (promotion m = mo_promotion o) as Hpromo.
  { pose proof (move_effects g o) as Heff.
    destruct (Game.move g o) as [[m1|] g1]; [|done]. cbn [fst] in Hm.
    injection Hm as ->. by destruct Heff as (_ & _ & ? & _). }
  set (c := Game.currentTurn g) in *.
  destruct (castling m) as [side|] eqn:Hside.
  - destruct (castling_played g m side Hlegal Hpiece Hcol (eq_sym Hcastle))
      as (Hcf & Hct & Hk & Hcan).
    fold c in Hcf, Hct, Hk, Hcan.
    rewrite (executeMove_castling_fields _ m (MoveGenerator.castlingMove c side) side)
      by (rewrite ?Hk; done).
    apply (castling_safe (Game.moveGenerator g) c side); [done..|].
    cbn [Game.moveGenerator MoveGenerator.board].
    rewrite Hking by eauto. by rewrite Hcf.
  - unfold Game.getLegalMovesFrom in Hin.
    apply generateLegalMovesFrom_kind in Hin as (p & fc & Hp & Hc & Hsq & Hkind).
    cbn [Game.moveGenerator MoveGenerator.board] in Hp.
    rewrite <- Hfrom, Hpiece in Hp. injection Hp as <-.
    destruct Hkind as [tc target Htc Htarget Hsafe Hshape|Hpawn Hgen|side Hty -> _].
    + assert (target = to m) as ->.
      { rewrite Hto, <- Hmt. by destruct Hshape as [[-> _]|[_ (pp & _ & ->)]]. }
      rewrite <- Hfrom in Hsafe, Hshape, Hsq.
      unfold MoveGenerator.isMoveLegal, Board.clone in Hsafe.
      apply negb_true_iff in Hsafe.
      cbn [Game.moveGenerator MoveGenerator.board] in Hsafe, Hshape.
      destruct (mo_promotion o) as [pp|] eqn:Hpp.
      * specialize (Hmp pp eq_refl).
        destruct Hshape as [[-> _]|[Hrank (pp' & Hin' & ->)]]; [done|].
        cbn in Hmp. injection Hmp as ->.
        apply andb_true_iff in Hrank as [Hty%bool_decide_eq_true _].
        apply coordsToSquare_Some in Htarget as (_ & _ & Htarget).
        rewrite (executeMove_fields _ m
                   (withPromotion
                      (plainMove (from m) (to m) (piece m)
                         (Board.getPiece (Game.board g) (to m))) pp))
          by done.
        rewrite (isKingInCheck_alike c _ (Board.movePiece (Game.board g) (from m) (to m)));
          [done|].
        by eapply promoted_alike.
      * rewrite (executeMove_fields _ m
                   (plainMove (from m) (to m) (piece m)
                      (Board.getPiece (Game.board g) (to m))))
          by done.
        done.
    + exfalso. apply getEnPassantMove_fields in Hgen as (_ & _ & Hsquare & _).
      cbn [Game.moveGenerator MoveGenerator.enPassantSquare] in Hsquare.
      rewrite Hflag in Hep. unfold Game.isEnPassantCapture in Hep.
      rewrite Hpiece, Hsquare, Hmt, <- Hto, String.eqb_refl in Hep.
      by rewrite bool_decide_eq_true_2 in Hep.
    + exfalso. unfold Game.isCastlingMove in Hcastle.
      rewrite Hpiece in Hcastle.
      rewrite bool_decide_eq_false_2 in Hcastle by (intros Hx; by apply Hx).
      rewrite Hfrom, Hto, <- Hmf, <- Hmt in Hcastle.
      by destruct (Game.currentTurn g), side.
Qed.

(** X31. A move that [Game.move] plays and does not record as an
    en-passant capture leaves the mover's king unattacked on the board of
    the game it returns (for castling: when the king that castles is the
    one [findKing] locates). *)
Theorem played_move_keeps_king_safe (g : Game.t) (o : MoveOptions) (m : Move) :
  Board.wf (Game.board g) →
  (Game.move g o).1 = Some m →
  enPassant m = false →
  (is_Some (castling m) →
   Board.findKing (Game.board g) (Game.currentTurn g) = Some (from m)) →
  isKingInCheck (Game.board (Game.move g o).2) (Game.currentTurn g) = false.
Proof.
  intros Hwf Hm Hep Hking.
  pose proof (played_move_safe g o m Hwf Hm Hep Hking) as Hsafe.
  pose proof (move_effects g o) as Heff.
  destruct (Game.move g o) as [[m1|] g1]; [|done]. cbn [fst snd] in *.
  injection Hm as ->. destruct Heff as (_ & _ & _ & _ & _ & _ & -> & _). done.
Qed.

Lemma played_move_keeps_king_safe_witness :
  isKingInCheck (Game.board (Game.move (Game.new None) (request "e2" "e4")).2)
    (Game.currentTurn (Game.new None)) = false.
Proof.
  apply (played_move_keeps_king_safe (Game.new None) (request "e2" "e4")
           {| from := "e2"; to := "e4"; piece := {| type := pawn; color := white |};
              captured := None; promotion := None; castling := None;
              enPassant := false; san := Some "e4"%string; check := false;
              checkmate := false |}).
  - split; [reflexivity|repeat constructor].
  - vm_compute. reflexivity.
  - reflexivity.
  - intros [? H]. discriminate H.
Defined.

